(** * geo-package-merger: the merge scripts and their run-level properties

    A shallow embedding of the four merge scripts of the repository
    ([src/merge.ts] and the three earlier variants kept next to it) and the
    proofs of the properties its design document states about them.

    Strings are byte strings; paths follow Node's POSIX [path] module. *)

From Stdlib Require Import ZArith Lia List Ascii String.
From stdpp Require Import base option list strings pretty gmap.

Local Open Scope string_scope.
Local Open Scope list_scope.

(* ------------------------------------------------------------------ *)
(** ** JavaScript strings and Node's [path] *)

Module JS.

Definition chars (s : string) : list ascii := list_ascii_of_string s.
Definition str (l : list ascii) : string := string_of_list_ascii l.

Definition is_slash (c : ascii) : bool := bool_decide (c = "/"%char).
Definition is_dot (c : ascii) : bool := bool_decide (c = "."%char).

Fixpoint drop_while (p : ascii → bool) (l : list ascii) : list ascii :=
  match l with
  | [] => []
  | c :: l' => if p c then drop_while p l' else l
  end.

Fixpoint take_while (p : ascii → bool) (l : list ascii) : list ascii :=
  match l with
  | [] => []
  | c :: l' => if p c then c :: take_while p l' else []
  end.

Fixpoint string_drop (n : nat) (s : string) : string :=
  match n, s with
  | O, _ => s
  | S n', String _ s' => string_drop n' s'
  | S _, EmptyString => EmptyString
  end.

(** [s.replace(pat, rep)] with a string pattern: only the first
    occurrence of [pat] is replaced (the empty pattern matches at 0).
    The replacement texts of the scripts contain no [$] pattern. *)
Fixpoint replace (pat rep s : string) : string :=
  if String.prefix pat s then rep +:+ string_drop (String.length pat) s
  else match s with
       | EmptyString => EmptyString
       | String c s' => String c (replace pat rep s')
       end.

(** [path.basename(p)]: trailing slashes are skipped, the result is the
    last remaining segment. *)
Definition basename (p : string) : string :=
  str (rev (take_while (λ c, negb (is_slash c))
              (drop_while is_slash (rev (chars p))))).

(** [path.extname(p)]: from the last dot of the last segment to its end;
    empty when that segment has no dot, when its only dot is its first
    character, or when it is [".."]. *)
Definition extname (p : string) : string :=
  let seg := rev (chars (basename p)) in
  let after := take_while (λ c, negb (is_dot c)) seg in
  match drop_while (λ c, negb (is_dot c)) seg with
  | [] => ""
  | _ :: [] => ""
  | dot :: _ :: _ =>
      if bool_decide (basename p = "..") then ""
      else str (dot :: rev after)
  end.

(** [filepath.split('/').pop()]: the text after the last slash. *)
Definition split_pop (p : string) : string :=
  str (rev (take_while (λ c, negb (is_slash c)) (rev (chars p)))).

(** [a || b] on strings: the empty string is falsy. *)
Definition or_else (a b : string) : string :=
  if bool_decide (a = "") then b else a.

(** ASCII upper-casing, the canonicalisation of a [/i] regular expression
    and of [toUpperCase] on the characters the scripts match. *)
Definition upper (c : ascii) : ascii :=
  let n := nat_of_ascii c in
  if ((97 <=? n) && (n <=? 122))%nat then ascii_of_nat (n - 32) else c.

Definition ci_eqb (a b : ascii) : bool := bool_decide (upper a = upper b).

Fixpoint ci_list_eqb (a b : list ascii) : bool :=
  match a, b with
  | [], [] => true
  | x :: a', y :: b' => ci_eqb x y && ci_list_eqb a' b'
  | _, _ => false
  end.

(** [s.replace(/\.gpkg$/i, '')]: a final [.gpkg], in any letter case, is
    removed. *)
Definition strip_gpkg (s : string) : string :=
  let r := rev (chars s) in
  if ci_list_eqb (take 5 r) (rev (chars ".gpkg"))
  then str (rev (drop 5 r)) else s.

(** A value used as a condition: [undefined] and [""] are falsy. *)
Definition truthy (o : option string) : bool :=
  match o with
  | Some s => negb (bool_decide (s = ""))
  | None => false
  end.

Definition toUpperCase (s : string) : string := str (upper <$> chars s).

(** [l.join(sep)] *)
Fixpoint join (sep : string) (l : list string) : string :=
  match l with
  | [] => ""
  | [x] => x
  | x :: l' => x +:+ sep +:+ join sep l'
  end.

Definition nl : string := String (ascii_of_nat 10) "".

(** The text of a template literal given line by line. *)
Definition lines (l : list string) : string := join nl l.

End JS.

(* ------------------------------------------------------------------ *)
(** ** The SQLite catalog, as the scripts query it *)

Module Sqlite.

(** A row of a data table: its primary key and the rest of its columns. *)
Record row := Row { row_id : Z; row_data : string }.

(** A row of [sqlite_master] together with the contents of the object it
    names. [tbl_sql] is the stored schema text ([None] is SQL NULL). *)
Record table := Table {
  tbl_type : string;
  tbl_name : string;
  tbl_sql : option string;
  tbl_rows : list row
}.

(** A database: its [sqlite_master] rows in catalog order. *)
Definition catalog := list table.

Global Instance row_eq_dec : EqDecision row.
Proof. solve_decision. Defined.
Global Instance table_eq_dec : EqDecision table.
Proof. solve_decision. Defined.

(** The [LIKE] operator: [%] matches any run of characters, [_] any one
    character, every other character matches itself up to ASCII case. *)
Fixpoint like_chars (pat s : list ascii) : bool :=
  match pat with
  | [] => match s with [] => true | _ :: _ => false end
  | p :: pat' =>
      if bool_decide (p = "%"%char) then
        (fix star (s : list ascii) : bool :=
           like_chars pat' s ||
           match s with [] => false | _ :: s' => star s' end) s
      else if bool_decide (p = "_"%char) then
        match s with [] => false | _ :: s' => like_chars pat' s' end
      else
        match s with
        | [] => false
        | c :: s' => JS.ci_eqb p c && like_chars pat' s'
        end
  end.

Definition like (s pat : string) : bool :=
  like_chars (JS.chars pat) (JS.chars s).

Definition is_table (t : table) : bool := bool_decide (tbl_type t = "table").

(** [SELECT name FROM sqlite_master WHERE type = 'table'
     AND name NOT LIKE 'sqlite_%' AND name NOT LIKE 'gpkg_%'
     AND name NOT LIKE 'rtree_%'] *)
Definition select_data_tables (c : catalog) : list string :=
  tbl_name <$>
    filter (λ t, is_table t
                 && negb (like (tbl_name t) "sqlite_%")
                 && negb (like (tbl_name t) "gpkg_%")
                 && negb (like (tbl_name t) "rtree_%") = true) c.

(** The same query without its last clause, as the first fixed-path
    script has it. *)
Definition select_tables_no_rtree (c : catalog) : list string :=
  tbl_name <$>
    filter (λ t, is_table t
                 && negb (like (tbl_name t) "sqlite_%")
                 && negb (like (tbl_name t) "gpkg_%") = true) c.

(** [SELECT ... FROM sqlite_master WHERE type='table' AND name = ?] with
    [.get(name)]: the first matching row, if any. *)
Definition select_table (c : catalog) (name : string) : option table :=
  find (λ t, is_table t && bool_decide (tbl_name t = name)) c.

(** The row [.get(name)] returns, as the value of its one column:
    [None] is [undefined] (no row), [Some None] a row holding NULL. *)
Definition select_name (name : string) (c : catalog) : option (option string) :=
  (λ t, Some (tbl_name t)) <$> select_table c name.

Definition select_sql (name : string) (c : catalog) : option (option string) :=
  tbl_sql <$> select_table c name.

End Sqlite.

(* ------------------------------------------------------------------ *)
(** ** The platform: file system, database engine, process *)

Module Platform.
Import Sqlite.

(** What a path names. Any file can be copied; only a database can be
    queried. *)
Inductive file := Database (c : catalog) | NotADatabase.

(** A JavaScript [Error]; [err_status] is the [status] property the
    scripts attach to their own input errors. *)
Record error := Error {
  err_name : string;
  err_message : string;
  err_status : option Z
}.

Inductive handle := targetDb | sourceDb.

(** What a catalog query gave back: an exception, the names [.all()]
    returned, or the row [.get()] returned. *)
Inductive answer :=
| Threw
| All (names : list string)
| Got (row : option (option string)).

Global Instance file_eq_dec : EqDecision file.
Proof. solve_decision. Defined.
Global Instance error_eq_dec : EqDecision error.
Proof. solve_decision. Defined.
Global Instance handle_eq_dec : EqDecision handle.
Proof. solve_decision. Defined.
Global Instance answer_eq_dec : EqDecision answer.
Proof. solve_decision. Defined.

(** The calls a script makes to the outside, with what came back. *)
Inductive event :=
| Log (msg : string)
| LogError (msg : string)
| ExistsSync (path : string) (found : bool)
| StatSync (path : string) (found : bool)
| CopyFileSync (src dst : string) (done : bool)
| UnlinkSync (path : string) (done : bool)
| NewDatabase (h : handle) (path : string) (done : bool)
| Select (h : handle) (sql : string) (param : option string) (a : answer)
| Count (h : handle) (sql : string) (count : option nat)
| Run (h : handle) (sql : string) (changes : option nat)
| Exec (h : handle) (sql : string) (done : bool)
| Close (h : handle)
| ProcessExit (code : Z).

Global Instance event_eq_dec : EqDecision event.
Proof. solve_decision. Defined.

(** The state a run acts on. Paths are compared as written (no links, no
    normalisation). [source_db] is the schema attached to the target
    connection under that alias. *)
Record world := World {
  fs : gmap string file;
  source_db : option catalog
}.

(** What the scripts do not decide: the clock, the rendering of a size,
    I/O failures, and how the engine executes statement text: [sql_exec]
    is [db.exec(sql)] on a connection with the given main schema and
    attachment (and the files it can reach), [sql_run] is
    [db.prepare(sql).run()] with its [changes], [sql_count] reads the
    [count] column of [db.prepare(sql).get()]. A [string + A] answer is
    either the message of the exception thrown or the result; a
    statement that throws changes nothing. *)
Record env := Env {
  Date_now : Z;
  size_mb : file → string;
  copy_error : string → string → option string;
  unlink_error : string → option string;
  open_error : string → bool → option string;
  sql_exec : string → gmap string file → catalog → option catalog →
             string + (catalog * option catalog);
  sql_run : string → catalog → option catalog → string + (catalog * nat);
  sql_count : string → catalog → string + nat
}.

Inductive outcome (A : Type) :=
| Ret (a : A)
| Throw (e : error)
| Exit (code : Z).
Arguments Ret {A} a.
Arguments Throw {A} e.
Arguments Exit {A} code.

(** One piece of a run: how it ended, the state it left, and the calls
    it made, oldest first. *)
Record step (A : Type) := Step {
  out : outcome A;
  after : world;
  calls : list event
}.
Arguments Step {A} out after calls.
Arguments out {A} s.
Arguments after {A} s.
Arguments calls {A} s.

Definition M (A : Type) : Type := world → step A.

Definition ret {A} (a : A) : M A := λ w, Step (Ret a) w [].
Definition throw {A} (e : error) : M A := λ w, Step (Throw e) w [].

(** The step [s] after the calls [evs]. *)
Definition prepend {A} (evs : list event) (s : step A) : step A :=
  Step (out s) (after s) (evs ++ calls s).

(** What follows a step [s] in [m; k]. *)
Definition then_ {A B} (s : step A) (k : A → M B) : step B :=
  match out s with
  | Ret a => prepend (calls s) (k a (after s))
  | Throw e => Step (Throw e) (after s) (calls s)
  | Exit c => Step (Exit c) (after s) (calls s)
  end.

Definition bind {A B} (m : M A) (k : A → M B) : M B := λ w, then_ (m w) k.

(** What follows a step [s] of the block in [try { ... } catch (e) { h e }]:
    [process.exit] is not an exception. *)
Definition catch_ {A} (s : step A) (h : error → M A) : step A :=
  match out s with
  | Throw e => prepend (calls s) (h e (after s))
  | _ => s
  end.

Definition try_catch {A} (m : M A) (h : error → M A) : M A := λ w,
  catch_ (m w) h.

Global Instance M_ret : MRet M := @ret.
Global Instance M_bind : MBind M := λ A B k m, bind m k.

(** A call that returns [o] and leaves the state as it is. *)
Definition call {A} (e : event) (o : outcome A) : M A := λ w, Step o w [e].

Definition plain_error (msg : string) : error := Error "Error" msg None.
Definition sqlite_error (msg : string) : error := Error "SqliteError" msg None.

(** [`${err}`] *)
Definition error_text (e : error) : string :=
  err_name e +:+ ": " +:+ err_message e.

(** An open [Database] object: which of the two it is, and its file. *)
Record connection := Connection { conn : handle; conn_path : string }.

Section calls.
Context (E : env).

Definition console_log (msg : string) : M unit :=
  call (Log msg) (Ret ()).

Definition console_error (msg : string) : M unit :=
  call (LogError msg) (Ret ()).

Definition process_exit {A} (code : Z) : M A :=
  call (ProcessExit code) (Exit code).

Definition existsSync (path : string) : M bool := λ w,
  let found := match fs w !! path with Some _ => true | None => false end in
  call (ExistsSync path found) (Ret found) w.

Definition statSync (path : string) : M file := λ w,
  match fs w !! path with
  | Some f => call (StatSync path true) (Ret f) w
  | None =>
      call (StatSync path false)
        (Throw (plain_error ("ENOENT: no such file or directory, stat '"
                             +:+ path +:+ "'"))) w
  end.

(** [fs.copyFileSync(src, dst)]: an existing [dst] is overwritten. *)
Definition copyFileSync (src dst : string) : M unit := λ w,
  match fs w !! src with
  | None =>
      call (CopyFileSync src dst false)
        (Throw (plain_error ("ENOENT: no such file or directory, copyfile '"
                             +:+ src +:+ "' -> '" +:+ dst +:+ "'"))) w
  | Some f =>
      match copy_error E src dst with
      | Some msg => call (CopyFileSync src dst false) (Throw (plain_error msg)) w
      | None =>
          Step (Ret ()) (World (<[dst := f]> (fs w)) (source_db w))
            [CopyFileSync src dst true]
      end
  end.

Definition unlinkSync (path : string) : M unit := λ w,
  match fs w !! path with
  | None =>
      call (UnlinkSync path false)
        (Throw (plain_error ("ENOENT: no such file or directory, unlink '"
                             +:+ path +:+ "'"))) w
  | Some _ =>
      match unlink_error E path with
      | Some msg => call (UnlinkSync path false) (Throw (plain_error msg)) w
      | None =>
          Step (Ret ()) (World (delete path (fs w)) (source_db w))
            [UnlinkSync path true]
      end
  end.

(** [new Database(path, { readonly })]: a missing file is created
    unless the connection is read-only. *)
Definition new_Database (h : handle) (path : string) (readonly : bool)
    : M connection := λ w,
  match open_error E path readonly with
  | Some msg => call (NewDatabase h path false) (Throw (sqlite_error msg)) w
  | None =>
      match fs w !! path with
      | Some _ => call (NewDatabase h path true) (Ret (Connection h path)) w
      | None =>
          if readonly
          then call (NewDatabase h path false)
                 (Throw (sqlite_error "unable to open database file")) w
          else Step (Ret (Connection h path))
                 (World (<[path := Database []]> (fs w)) (source_db w))
                 [NewDatabase h path true]
      end
  end.

Definition not_a_database : error := sqlite_error "file is not a database".

(** [db.prepare(sql).all()] for a query [q] on [sqlite_master]. *)
Definition db_all (db : connection) (sql : string)
    (q : catalog → list string) : M (list string) := λ w,
  match fs w !! conn_path db with
  | Some (Database c) =>
      call (Select (conn db) sql None (All (q c))) (Ret (q c)) w
  | _ => call (Select (conn db) sql None Threw) (Throw not_a_database) w
  end.

(** [db.prepare(sql).get(param)] for a query [q] on [sqlite_master]. *)
Definition db_get (db : connection) (sql : string) (param : string)
    (q : catalog → option (option string)) : M (option (option string)) := λ w,
  match fs w !! conn_path db with
  | Some (Database c) =>
      call (Select (conn db) sql (Some param) (Got (q c))) (Ret (q c)) w
  | _ => call (Select (conn db) sql (Some param) Threw) (Throw not_a_database) w
  end.

(** [db.exec(sql)] *)
Definition db_exec (db : connection) (sql : string) : M unit := λ w,
  match fs w !! conn_path db with
  | Some (Database c) =>
      match sql_exec E sql (fs w) c (source_db w) with
      | inr (c', a') =>
          Step (Ret ()) (World (<[conn_path db := Database c']> (fs w)) a')
            [Exec (conn db) sql true]
      | inl msg => call (Exec (conn db) sql false) (Throw (sqlite_error msg)) w
      end
  | _ => call (Exec (conn db) sql false) (Throw not_a_database) w
  end.

(** [db.prepare(sql).run().changes] *)
Definition db_run (db : connection) (sql : string) : M nat := λ w,
  match fs w !! conn_path db with
  | Some (Database c) =>
      match sql_run E sql c (source_db w) with
      | inr (c', n) =>
          Step (Ret n)
            (World (<[conn_path db := Database c']> (fs w)) (source_db w))
            [Run (conn db) sql (Some n)]
      | inl msg => call (Run (conn db) sql None) (Throw (sqlite_error msg)) w
      end
  | _ => call (Run (conn db) sql None) (Throw not_a_database) w
  end.

(** [db.prepare(sql).get().count] *)
Definition db_count (db : connection) (sql : string) : M nat := λ w,
  match fs w !! conn_path db with
  | Some (Database c) =>
      match sql_count E sql c with
      | inr n => call (Count (conn db) sql (Some n)) (Ret n) w
      | inl msg => call (Count (conn db) sql None) (Throw (sqlite_error msg)) w
      end
  | _ => call (Count (conn db) sql None) (Throw not_a_database) w
  end.

Definition db_close (db : connection) : M unit :=
  call (Close (conn db)) (Ret ()).

(** [for (const x of l) { s = body x s }] *)
Fixpoint for_of {A S} (l : list A) (s : S) (body : A → S → M S) : M S :=
  match l with
  | [] => mret s
  | x :: l' => s' ← body x s; for_of l' s' body
  end.

End calls.

(** The outcome of a process: the files it leaves, the calls it made
    (oldest first) and its exit code. Falling off the end of the script
    is exit code 0; an exception nobody catches is Node's exit code 1. *)
Record result := Result {
  final_fs : gmap string file;
  events : list event;
  exit_code : Z
}.

Definition exit_of {A} (o : outcome A) : Z :=
  match o with
  | Ret _ => 0
  | Throw _ => 1
  | Exit c => c
  end.

Definition result_of (s : step unit) : result :=
  Result (fs (after s)) (calls s) (exit_of (out s)).

Definition run_process (main : M unit) (files : gmap string file) : result :=
  result_of (main (World files None)).

End Platform.

(* ------------------------------------------------------------------ *)
(** ** Statement texts shared by the scripts

    The scripts spread their statements over several lines of a template
    literal; the texts here are the same statements on one line. *)

Module Sql.

Definition list_data_tables : string :=
  "SELECT name FROM sqlite_master WHERE type = 'table' AND name NOT LIKE 'sqlite_%' AND name NOT LIKE 'gpkg_%' AND name NOT LIKE 'rtree_%'".

Definition list_tables_no_rtree : string :=
  "SELECT name FROM sqlite_master WHERE type = 'table' AND name NOT LIKE 'sqlite_%' AND name NOT LIKE 'gpkg_%'".

Definition table_exists : string :=
  "SELECT name FROM sqlite_master WHERE type='table' AND name = ?".

Definition table_sql : string :=
  "SELECT sql FROM sqlite_master WHERE type='table' AND name = ?".

Definition insert_select (tableName : string) : string :=
  "INSERT INTO " +:+ tableName +:+ " SELECT * FROM source_db." +:+ tableName.

Definition insert_or_ignore_select (tableName : string) : string :=
  "INSERT OR IGNORE INTO " +:+ tableName +:+ " SELECT * FROM source_db." +:+ tableName.

Definition count_rows (tableName : string) : string :=
  "SELECT COUNT(*) as count FROM " +:+ tableName.

Definition attach (file2 : string) : string :=
  "ATTACH DATABASE '" +:+ file2 +:+ "' AS source_db".

Definition detach : string := "DETACH DATABASE source_db".

End Sql.

(** [StatusCodes.BAD_REQUEST] of the http-status-codes package. *)
Definition BAD_REQUEST : Z := 400.

(* ------------------------------------------------------------------ *)
(** ** [src/merge.ts] *)

Module MergeTs.
Import Sqlite Platform.

Definition usage : string :=
  JS.lines [
    "";
    "Not enough arguments. Try providing at least two GeoPackage files to merge.";
    "";
    "Usage:";
    "  npm run merge <file1> <file2> [output]";
    "";
    "Examples:";
    "  npm run merge ./data/file1.gpkg ./data/file2.gpkg";
    "  npm run merge ./data/file1.gpkg ./data/file2.gpkg ./custom_output.gpkg";
    ""
  ].

Definition getName (filepath : string) : string :=
  let basename := JS.basename filepath in
  let extname := JS.extname basename in
  JS.replace extname "" basename.

Definition createOutputFilename (file1 file2 : string)
    (customOutput : option string) : string :=
  if JS.truthy customOutput then default "" customOutput
  else
    let name1 := getName file1 in
    let name2 := getName file2 in
    "merged_" +:+ name1 +:+ "_" +:+ name2 +:+ ".gpkg".

Section script.
Context (E : env).

Definition validateFilesExist (file1 file2 : string) : M unit :=
  file1Exists ← existsSync file1;
  file2Exists ← existsSync file2;
  if negb file1Exists || negb file2Exists then
    let missingFiles :=
      JS.join ", "
        (omap (λ o, if JS.truthy o then o else None)
           [if negb file1Exists then Some file1 else None;
            if negb file2Exists then Some file2 else None]) in
    throw (Error "Error" ("Missing file(s): " +:+ missingFiles)
             (Some BAD_REQUEST))
  else mret ().

Definition logFileSizes (file1 file2 : string) : M (string * string) :=
  stat1 ← statSync file1;
  stat2 ← statSync file2;
  let name1 := getName file1 in
  let name2 := getName file2 in
  console_log (name1 +:+ " dataset size: " +:+ size_mb E stat1 +:+ " MB");;
  console_log (name2 +:+ " dataset size: " +:+ size_mb E stat2 +:+ " MB");;
  mret (name1, name2).

Definition getDataTables (database : connection) : M (list string) :=
  db_all database Sql.list_data_tables select_data_tables.

Definition tableExists (targetDb : connection) (tableName : string) : M bool :=
  row ← db_get targetDb Sql.table_exists tableName (select_name tableName);
  mret (bool_decide (is_Some row)).

Definition createTableIfNotExists (sourceDb targetDb : connection)
    (tableName : string) : M unit :=
  found ← tableExists targetDb tableName;
  if found : bool then mret ()
  else
    console_log ("Creating new table: " +:+ tableName);;
    createTableSQL ← db_get sourceDb Sql.table_sql tableName (select_sql tableName);
    let sql := createTableSQL ≫= id in
    if JS.truthy sql then db_exec E targetDb (default "" sql)
    else throw (plain_error ("Could not get table structure for " +:+ tableName)).

Definition insertTableData (targetDb : connection) (tableName : string) : M nat :=
  db_run E targetDb (Sql.insert_select tableName).

Definition processTable (sourceDb targetDb : connection) (table : string) : M nat :=
  createTableIfNotExists sourceDb targetDb table;;
  insertTableData targetDb table.

(** The body of the [for] loop, with its [try]/[catch]. *)
Definition merge_table (sourceDb targetDb : connection)
    (table : string) (totalMerged : nat) : M nat :=
  try_catch
    (rowsAdded ← processTable sourceDb targetDb table;
     mret (totalMerged + rowsAdded)%nat)
    (λ err,
       console_error ("Error processing table " +:+ table +:+ ": "
                      +:+ error_text err);;
       throw err).

(** The [if (fs.existsSync(outputFilename))] block. *)
Definition finalOutputFilename (outputFilename : string) : M string :=
  found ← existsSync outputFilename;
  if found : bool then
    let timestamp := Date_now E in
    let ext := JS.extname outputFilename in
    let nameWithoutExt := JS.replace ext "" outputFilename in
    let final := nameWithoutExt +:+ "_" +:+ pretty timestamp +:+ ext in
    console_log ("Output file exists, creating: " +:+ final);;
    mret final
  else mret outputFilename.

(** The [for] loop of the [try] block. *)
Definition mergeTables (sourceDb targetDb : connection)
    (sourceTables : list string) : M nat :=
  for_of sourceTables 0%nat (merge_table sourceDb targetDb).

(** The [try] block after the loop: detach, close, report. *)
Definition finish (file1Name file2Name outputFilename : string)
    (sourceDb targetDb : connection) (totalMerged : nat) : M unit :=
  db_exec E targetDb Sql.detach;;
  db_close sourceDb;;
  db_close targetDb;;
  stat ← statSync outputFilename;
  console_log (JS.nl +:+ JS.toUpperCase file1Name +:+ " + "
               +:+ JS.toUpperCase file2Name +:+ " MERGE COMPLETE!");;
  console_log ("Total rows added: " +:+ pretty totalMerged);;
  console_log ("Output: " +:+ outputFilename +:+ " (" +:+ size_mb E stat +:+ " MB)");;
  console_log ("Combined: " +:+ file1Name +:+ " + " +:+ file2Name +:+ " datasets!").

(** The [try] block from [fs.copyFileSync] on, [outputFilename] being
    the final output name. *)
Definition mergeInto (file1 file2 file1Name file2Name outputFilename : string)
    : M unit :=
  copyFileSync E file1 outputFilename;;
  targetDb ← new_Database E targetDb outputFilename false;
  sourceDb ← new_Database E sourceDb file2 true;
  sourceTables ← getDataTables sourceDb;
  console_log "Merging datasets...";;
  db_exec E targetDb (Sql.attach file2);;
  totalMerged ← mergeTables sourceDb targetDb sourceTables;
  finish file1Name file2Name outputFilename sourceDb targetDb totalMerged.

(** The [try] block after [validateFilesExist]. *)
Definition validated (file1 file2 outputFilename : string) : M unit :=
  '(file1Name, file2Name) ← logFileSizes file1 file2;
  outputFilename ← finalOutputFilename outputFilename;
  mergeInto file1 file2 file1Name file2Name outputFilename.

(** The [try] block. *)
Definition merge (file1 file2 outputFilename : string) : M unit :=
  validateFilesExist file1 file2;;
  validated file1 file2 outputFilename.

(** The [catch] block. *)
Definition failed (error : Platform.error) : M unit :=
  console_error ("Failed: " +:+ err_message error);;
  let exitCode := if bool_decide (err_status error = Some BAD_REQUEST)
                  then 1%Z else 2%Z in
  process_exit exitCode.

Definition main (args : list string) : M unit :=
  console_log "GeoPackage Merge Tool";;
  if (length args <? 2)%nat then
    console_log usage;;
    process_exit 1
  else
    let file1 := default "" (args !! 0%nat) in
    let file2 := default "" (args !! 1%nat) in
    let outputFilename := createOutputFilename file1 file2 (args !! 2%nat) in
    try_catch (merge file1 file2 outputFilename) failed.

Definition run (args : list string) (files : gmap string file) : result :=
  run_process (main args) files.

End script.

End MergeTs.

(* ------------------------------------------------------------------ *)
(** ** The earlier argument-driven script ([src/unnamed/part_000]) *)

Module Part000.
Import Sqlite Platform.

Definition getName (filepath : string) : string :=
  let filename := JS.or_else (JS.split_pop filepath) filepath in
  JS.strip_gpkg filename.

Definition createOutputFilename (file1 file2 : string)
    (customOutput : option string) : string :=
  if JS.truthy customOutput then default "" customOutput
  else
    let name1 := getName file1 in
    let name2 := getName file2 in
    "merged_" +:+ name1 +:+ "_" +:+ name2 +:+ ".gpkg".

Section script.
Context (E : env).

Definition getDataTables (database : connection) : M (list string) :=
  db_all database Sql.list_data_tables select_data_tables.

Definition tableExists (targetDb : connection) (tableName : string) : M bool :=
  row ← db_get targetDb Sql.table_exists tableName (select_name tableName);
  mret (bool_decide (is_Some row)).

Definition createTableIfNotExists (sourceDb targetDb : connection)
    (tableName : string) : M bool :=
  found ← tableExists targetDb tableName;
  if found : bool then mret true
  else
    console_log ("Creating new table: " +:+ tableName);;
    createTableSQL ← db_get sourceDb Sql.table_sql tableName (select_sql tableName);
    let sql := createTableSQL ≫= id in
    if JS.truthy sql then
      db_exec E targetDb (default "" sql);;
      console_log "Table structure created";;
      mret true
    else
      console_log ("Warning: Could not get table structure for "
                   +:+ tableName +:+ ", skipping...");;
      mret false.

Definition insertTableData (targetDb : connection) (tableName : string) : M nat :=
  rowsAdded ← db_run E targetDb (Sql.insert_select tableName);
  console_log ("Added " +:+ pretty rowsAdded +:+ " rows from " +:+ tableName);;
  mret rowsAdded.

Definition processTable (sourceDb targetDb : connection) (table : string)
    (file2Name : string) : M nat :=
  let tableName := table in
  console_log ("Processing " +:+ file2Name +:+ " table: " +:+ tableName);;
  try_catch
    (created ← createTableIfNotExists sourceDb targetDb tableName;
     if negb created then mret 0%nat
     else insertTableData targetDb tableName)
    (λ err,
       console_log ("Error with table " +:+ tableName +:+ ": "
                    +:+ error_text err);;
       mret 0%nat).

Definition missing (file : string) : M unit :=
  found ← existsSync file;
  if negb found then
    throw (Error "Error" (file +:+ " file missing") (Some BAD_REQUEST))
  else mret ().

(** The [if (fs.existsSync(output))] statement; yields the final
    [output]. *)
Definition copyBase (file1 output : string) : M string :=
  found ← existsSync output;
  if found : bool then
    let timestamp := Date_now E in
    let newOutput :=
      JS.replace ".gpkg" ("_" +:+ pretty timestamp +:+ ".gpkg") output in
    console_log ("Output file exists, creating: " +:+ newOutput);;
    copyFileSync E file1 newOutput;;
    mret newOutput
  else
    copyFileSync E file1 output;;
    mret output.

Definition logCounts (db : connection) (tables : list string) : M unit :=
  for_of tables () (λ table _,
    count ← db_count E db (Sql.count_rows table);
    console_log ("   - " +:+ table +:+ ": " +:+ pretty count +:+ " rows")).

Definition mergeTables (sourceDb targetDb : connection)
    (sourceTables : list string) (file2Name : string) : M nat :=
  for_of sourceTables 0%nat (λ table totalMerged,
    rowsAdded ← processTable sourceDb targetDb table file2Name;
    mret (totalMerged + rowsAdded)%nat).

(** The [try] block after the loop: detach, close, report. *)
Definition finish (file1Name file2Name output : string)
    (sourceDb targetDb : connection) (totalMerged : nat) : M unit :=
  db_exec E targetDb Sql.detach;;
  db_close sourceDb;;
  db_close targetDb;;
  stat ← statSync output;
  console_log (JS.nl +:+ JS.toUpperCase file1Name +:+ " + "
               +:+ JS.toUpperCase file2Name +:+ " MERGE COMPLETE!");;
  console_log ("Total rows added: " +:+ pretty totalMerged);;
  console_log ("Output: " +:+ output +:+ " (" +:+ size_mb E stat +:+ " MB)");;
  console_log ("Combined: " +:+ file1Name +:+ " + " +:+ file2Name +:+ " datasets!").

(** The [try] block once the base file is copied, [output] being the
    final output name. *)
Definition mergeInto (file2 file1Name file2Name output : string) : M unit :=
  console_log ("Base file copied (" +:+ file1Name +:+ " as base)");;
  console_log ("Step 3: Open databases (" +:+ file1Name +:+ " and "
               +:+ file2Name +:+ ")...");;
  targetDb ← new_Database E targetDb output false;
  sourceDb ← new_Database E sourceDb file2 true;
  console_log ("Databases opened (" +:+ file1Name +:+ " and "
               +:+ file2Name +:+ ")");;
  console_log ("Step 4: Get table information from " +:+ file1Name
               +:+ " and " +:+ file2Name +:+ "...");;
  targetTables ← getDataTables targetDb;
  sourceTables ← getDataTables sourceDb;
  console_log (file1Name +:+ " has " +:+ pretty (length targetTables)
               +:+ " data tables");;
  logCounts targetDb targetTables;;
  console_log (file2Name +:+ " has " +:+ pretty (length sourceTables)
               +:+ " data tables");;
  logCounts sourceDb sourceTables;;
  console_log "Step 5: Attach and merge different datasets...";;
  db_exec E targetDb (Sql.attach file2);;
  totalMerged ← mergeTables sourceDb targetDb sourceTables file2Name;
  finish file1Name file2Name output sourceDb targetDb totalMerged.

(** The [try] block after the two existence checks. *)
Definition validated (file1 file2 output : string) : M unit :=
  stat1 ← statSync file1;
  stat2 ← statSync file2;
  let file1Name := JS.or_else (JS.strip_gpkg (JS.split_pop file1)) "file1" in
  let file2Name := JS.or_else (JS.strip_gpkg (JS.split_pop file2)) "file2" in
  console_log (file1Name +:+ " dataset size: " +:+ size_mb E stat1 +:+ " MB");;
  console_log (file2Name +:+ " dataset size: " +:+ size_mb E stat2 +:+ " MB");;
  console_log ("Step 2: Copy base file from " +:+ file1 +:+ " to "
               +:+ output +:+ "...");;
  output ← copyBase file1 output;
  mergeInto file2 file1Name file2Name output.

(** The [try] block. *)
Definition merge (file1 file2 output : string) : M unit :=
  missing file1;;
  missing file2;;
  validated file1 file2 output.

(** The [catch] block. *)
Definition failed (error : Platform.error) : M unit :=
  console_error ("Failed: " +:+ err_message error);;
  let exitCode := if bool_decide (err_status error = Some BAD_REQUEST)
                  then 1%Z else 2%Z in
  process_exit exitCode.

Definition main (args : list string) : M unit :=
  console_log "GeoPackage Merge Tool";;
  if (length args <? 2)%nat then
    console_log (JS.nl +:+ "Usage:");;
    console_log "  npm run merge <file1> <file2> [output]";;
    console_log (JS.nl +:+ "Examples:");;
    console_log "  npm run merge ./data/north.gpkg ./data/south.gpkg";;
    console_log "  npm run merge ./data/north.gpkg ./data/south.gpkg ./custom_output.gpkg";;
    process_exit 1
  else
    let file1 := default "" (args !! 0%nat) in
    let file2 := default "" (args !! 1%nat) in
    let output := createOutputFilename file1 file2 (args !! 2%nat) in
    try_catch (merge file1 file2 output) failed.

Definition run (args : list string) (files : gmap string file) : result :=
  run_process (main args) files.

End script.

End Part000.

(* ------------------------------------------------------------------ *)
(** ** The first fixed-path script ([src/unnamed/part_001])

    Console texts of the two fixed-path scripts are given without their
    pictographs. *)

Module Part001.
Import Sqlite Platform.

Definition file1 : string := "./data/test_north.gpkg".
Definition file2 : string := "./data/test_south.gpkg".
Definition output : string := "./merged_complete.gpkg".

Section script.
Context (E : env).

Definition listTables (sourceDb : connection) : M (list string) :=
  db_all sourceDb Sql.list_tables_no_rtree select_tables_no_rtree.

(** The body of the [for] loop, with its [try]/[catch]. *)
Definition merge_table (targetDb : connection) (table : string)
    (totalMerged : nat) : M nat :=
  try_catch
    (let tableName := table in
     console_log ("Processing table: " +:+ tableName);;
     changes ← db_run E targetDb (Sql.insert_or_ignore_select tableName);
     console_log ("Merged " +:+ pretty changes +:+ " rows from " +:+ tableName);;
     mret (totalMerged + changes)%nat)
    (λ err,
       console_log ("Skipped table: " +:+ error_text err);;
       mret totalMerged).

(** The [try] block. *)
Definition merge : M unit :=
  console_log "Step 1: Validate files...";;
  found1 ← existsSync file1;
  (if negb found1 then throw (plain_error "File 1 missing") else mret ());;
  found2 ← existsSync file2;
  (if negb found2 then throw (plain_error "File 2 missing") else mret ());;
  console_log "Files validated";;
  console_log "Step 2: Copy base file...";;
  found ← existsSync output;
  (if found : bool then unlinkSync E output else mret ());;
  copyFileSync E file1 output;;
  console_log "Base file copied";;
  console_log "Step 3: Open databases...";;
  targetDb ← new_Database E targetDb output false;
  sourceDb ← new_Database E sourceDb file2 true;
  console_log "Databases opened";;
  console_log "Step 4: Get table info...";;
  tables ← listTables sourceDb;
  console_log ("Found " +:+ pretty (length tables) +:+ " data tables to merge");;
  console_log "Step 5: Attach and merge...";;
  db_exec E targetDb (Sql.attach file2);;
  totalMerged ← for_of tables 0%nat (merge_table targetDb);
  db_exec E targetDb Sql.detach;;
  db_close sourceDb;;
  db_close targetDb;;
  console_log ("MERGE COMPLETE! Total rows merged: " +:+ pretty totalMerged);;
  console_log ("Output: " +:+ output).

(** The [catch] block: it reports and returns. *)
Definition failed (error : Platform.error) : M unit :=
  console_error ("Failed: " +:+ err_message error).

Definition main : M unit :=
  console_log "GeoPackage Merge with SQLite";;
  try_catch merge failed.

Definition run (files : gmap string file) : result :=
  run_process main files.

End script.

End Part001.

(* ------------------------------------------------------------------ *)
(** ** The second fixed-path script ([src/unnamed/part_002]) *)

Module Part002.
Import Sqlite Platform.

Definition file1 : string := "./data/Syria.gpkg".
Definition file2 : string := "./data/blueMarble.gpkg".
Definition output : string := "./merged_syria_bluemarble.gpkg".

Section script.
Context (E : env).

Definition listTables (db : connection) : M (list string) :=
  db_all db Sql.list_data_tables select_data_tables.

Definition logCounts (db : connection) (tables : list string) : M unit :=
  for_of tables () (λ table _,
    count ← db_count E db (Sql.count_rows table);
    console_log ("   - " +:+ table +:+ ": " +:+ pretty count +:+ " rows")).

(** The body of the merge loop, with its [try]/[catch]. *)
Definition merge_table (sourceDb targetDb : connection) (table : string)
    (totalMerged : nat) : M nat :=
  try_catch
    (let tableName := table in
     console_log ("Processing Blue Marble table: " +:+ tableName);;
     tableExists ← db_get targetDb Sql.table_exists tableName (select_name tableName);
     (if negb (bool_decide (is_Some tableExists)) then
        console_log ("Creating new table: " +:+ tableName);;
        createTableSQL ← db_get sourceDb Sql.table_sql tableName (select_sql tableName);
        let sql := createTableSQL ≫= id in
        if JS.truthy sql then
          db_exec E targetDb (default "" sql);;
          console_log "Table structure created"
        else mret ()
      else mret ());;
     changes ← db_run E targetDb (Sql.insert_select tableName);
     console_log ("Added " +:+ pretty changes +:+ " rows from " +:+ tableName);;
     mret (totalMerged + changes)%nat)
    (λ err,
       console_log ("Error with table " +:+ table +:+ ": " +:+ error_text err);;
       mret totalMerged).

(** The [try] block. *)
Definition merge : M unit :=
  console_log "Step 1: Validate new GeoPackage files...";;
  found1 ← existsSync file1;
  (if negb found1 then throw (plain_error "Syria file missing") else mret ());;
  found2 ← existsSync file2;
  (if negb found2 then throw (plain_error "Blue Marble file missing") else mret ());;
  stat1 ← statSync file1;
  stat2 ← statSync file2;
  console_log ("Syria dataset: " +:+ size_mb E stat1 +:+ " MB");;
  console_log ("Blue Marble dataset: " +:+ size_mb E stat2 +:+ " MB");;
  console_log "Step 2: Copy base file...";;
  found ← existsSync output;
  (if found : bool then unlinkSync E output else mret ());;
  copyFileSync E file1 output;;
  console_log "Base file copied (Syria as base)";;
  console_log "Step 3: Open databases...";;
  targetDb ← new_Database E targetDb output false;
  sourceDb ← new_Database E sourceDb file2 true;
  console_log "Databases opened";;
  console_log "Step 4: Analyze both datasets...";;
  targetTables ← listTables targetDb;
  sourceTables ← listTables sourceDb;
  console_log ("Syria has " +:+ pretty (length targetTables) +:+ " data tables");;
  logCounts targetDb targetTables;;
  console_log ("Blue Marble has " +:+ pretty (length sourceTables) +:+ " data tables");;
  logCounts sourceDb sourceTables;;
  console_log "Step 5: Attach and merge different datasets...";;
  db_exec E targetDb (Sql.attach file2);;
  totalMerged ← for_of sourceTables 0%nat (merge_table sourceDb targetDb);
  db_exec E targetDb Sql.detach;;
  db_close sourceDb;;
  db_close targetDb;;
  stat ← statSync output;
  console_log (JS.nl +:+ "SYRIA + BLUE MARBLE MERGE COMPLETE!");;
  console_log ("Total rows added: " +:+ pretty totalMerged);;
  console_log ("Output: " +:+ output +:+ " (" +:+ size_mb E stat +:+ " MB)");;
  console_log "Combined: Syria geographic data + Blue Marble imagery!".

(** The [catch] block: it reports and returns. *)
Definition failed (error : Platform.error) : M unit :=
  console_error ("Failed: " +:+ err_message error).

Definition main : M unit :=
  console_log "GeoPackage Merge - SYRIA + BLUE MARBLE";;
  try_catch merge failed.

Definition run (files : gmap string file) : result :=
  run_process main files.

End script.

End Part002.

(* ------------------------------------------------------------------ *)
(** ** A small engine, for running the scripts on concrete files *)

Module Toy.
Import Sqlite Platform.

(** The text of a single-quoted SQL string literal whose opening quote
    has been read: a doubled quote stands for one quote, a lone quote
    ends the literal. Returns the literal's value and the text after it. *)
Fixpoint string_literal (s : string) : option (string * string) :=
  match s with
  | EmptyString => None
  | String c s' =>
      if bool_decide (c = "'"%char) then
        match s' with
        | String c' s'' =>
            if bool_decide (c' = "'"%char) then
              '(v, r) ← string_literal s''; Some (String "'"%char v, r)
            else Some ("", s')
        | EmptyString => Some ("", "")
        end
      else '(v, r) ← string_literal s'; Some (String c v, r)
  end.

(** [ATTACH DATABASE '<literal>' AS source_db]: the file the statement
    names, when it has exactly this shape. *)
Definition parse_attach (sql : string) : option string :=
  let head := "ATTACH DATABASE '" in
  if String.prefix head sql then
    '(v, r) ← string_literal (JS.string_drop (String.length head) sql);
    if bool_decide (r = " AS source_db") then Some v else None
  else None.

Definition has_table (c : catalog) (name : string) : bool :=
  bool_decide (is_Some (select_table c name)).

Definition ids (t : table) : list Z := row_id <$> tbl_rows t.

Definition add_rows (name : string) (rows : list row) (c : catalog) : catalog :=
  (λ t, if is_table t && bool_decide (tbl_name t = name)
        then Table (tbl_type t) (tbl_name t) (tbl_sql t) (tbl_rows t ++ rows)
        else t) <$> c.

(** [exec]: DETACH, ATTACH of an existing or a new file, or one of the
    create statements stored in [known]. *)
Definition exec (known : catalog) (sql : string) (files : gmap string file)
    (main : catalog) (attached : option catalog)
    : string + (catalog * option catalog) :=
  if bool_decide (sql = Sql.detach) then
    match attached with
    | Some _ => inr (main, None)
    | None => inl "no such database: source_db"
    end
  else match parse_attach sql with
  | Some path =>
      match attached, files !! path with
      | Some _, _ => inl "database source_db is already in use"
      | None, Some (Database c) => inr (main, Some c)
      | None, Some NotADatabase => inl "file is not a database"
      | None, None => inr (main, Some [])
      end
  | None =>
      match find (λ t, bool_decide (tbl_sql t = Some sql)) known with
      | Some t =>
          if has_table main (tbl_name t)
          then inl ("table " +:+ tbl_name t +:+ " already exists")
          else inr (main ++ [Table (tbl_type t) (tbl_name t) (tbl_sql t) []], attached)
      | None => inl "syntax error"
      end
  end.

(** [INSERT INTO t SELECT * FROM source_db.t]: fails when a key of the
    source is already in the target; with [OR IGNORE] such rows are
    dropped instead. *)
Definition run (sql : string) (main : catalog) (attached : option catalog)
    : string + (catalog * nat) :=
  match attached with
  | None => inl "unknown database source_db"
  | Some src =>
      match find (λ t, is_table t
                       && (bool_decide (sql = Sql.insert_select (tbl_name t))
                           || bool_decide (sql = Sql.insert_or_ignore_select (tbl_name t)))) src with
      | None => inl "no such table in source_db"
      | Some t =>
          match select_table main (tbl_name t) with
          | None => inl ("no such table: " +:+ tbl_name t)
          | Some t0 =>
              let fresh := filter (λ r, row_id r ∉ ids t0) (tbl_rows t) in
              if bool_decide (sql = Sql.insert_select (tbl_name t)) then
                if bool_decide (fresh = tbl_rows t)
                then inr (add_rows (tbl_name t) fresh main, length fresh)
                else inl ("UNIQUE constraint failed: " +:+ tbl_name t +:+ ".id")
              else inr (add_rows (tbl_name t) fresh main, length fresh)
          end
      end
  end.

Definition count (sql : string) (c : catalog) : string + nat :=
  match find (λ t, bool_decide (sql = Sql.count_rows (tbl_name t))) c with
  | Some t => inr (length (tbl_rows t))
  | None => inl "no such table"
  end.

(** An environment without I/O failures, and with the engine above. *)
Definition env (known : catalog) (now : Z) : Platform.env := {|
  Date_now := now;
  size_mb := λ _, "0.00";
  copy_error := λ _ _, None;
  unlink_error := λ _, None;
  open_error := λ _ _, None;
  sql_exec := exec known;
  sql_run := run;
  sql_count := count
|}.

Definition data_table (name : string) (rows : list row) : table :=
  Table "table" name (Some ("CREATE TABLE " +:+ name +:+ " (id INTEGER PRIMARY KEY, data TEXT)")) rows.

Definition north : catalog :=
  [ Table "table" "gpkg_contents" (Some "CREATE TABLE gpkg_contents (table_name TEXT)") [];
    data_table "roads" [Row 1 "a"; Row 2 "b"];
    data_table "rivers" [Row 1 "r"] ].

Definition south : catalog :=
  [ Table "table" "gpkg_contents" (Some "CREATE TABLE gpkg_contents (table_name TEXT)") [];
    data_table "lakes" [Row 1 "l"];
    data_table "roads" [Row 2 "x"; Row 3 "c"];
    data_table "rivers" [Row 5 "s"; Row 6 "t"] ].

Definition disk : gmap string file :=
  {[ "north.gpkg" := Database north; "south.gpkg" := Database south ]}.

(** A source with a table entry that has no create statement. *)
Definition south_orphan : catalog :=
  [ data_table "lakes" [Row 1 "l"];
    Table "table" "orphan" None [Row 1 "o"];
    data_table "rivers" [Row 5 "s"; Row 6 "t"] ].

Definition disk_orphan : gmap string file :=
  {[ "north.gpkg" := Database north; "south.gpkg" := Database south_orphan ]}.

(** The engine knowing the tables of [south], at some time of day. *)
Definition engine : Platform.env := env south 1700000000000.

(** A layer with its spatial index: the index and its shadow tables are
    catalog entries of type [table]. *)
Definition indexed (lo : Z) : catalog :=
  [ Table "table" "gpkg_contents" (Some "CREATE TABLE gpkg_contents (table_name TEXT)") [];
    data_table "roads" [Row lo "a"; Row (lo + 1) "b"];
    Table "table" "rtree_roads_geom"
      (Some "CREATE VIRTUAL TABLE rtree_roads_geom USING rtree(id, minx, maxx, miny, maxy)")
      [];
    data_table "rtree_roads_geom_rowid" [Row lo "n1"; Row (lo + 1) "n1"];
    data_table "rtree_roads_geom_node" [Row 1 "n1"] ].

Definition indexed_disk : gmap string file :=
  {[ Part001.file1 := Database (indexed 1); Part001.file2 := Database (indexed 11) ]}.

(** The second fixed-path script's inputs, and an earlier result at its
    output path. *)
Definition syria_disk : gmap string file :=
  {[ Part002.file1 := Database north; Part002.file2 := Database south;
     Part002.output := Database [] ]}.

Definition lakes (lo : Z) : catalog :=
  [ data_table "lakes" [Row lo "l"] ].

(** Two sources whose names differ in one quote character. *)
Definition quoted_disk : gmap string file :=
  {[ "north.gpkg" := Database north;
     "a''b.gpkg" := Database (lakes 1);
     "a'b.gpkg" := Database (lakes 2) ]}.

Definition apostrophe_disk : gmap string file :=
  {[ "north.gpkg" := Database north; "it's.gpkg" := Database south ]}.

End Toy.

(* ------------------------------------------------------------------ *)
(** ** The design document's own wording *)

Module Design.
Import Platform.

(** An input's file name "without its container-format extension": the
    base name with its final extension cut off. *)
Definition stem (path : string) : string :=
  let base := JS.basename path in
  JS.str (take (String.length base - String.length (JS.extname base))
            (JS.chars base)).

(** [merged_<basename(file1)>_<basename(file2)>.<ext>] *)
Definition derived_output (file1 file2 : string) : string :=
  "merged_" +:+ stem file1 +:+ "_" +:+ stem file2 +:+ ".gpkg".

(** A block of script runs to its end. *)
Definition completes {A} (s : step A) : Prop := ∃ a, out s = Ret a.

(** "Exit codes: 0 success; 1 user error (missing input file(s)); 2 any
    other failure", for a run whose [try] block ended in [s] and whose
    exit code is [code]. *)
Definition two_tier_exit_codes {A} (input_missing : Prop) (s : step A)
    (code : Z) : Prop :=
  (code = 0%Z ↔ completes s)
  ∧ (code = 1%Z ↔ input_missing)
  ∧ (code = 2%Z ↔ ¬ completes s ∧ ¬ input_missing).

(** "Detach must execute on every exit path once attach has succeeded",
    and the handles are "closed unconditionally at the end of the run". *)
Definition scoped_resources (attach : string) (r : result) : Prop :=
  (Exec targetDb attach true ∈ events r →
   ∃ done, Exec targetDb Sql.detach done ∈ events r)
  ∧ (∀ h path, NewDatabase h path true ∈ events r → Close h ∈ events r).

(** Merging went through the whole list: every table was looked up in
    the target (the first step of processing it), and detach followed. *)
Definition merges_every_table (tables : list string) (evs : list event) : Prop :=
  (∀ t, t ∈ tables → ∃ a, Select targetDb Sql.table_exists (Some t) a ∈ evs)
  ∧ ∃ done, Exec targetDb Sql.detach done ∈ evs.

(** "Partial-failure isolation": when the [INSERT] for one of the listed
    source tables fails, the run still goes through the whole list. *)
Definition partial_failure_isolation (r : result) : Prop :=
  ∀ tables t,
    Select sourceDb Sql.list_data_tables None (All tables) ∈ events r →
    Run targetDb (Sql.insert_select t) None ∈ events r →
    merges_every_table tables (events r).

(** "A missing create statement for one table is a skip-and-continue
    condition": when the source has no usable create statement for one
    of the listed tables, the run still goes through the whole list. *)
Definition skips_missing_schema (r : result) : Prop :=
  ∀ tables t row,
    Select sourceDb Sql.list_data_tables None (All tables) ∈ events r →
    Select sourceDb Sql.table_sql (Some t) (Got row) ∈ events r →
    JS.truthy (row ≫= id) = false →
    merges_every_table tables (events r).

(** "If the output path already exists, the orchestrator must not
    overwrite": the file at [output] is after the run what it was before. *)
Definition no_overwrite (output : string) (files : gmap string file)
    (r : result) : Prop :=
  is_Some (files !! output) → final_fs r !! output = files !! output.

(** "For any path containing a single-quote character the run fails with
    exit code 2 even though both input files exist." *)
Definition quote_breaks_attach
    (run : list string → gmap string file → result) : Prop :=
  ∀ file1 file2 files,
    "'"%char ∈ JS.chars file2 →
    is_Some (files !! file1) → is_Some (files !! file2) →
    exit_code (run [file1; file2] files) = 2%Z.

Definition reserved (name : string) : Prop :=
  String.prefix "sqlite_" name = true
  ∨ String.prefix "gpkg_" name = true
  ∨ String.prefix "rtree_" name = true.

End Design.

(* ------------------------------------------------------------------ *)
(** ** Properties of a piece of script *)

Module Logic.
Import Platform.

(** [tame W P R m]: from any state, [m] makes only calls of class [P],
    changes no file outside [W], never exits the process, throws only
    errors without a [status], and returns only values in [R]. *)
Definition tame {A} (W : string → Prop) (P : event → bool) (R : A → Prop)
    (m : M A) : Prop :=
  ∀ w,
    Forall (λ e, P e = true) (calls (m w))
    ∧ (∀ p, ¬ W p → fs (after (m w)) !! p = fs w !! p)
    ∧ match out (m w) with
      | Ret a => R a
      | Throw e => err_status e = None
      | Exit _ => False
      end.

Definition anything {A} : A → Prop := λ _, True.

(** Classes of calls. *)
Definition is_failed_run (e : event) : bool :=
  match e with Run _ _ None => true | _ => false end.

Definition is_run (e : event) : bool :=
  match e with Run _ _ _ => true | _ => false end.

Definition is_close (e : event) : bool :=
  match e with Close _ => true | _ => false end.

Definition is_log_error (e : event) : bool :=
  match e with LogError _ => true | _ => false end.

(** A listing ([.all()]) on the source connection. *)
Definition is_source_listing (e : event) : bool :=
  match e with Select sourceDb _ None _ => true | _ => false end.

(** A lookup on the source connection that found no usable text. *)
Definition is_missing_sql (e : event) : bool :=
  match e with
  | Select sourceDb _ (Some _) (Got row) => negb (JS.truthy (row ≫= id))
  | _ => false
  end.

(** The rows the [INSERT] statements of a run added. *)
Definition merged_rows (evs : list event) : nat :=
  foldr (λ e n, match e with Run _ _ (Some k) => (k + n)%nat | _ => n end) 0%nat evs.

(** Calls a run makes while nothing has gone wrong: no failed [INSERT],
    no error report, no source lookup without a usable text. *)
Definition quiet (e : event) : bool :=
  negb (is_failed_run e || is_log_error e || is_missing_sql e).

(** [guarded P G s]: if [s] made a call outside the class [P], then [G s]. *)
Definition guarded {A} (P : event → bool) (G : step A → Prop) (s : step A) : Prop :=
  (∃ e, e ∈ calls s ∧ P e = false) → G s.

(** [ensures G s]: if [s] ran to its end, then [G s]. *)
Definition ensures {A} (G : step A → Prop) (s : step A) : Prop :=
  Design.completes s → G s.

(** The block threw, and the last thing it did was to report the error
    of its last call ([ev]); all that came before was quiet. *)
Definition stopped {A} (s : step A) : Prop :=
  (∃ e, out s = Throw e ∧ err_status e = None)
  ∧ ∃ msg ev before,
      rev (calls s) = LogError msg :: ev :: before
      ∧ Forall (λ e, quiet e = true) before
      ∧ is_log_error ev = false.

Definition is_exists_check (e : event) : bool :=
  match e with ExistsSync _ _ => true | _ => false end.

(** A lookup ([.get(name)]) on the source connection. *)
Definition is_source_lookup (e : event) : bool :=
  match e with Select sourceDb _ (Some _) _ => true | _ => false end.

(** Calls made before the loop over the source tables. *)
Definition before_loop (e : event) : bool :=
  negb (is_run e || is_source_lookup e).

(** Calls made before the source tables are listed. *)
Definition before_listing (e : event) : bool :=
  before_loop e && negb (is_source_listing e).

(** If the block listed the source tables and got into its loop, it went
    through the whole list. *)
Definition isolates {A} (s : step A) : Prop :=
  ∀ tables,
    Select sourceDb Sql.list_data_tables None (All tables) ∈ calls s →
    (∃ e, e ∈ calls s ∧ before_loop e = false) →
    Design.merges_every_table tables (calls s).

Definition not_close (e : event) : bool := negb (is_close e).

Definition not_run (e : event) : bool := negb (is_run e).

Definition not_source_listing (e : event) : bool := negb (is_source_listing e).

(** Not an [exec] that went through. *)
Definition not_executed (e : event) : bool :=
  match e with Exec _ _ true => false | _ => true end.

(** Not a listing ([.all()]) with another text than [getDataTables]'s. *)
Definition data_listing (e : event) : bool :=
  match e with
  | Select _ sql None _ => bool_decide (sql = Sql.list_data_tables)
  | _ => true
  end.

(** The name [src/merge.ts] gives its output when the requested one
    exists. *)
Definition timestamped (E : env) (outputFilename : string) : string :=
  JS.replace (JS.extname outputFilename) "" outputFilename
    +:+ "_" +:+ pretty (Date_now E) +:+ JS.extname outputFilename.

(** Calls that copy to, or open as target, no other path than [final], and
    that delete nothing. *)
Definition writes_to (final : string) (e : event) : bool :=
  match e with
  | CopyFileSync _ dst _ => bool_decide (dst = final)
  | NewDatabase targetDb path _ => bool_decide (path = final)
  | UnlinkSync _ _ => false
  | _ => true
  end.

(** The block left the file [f] at [out], and made only calls of class [P]. *)
Definition keeps {A} (out : string) (f : file) (P : event → bool)
    (s : step A) : Prop :=
  fs (after s) !! out = Some f ∧ Forall (λ e, P e = true) (calls s).

(** The engine refuses the statement, whatever the connection. *)
Definition rejects (E : env) (sql : string) : Prop :=
  ∀ files main attached, ∃ msg, sql_exec E sql files main attached = inl msg.

Definition any_path : string → Prop := λ _, True.
Definition any_event : event → bool := λ _, true.

(** [calm m]: [m] never exits the process and throws only errors without
    a [status]. *)
Definition calm {A} (m : M A) : Prop := tame any_path any_event anything m.

End Logic.

(* ------------------------------------------------------------------ *)
(** ** Further notions about names, calls and runs *)

Module Runs.
Import Sqlite Platform Logic.

(** The paths [validateFilesExist] names in its message: the missing ones,
    an empty path being dropped by [filter(Boolean)]. *)
Definition reported_missing (files : gmap string file) (paths : list string)
    : list string :=
  filter (λ p, p ≠ "" ∧ files !! p = None) paths.

(** [s.includes(pat)] *)
Fixpoint includes (pat s : string) : bool :=
  if String.prefix pat s then true
  else match s with
       | EmptyString => false
       | String _ s' => includes pat s'
       end.

(** The name the earlier script gives its output when the requested one
    exists. *)
Definition suffixed (E : env) (output : string) : string :=
  JS.replace ".gpkg" ("_" +:+ pretty (Date_now E) +:+ ".gpkg") output.

(** The path a run of [src/merge.ts], or of the earlier script, writes its
    output to, given the files it starts from. *)
Definition merge_ts_final (E : env) (files : gmap string file)
    (output : string) : string :=
  if bool_decide (is_Some (files !! output)) then timestamped E output else output.

Definition part_000_final (E : env) (files : gmap string file)
    (output : string) : string :=
  if bool_decide (is_Some (files !! output)) then suffixed E output else output.


(** The block left a database at [path]. *)
Definition leaves_database {A} (path : string) (s : step A) : Prop :=
  ∃ c, fs (after s) !! path = Some (Database c).

(** Every table of the list got its rows inserted. *)
Definition inserted_all (tables : list string) (evs : list event) : Prop :=
  ∀ t, t ∈ tables → ∃ k, Run targetDb (Sql.insert_select t) (Some k) ∈ evs.

(** If the block listed the source tables, every table listed got its rows
    inserted. *)
Definition inserts_listed {A} (s : step A) : Prop :=
  ∀ tables,
    Select sourceDb Sql.list_data_tables None (All tables) ∈ calls s →
    inserted_all tables (calls s).

(** [name] is longer than [stem] and starts with it, in any letter case. *)
Definition ci_starts (stem name : string) : bool :=
  JS.ci_list_eqb (JS.chars stem)
    (take (String.length stem) (JS.chars name))
  && (String.length stem <? String.length name)%nat.


(** The attach statement went through before any [INSERT] was run. *)
Definition attached_first (file2 : string) (evs : list event) : Prop :=
  ∃ pre post,
    evs = pre ++ Exec targetDb (Sql.attach file2) true :: post
    ∧ Forall (λ e, not_run e = true) pre.

(** Not a [COUNT] query that threw. *)
Definition counted (e : event) : bool :=
  match e with Count _ _ None => false | _ => true end.

(** The block threw at its last call, a [COUNT] query; the calls before it
    were none of them a failed [COUNT]. *)
Definition halted {A} (s : step A) : Prop :=
  (∃ e, out s = Throw e ∧ err_status e = None)
  ∧ ∃ ev before,
      calls s = before ++ [ev]
      ∧ Forall (λ e, counted e = true) before
      ∧ counted ev = false.

End Runs.

(** ** More files and engines to run the scripts on *)

Module Samples.
Import Sqlite Platform.

(** A requested output whose name has no [.gpkg] in it, already there. *)
Definition plain_disk : gmap string file :=
  {[ "north.gpkg" := Database Toy.north; "south.gpkg" := Database Toy.south;
     "merged.db" := Database [] ]}.

(** A source that shares no table with [north.gpkg]. *)
Definition lakes_disk : gmap string file :=
  {[ "north.gpkg" := Database Toy.north; "lakes.gpkg" := Database (Toy.lakes 1) ]}.

(** An engine on which every [COUNT] query throws. *)
Definition uncountable : env := {|
  Date_now := 0;
  size_mb := λ _, "0.00";
  copy_error := λ _ _, None;
  unlink_error := λ _, None;
  open_error := λ _ _, None;
  sql_exec := Toy.exec Toy.south;
  sql_run := Toy.run;
  sql_count := λ _ _, inl "syntax error"
|}.

End Samples.

(* ================================================================== *)
(** * Proofs *)

Import Sqlite Platform Logic.

(** ** Output names *)

Lemma createOutputFilename_custom file1 file2 o :
  o ≠ "" → MergeTs.createOutputFilename file1 file2 (Some o) = o.
Proof.
  intros Ho. unfold MergeTs.createOutputFilename, JS.truthy.
  rewrite bool_decide_eq_false_2 by done. reflexivity.
Qed.

(** C8. With the output argument omitted, [src/merge.ts] removes the first
    occurrence of the extension text from the base name, not the final
    extension: for [./data/north.gpkg.v2.gpkg] it derives
    [merged_north.v2.gpkg_south.gpkg], where the design document's
    [merged_<name1>_<name2>.gpkg] is [merged_north.gpkg.v2_south.gpkg],
    the name the earlier script derives. *)
Theorem merge_ts_getName_cuts_first_occurrence :
  let file1 := "./data/north.gpkg.v2.gpkg" in
  let file2 := "./data/south.gpkg" in
  MergeTs.createOutputFilename file1 file2 None = "merged_north.v2.gpkg_south.gpkg"
  ∧ Design.derived_output file1 file2 = "merged_north.gpkg.v2_south.gpkg"
  ∧ Part000.createOutputFilename file1 file2 None = Design.derived_output file1 file2.
Proof. vm_compute. repeat split. Qed.

(** ** The catalog listing *)

Lemma like_chars_percent s : like_chars ["%"%char] s = true.
Proof.
  induction s as [|c s IH]; [reflexivity|].
  simpl in *. exact IH.
Qed.

Lemma like_chars_literal p pat c s :
  p ≠ "%"%char → p ≠ "_"%char →
  like_chars (p :: pat) (c :: s) = JS.ci_eqb p c && like_chars pat s.
Proof.
  intros H1 H2. simpl.
  rewrite (bool_decide_eq_false_2 _ H1), (bool_decide_eq_false_2 _ H2).
  reflexivity.
Qed.

Lemma like_chars_underscore pat c s :
  like_chars ("_"%char :: pat) (c :: s) = like_chars pat s.
Proof. reflexivity. Qed.

Lemma ci_eqb_refl c : JS.ci_eqb c c = true.
Proof. unfold JS.ci_eqb. apply bool_decide_eq_true_2. reflexivity. Qed.

Lemma prefix_cons a s1 s2 :
  String.prefix (String a s1) s2 = true →
  ∃ s2', s2 = String a s2' ∧ String.prefix s1 s2' = true.
Proof.
  destruct s2 as [|b s2]; [discriminate|].
  change (String.prefix (String a s1) (String b s2))
    with (if ascii_dec a b then String.prefix s1 s2 else false).
  destruct (ascii_dec a b) as [<-|]; [eauto|discriminate].
Qed.

Ltac split_prefix H name :=
  repeat (apply prefix_cons in H as (? & -> & H)).

Ltac like_prefix :=
  unfold like; simpl JS.chars;
  repeat (rewrite like_chars_literal by discriminate;
          rewrite ci_eqb_refl, andb_true_l);
  rewrite like_chars_underscore; apply like_chars_percent.

Lemma like_sqlite name :
  String.prefix "sqlite_" name = true → like name "sqlite_%" = true.
Proof. intros H. split_prefix H name. like_prefix. Qed.

Lemma like_gpkg name :
  String.prefix "gpkg_" name = true → like name "gpkg_%" = true.
Proof. intros H. split_prefix H name. like_prefix. Qed.

Lemma like_rtree name :
  String.prefix "rtree_" name = true → like name "rtree_%" = true.
Proof. intros H. split_prefix H name. like_prefix. Qed.

(** The listing of [getDataTables] returns no name of a reserved
    namespace. *)
Lemma select_data_tables_not_reserved (c : catalog) (name : string) :
  name ∈ select_data_tables c → ¬ Design.reserved name.
Proof.
  unfold select_data_tables. intros Hin.
  apply list_elem_of_fmap in Hin as (t & -> & Hin).
  apply list_elem_of_filter in Hin as [Hf _].
  apply andb_prop in Hf as [Hf H3]. apply andb_prop in Hf as [Hf H2].
  apply andb_prop in Hf as [_ H1].
  intros [H|[H|H]].
  - apply like_sqlite in H. rewrite H in H1. discriminate.
  - apply like_gpkg in H. rewrite H in H2. discriminate.
  - apply like_rtree in H. rewrite H in H3. discriminate.
Qed.

(** ** Running a script step by step *)

Lemma bind_eq {A B} (m : M A) (k : A → M B) w : (m ≫= k) w = then_ (m w) k.
Proof. reflexivity. Qed.

Lemma try_catch_eq {A} (m : M A) h w : try_catch m h w = catch_ (m w) h.
Proof. reflexivity. Qed.

Lemma mret_eq {A} (a : A) w : (mret a : M A) w = Step (Ret a) w [].
Proof. reflexivity. Qed.

Lemma throw_eq {A} e w : (throw e : M A) w = Step (Throw e) w [].
Proof. reflexivity. Qed.

Lemma call_eq {A} e (o : outcome A) w : call e o w = Step o w [e].
Proof. reflexivity. Qed.

Lemma console_log_eq msg w : console_log msg w = Step (Ret ()) w [Log msg].
Proof. reflexivity. Qed.

Lemma console_error_eq msg w : console_error msg w = Step (Ret ()) w [LogError msg].
Proof. reflexivity. Qed.

Lemma process_exit_eq {A} code w :
  process_exit (A:=A) code w = Step (Exit code) w [ProcessExit code].
Proof. reflexivity. Qed.

Lemma db_close_eq db w : db_close db w = Step (Ret ()) w [Close (conn db)].
Proof. reflexivity. Qed.

Lemma existsSync_eq path w :
  existsSync path w =
  match fs w !! path with
  | Some _ => Step (Ret true) w [ExistsSync path true]
  | None => Step (Ret false) w [ExistsSync path false]
  end.
Proof. unfold existsSync. destruct (fs w !! path); reflexivity. Qed.

Lemma then_prepend {A B} evs (s : step A) (k : A → M B) :
  then_ (prepend evs s) k = prepend evs (then_ s k).
Proof.
  destruct s as [[a|e|c] w evs']; unfold then_, prepend; simpl; [|reflexivity..].
  rewrite app_assoc. reflexivity.
Qed.

Lemma catch_prepend {A} evs (s : step A) h :
  catch_ (prepend evs s) h = prepend evs (catch_ s h).
Proof.
  destruct s as [[a|e|c] w evs']; unfold catch_, prepend; simpl;
    [reflexivity| |reflexivity].
  rewrite app_assoc. reflexivity.
Qed.

Lemma prepend_prepend {A} evs1 evs2 (s : step A) :
  prepend evs1 (prepend evs2 s) = prepend (evs1 ++ evs2) s.
Proof. unfold prepend. simpl. rewrite app_assoc. reflexivity. Qed.

Lemma prepend_Step {A} evs (o : outcome A) w evs' :
  prepend evs (Step o w evs') = Step o w (evs ++ evs').
Proof. reflexivity. Qed.

Lemma db_get_eq db sql param q w :
  db_get db sql param q w =
  match fs w !! conn_path db with
  | Some (Database c) =>
      Step (Ret (q c)) w [Select (conn db) sql (Some param) (Got (q c))]
  | _ => Step (Throw not_a_database) w [Select (conn db) sql (Some param) Threw]
  end.
Proof. reflexivity. Qed.

Lemma db_exec_eq E db sql w :
  db_exec E db sql w =
  match fs w !! conn_path db with
  | Some (Database c) =>
      match sql_exec E sql (fs w) c (source_db w) with
      | inr (c', a') =>
          Step (Ret ()) (World (<[conn_path db := Database c']> (fs w)) a')
            [Exec (conn db) sql true]
      | inl msg => Step (Throw (sqlite_error msg)) w [Exec (conn db) sql false]
      end
  | _ => Step (Throw not_a_database) w [Exec (conn db) sql false]
  end.
Proof. reflexivity. Qed.

Lemma db_run_eq E db sql w :
  db_run E db sql w =
  match fs w !! conn_path db with
  | Some (Database c) =>
      match sql_run E sql c (source_db w) with
      | inr (c', n) =>
          Step (Ret n)
            (World (<[conn_path db := Database c']> (fs w)) (source_db w))
            [Run (conn db) sql (Some n)]
      | inl msg => Step (Throw (sqlite_error msg)) w [Run (conn db) sql None]
      end
  | _ => Step (Throw not_a_database) w [Run (conn db) sql None]
  end.
Proof. reflexivity. Qed.

Ltac run_rewrite :=
  rewrite ?bind_eq, ?try_catch_eq, ?mret_eq, ?throw_eq, ?call_eq,
    ?console_log_eq, ?console_error_eq, ?process_exit_eq, ?db_close_eq,
    ?existsSync_eq, ?db_get_eq, ?db_exec_eq, ?db_run_eq,
    ?then_prepend, ?catch_prepend, ?prepend_prepend, ?prepend_Step.

Ltac run_simpl :=
  cbn [then_ catch_ out after calls fs source_db conn conn_path app
       negb orb andb default from_option id fst snd].

Ltac use_lookups :=
  rewrite ?lookup_insert_eq;
  repeat match goal with
         | H : ?m !! ?p = _ |- context [?m !! ?p] => rewrite H
         | H : sql_exec _ _ _ _ _ = _ |- _ => rewrite H
         | H : sql_run _ _ _ _ = _ |- _ => rewrite H
         end.

(** Splits on what the next call of a run finds. *)
Ltac split_stuck :=
  match goal with
  | |- context [match fs ?w !! ?p with _ => _ end] =>
      let H := fresh "Hfile" in destruct (fs w !! p) as [[?|]|] eqn:H
  | |- context [match sql_exec ?E ?a ?b ?c ?d with _ => _ end] =>
      let H := fresh "Hexec" in destruct (sql_exec E a b c d) as [?|[? ?]] eqn:H
  | |- context [match sql_run ?E ?a ?b ?c with _ => _ end] =>
      let H := fresh "Hrun" in destruct (sql_run E a b c) as [?|[? ?]] eqn:H
  | |- context [if ?b then _ else _] =>
      let H := fresh "Hif" in destruct b eqn:H
  end.

Ltac run_steps :=
  repeat (progress (run_rewrite; run_simpl; use_lookups)).

(** ** Rules for [tame] *)

Section tame_rules.
Context (E : env) (W : string → Prop) (P : event → bool).

Lemma tame_ret {A} (R : A → Prop) a : R a → tame W P R (mret a).
Proof. intros HR w. rewrite mret_eq. simpl. auto. Qed.

Lemma tame_throw {A} (R : A → Prop) e :
  err_status e = None → tame W P R (throw e).
Proof. intros He w. rewrite throw_eq. simpl. auto. Qed.

Lemma tame_call {A} (R : A → Prop) e (a : A) :
  P e = true → R a → tame W P R (call e (Ret a)).
Proof. intros He HR w. rewrite call_eq. simpl. auto. Qed.

Lemma tame_weaken {A} (R R' : A → Prop) m :
  tame W P R m → (∀ a, R a → R' a) → tame W P R' m.
Proof.
  intros Hm HR w. destruct (Hm w) as (Hc & Hf & Ho).
  split; [exact Hc|]. split; [exact Hf|].
  destruct (out (m w)); auto.
Qed.

Lemma tame_bind {A B} (R1 : A → Prop) (R : B → Prop) (m : M A) (k : A → M B) :
  tame W P R1 m → (∀ a, R1 a → tame W P R (k a)) → tame W P R (m ≫= k).
Proof.
  intros Hm Hk w. rewrite bind_eq.
  destruct (Hm w) as (Hc & Hf & Ho). unfold then_.
  destruct (out (m w)) as [a|e|c]; simpl; [|auto..].
  destruct (Hk a Ho (after (m w))) as (Hc' & Hf' & Ho').
  split; [apply Forall_app; auto|]. split; [|exact Ho'].
  intros p Hp. rewrite Hf', Hf by exact Hp. reflexivity.
Qed.

Lemma tame_try_catch {A} (R : A → Prop) (m : M A) h :
  tame W P R m → (∀ e, err_status e = None → tame W P R (h e)) →
  tame W P R (try_catch m h).
Proof.
  intros Hm Hh w. rewrite try_catch_eq.
  destruct (Hm w) as (Hc & Hf & Ho). unfold catch_.
  destruct (out (m w)) as [a|e|c] eqn:Hout; simpl; rewrite ?Hout; [auto| |auto].
  destruct (Hh e Ho (after (m w))) as (Hc' & Hf' & Ho').
  split; [apply Forall_app; auto|]. split; [|exact Ho'].
  intros p Hp. rewrite Hf', Hf by exact Hp. reflexivity.
Qed.

Lemma tame_for_of {A S} (l : list A) (s : S) (body : A → S → M S) :
  (∀ x s, tame W P anything (body x s)) → tame W P anything (for_of l s body).
Proof.
  intros Hbody. revert s. induction l as [|x l IH]; intros s; simpl.
  - apply tame_ret. exact I.
  - apply (tame_bind anything); [apply Hbody|]. intros s' _. apply IH.
Qed.

Lemma tame_console_log msg :
  P (Log msg) = true → tame W P anything (console_log msg).
Proof. intros H. apply tame_call; [exact H|exact I]. Qed.

Lemma tame_console_error msg :
  P (LogError msg) = true → tame W P anything (console_error msg).
Proof. intros H. apply tame_call; [exact H|exact I]. Qed.

Lemma tame_db_close db :
  P (Close (conn db)) = true → tame W P anything (db_close db).
Proof. intros H. apply tame_call; [exact H|exact I]. Qed.

Lemma tame_existsSync path :
  (∀ b, P (ExistsSync path b) = true) → tame W P anything (existsSync path).
Proof.
  intros H w. rewrite existsSync_eq.
  destruct (fs w !! path); simpl; repeat split; auto.
Qed.

Lemma tame_statSync path :
  (∀ b, P (StatSync path b) = true) → tame W P anything (statSync path).
Proof.
  intros H w. unfold statSync.
  destruct (fs w !! path); rewrite call_eq; simpl; repeat split; auto.
Qed.

Lemma tame_copyFileSync src dst :
  W dst → (∀ b, P (CopyFileSync src dst b) = true) →
  tame W P anything (copyFileSync E src dst).
Proof.
  intros HW H w. unfold copyFileSync.
  destruct (fs w !! src); [destruct (copy_error E src dst)|];
    rewrite ?call_eq; simpl; repeat split; auto.
  intros p Hp. apply lookup_insert_ne. intros ->. exact (Hp HW).
Qed.

Lemma tame_unlinkSync path :
  W path → (∀ b, P (UnlinkSync path b) = true) →
  tame W P anything (unlinkSync E path).
Proof.
  intros HW H w. unfold unlinkSync.
  destruct (fs w !! path); [destruct (unlink_error E path)|];
    rewrite ?call_eq; simpl; repeat split; auto.
  intros p Hp. apply lookup_delete_ne. intros ->. exact (Hp HW).
Qed.

Lemma tame_new_Database h path readonly :
  readonly = true ∨ W path → (∀ b, P (NewDatabase h path b) = true) →
  tame W P (eq (Connection h path)) (new_Database E h path readonly).
Proof.
  intros HW H w. unfold new_Database.
  destruct (open_error E path readonly); [|destruct (fs w !! path) eqn:Hp];
    [| |destruct readonly eqn:Hro]; rewrite ?call_eq; simpl; repeat split; auto.
  intros p Hne. apply lookup_insert_ne. intros ->.
  destruct HW as [HW|HW]; [discriminate|exact (Hne HW)].
Qed.

Lemma tame_db_all db sql q :
  (∀ a, P (Select (conn db) sql None a) = true) →
  tame W P anything (db_all db sql q).
Proof.
  intros H w. unfold db_all.
  destruct (fs w !! conn_path db) as [[c|]|]; rewrite call_eq; simpl;
    repeat split; auto.
Qed.

Lemma tame_db_get db sql param q :
  (∀ a, P (Select (conn db) sql (Some param) a) = true) →
  tame W P anything (db_get db sql param q).
Proof.
  intros H w. unfold db_get.
  destruct (fs w !! conn_path db) as [[c|]|]; rewrite call_eq; simpl;
    repeat split; auto.
Qed.

Lemma tame_db_exec db sql :
  W (conn_path db) → (∀ b, P (Exec (conn db) sql b) = true) →
  tame W P anything (db_exec E db sql).
Proof.
  intros HW H w. unfold db_exec.
  destruct (fs w !! conn_path db) as [[c|]|];
    [destruct (sql_exec E sql (fs w) c (source_db w)) as [msg|[c' a']]| |];
    rewrite ?call_eq; simpl; repeat split; auto.
  intros p Hp. apply lookup_insert_ne. intros Heq. apply Hp.
  rewrite <- Heq. exact HW.
Qed.

Lemma tame_db_run db sql :
  W (conn_path db) → (∀ n, P (Run (conn db) sql n) = true) →
  tame W P anything (db_run E db sql).
Proof.
  intros HW H w. unfold db_run.
  destruct (fs w !! conn_path db) as [[c|]|];
    [destruct (sql_run E sql c (source_db w)) as [msg|[c' n]]| |];
    rewrite ?call_eq; simpl; repeat split; auto.
  intros p Hp. apply lookup_insert_ne. intros Heq. apply Hp.
  rewrite <- Heq. exact HW.
Qed.

Lemma tame_db_count db sql :
  (∀ n, P (Count (conn db) sql n) = true) →
  tame W P anything (db_count E db sql).
Proof.
  intros H w. unfold db_count.
  destruct (fs w !! conn_path db) as [[c|]|];
    [destruct (sql_count E sql c) as [msg|n]| |];
    rewrite ?call_eq; simpl; repeat split; auto.
Qed.

End tame_rules.

(** Follows the structure of a script, leaving the side conditions on its
    calls. *)
Ltac tame_step :=
  lazymatch goal with
  | |- tame _ _ _ (mbind _ _) => eapply tame_bind; [|intros ? ?]
  | |- tame _ _ _ (try_catch _ _) => apply tame_try_catch; [|intros ? ?]
  | |- tame _ _ _ (for_of _ _ _) => apply tame_for_of; intros ? ?
  | |- tame _ _ _ (mret _) =>
      first [apply (tame_ret _ _ anything); exact I | apply tame_ret]
  | |- tame _ _ _ (throw _) => apply tame_throw
  | |- tame _ _ _ (console_log _) => apply tame_console_log
  | |- tame _ _ _ (console_error _) => apply tame_console_error
  | |- tame _ _ _ (db_close _) => apply tame_db_close
  | |- tame _ _ _ (existsSync _) => apply tame_existsSync
  | |- tame _ _ _ (statSync _) => apply tame_statSync
  | |- tame _ _ _ (copyFileSync _ _ _) => apply tame_copyFileSync
  | |- tame _ _ _ (unlinkSync _ _) => apply tame_unlinkSync
  | |- tame _ _ _ (new_Database _ _ _ _) =>
      first [apply tame_new_Database
            | eapply tame_weaken; [apply tame_new_Database|intros ? ?; exact I]]
  | |- tame _ _ _ (db_all _ _ _) => apply tame_db_all
  | |- tame _ _ _ (db_get _ _ _ _) => apply tame_db_get
  | |- tame _ _ _ (db_exec _ _ _) => apply tame_db_exec
  | |- tame _ _ _ (db_run _ _ _) => apply tame_db_run
  | |- tame _ _ _ (db_count _ _ _) => apply tame_db_count
  | |- tame _ _ _ (if ?b then _ else _) => destruct b
  | |- tame _ _ _ (let '(_, _) := ?x in _) => destruct x
  end.

Ltac tame_auto :=
  repeat (tame_step; subst; simpl conn in *; simpl conn_path in * );
  try assumption; try (intros; reflexivity); try exact I;
  try (left; reflexivity); try (right; first [exact I | reflexivity]).

(** ** Exceptions the scripts can raise after validation *)

Ltac unfold_merge_ts :=
  unfold MergeTs.mergeInto, MergeTs.finish, MergeTs.mergeTables,
    MergeTs.getDataTables, MergeTs.merge_table, MergeTs.processTable,
    MergeTs.createTableIfNotExists, MergeTs.insertTableData, MergeTs.tableExists,
    MergeTs.finalOutputFilename, MergeTs.logFileSizes.

Ltac unfold_part_000 :=
  unfold Part000.mergeInto, Part000.finish, Part000.mergeTables,
    Part000.logCounts, Part000.getDataTables, Part000.processTable,
    Part000.createTableIfNotExists, Part000.insertTableData, Part000.tableExists,
    Part000.copyBase.

Lemma merge_ts_validated_calm E file1 file2 output :
  calm (MergeTs.validated E file1 file2 output).
Proof. unfold calm, MergeTs.validated. unfold_merge_ts. tame_auto; right; exact I. Qed.

Lemma part_000_validated_calm E file1 file2 output :
  calm (Part000.validated E file1 file2 output).
Proof.
  unfold calm, Part000.validated. unfold_part_000. cbv zeta.
  tame_auto; right; exact I.
Qed.

Lemma part_001_merge_calm E : calm (Part001.merge E).
Proof.
  unfold calm, Part001.merge, Part001.listTables, Part001.merge_table.
  tame_auto; right; exact I.
Qed.

Lemma part_002_merge_calm E : calm (Part002.merge E).
Proof.
  unfold calm, Part002.merge, Part002.listTables, Part002.logCounts,
    Part002.merge_table.
  tame_auto; right; exact I.
Qed.

(** ** Too few arguments *)

(** C9. Invoked with fewer than two arguments, [src/merge.ts] and the
    earlier argument-driven script print their usage text and call
    [process.exit(1)], the exit code of a missing input file; these console
    calls are all the run does, and the files are as they were. *)
Theorem usage_exit_code_1 (E : env) (args : list string) (files : gmap string file) :
  (length args < 2)%nat →
  MergeTs.run E args files =
    Result files
      [Log "GeoPackage Merge Tool"; Log MergeTs.usage; ProcessExit 1] 1
  ∧ Part000.run E args files =
    Result files
      [Log "GeoPackage Merge Tool";
       Log (JS.nl +:+ "Usage:");
       Log "  npm run merge <file1> <file2> [output]";
       Log (JS.nl +:+ "Examples:");
       Log "  npm run merge ./data/north.gpkg ./data/south.gpkg";
       Log "  npm run merge ./data/north.gpkg ./data/south.gpkg ./custom_output.gpkg";
       ProcessExit 1] 1.
Proof.
  intros Hlen.
  assert ((length args <? 2)%nat = true) as Hlt by (apply Nat.ltb_lt; exact Hlen).
  unfold MergeTs.run, Part000.run, run_process, MergeTs.main, Part000.main.
  rewrite Hlt. split; run_steps; reflexivity.
Qed.

Lemma usage_exit_code_1_witness :
  MergeTs.run (Toy.env [] 0) ["north.gpkg"] Toy.disk =
    Result Toy.disk
      [Log "GeoPackage Merge Tool"; Log MergeTs.usage; ProcessExit 1] 1.
Proof.
  apply (usage_exit_code_1 (Toy.env [] 0) ["north.gpkg"] Toy.disk). simpl. lia.
Defined.

(** ** The top level of the argument-driven scripts *)

Lemma merge_ts_run_eq E file1 file2 rest files :
  MergeTs.run E (file1 :: file2 :: rest) files =
  result_of
    (prepend [Log "GeoPackage Merge Tool"]
       (catch_
          (MergeTs.merge E file1 file2
             (MergeTs.createOutputFilename file1 file2 (rest !! 0%nat))
             (World files None))
          MergeTs.failed)).
Proof. reflexivity. Qed.

Lemma part_000_run_eq E file1 file2 rest files :
  Part000.run E (file1 :: file2 :: rest) files =
  result_of
    (prepend [Log "GeoPackage Merge Tool"]
       (catch_
          (Part000.merge E file1 file2
             (Part000.createOutputFilename file1 file2 (rest !! 0%nat))
             (World files None))
          Part000.failed)).
Proof. reflexivity. Qed.

Lemma merge_ts_failed_eq e w :
  MergeTs.failed e w =
  Step (Exit (if bool_decide (err_status e = Some BAD_REQUEST) then 1 else 2)%Z) w
    [LogError ("Failed: " +:+ err_message e);
     ProcessExit (if bool_decide (err_status e = Some BAD_REQUEST) then 1 else 2)%Z].
Proof. reflexivity. Qed.

Lemma part_000_failed_eq e w :
  Part000.failed e w =
  Step (Exit (if bool_decide (err_status e = Some BAD_REQUEST) then 1 else 2)%Z) w
    [LogError ("Failed: " +:+ err_message e);
     ProcessExit (if bool_decide (err_status e = Some BAD_REQUEST) then 1 else 2)%Z].
Proof. reflexivity. Qed.

(** The [try] block of [src/merge.ts] when an input is missing. *)
Lemma merge_ts_merge_missing E file1 file2 output w :
  fs w !! file1 = None ∨ fs w !! file2 = None →
  ∃ msg,
    MergeTs.merge E file1 file2 output w =
    Step (Throw (Error "Error" ("Missing file(s): " +:+ msg) (Some BAD_REQUEST))) w
      [ExistsSync file1 (bool_decide (is_Some (fs w !! file1)));
       ExistsSync file2 (bool_decide (is_Some (fs w !! file2)))].
Proof.
  intros Hmissing. unfold MergeTs.merge, MergeTs.validateFilesExist.
  destruct (fs w !! file1) as [f1|] eqn:H1, (fs w !! file2) as [f2|] eqn:H2;
    [destruct Hmissing; discriminate|..];
    run_steps; eexists; reflexivity.
Qed.

(** The [try] block of [src/merge.ts] when both inputs exist. *)
Lemma merge_ts_merge_validated E file1 file2 output w :
  is_Some (fs w !! file1) → is_Some (fs w !! file2) →
  MergeTs.merge E file1 file2 output w =
  prepend [ExistsSync file1 true; ExistsSync file2 true]
    (MergeTs.validated E file1 file2 output w).
Proof.
  intros [f1 H1] [f2 H2]. unfold MergeTs.merge, MergeTs.validateFilesExist.
  rewrite !bind_eq, !existsSync_eq, H1. run_simpl.
  rewrite !bind_eq, !existsSync_eq, H2. run_simpl.
  rewrite mret_eq. run_simpl. rewrite !then_prepend. run_simpl.
  rewrite prepend_prepend. reflexivity.
Qed.

Lemma part_000_missing_found file w :
  is_Some (fs w !! file) →
  Part000.missing file w = Step (Ret ()) w [ExistsSync file true].
Proof.
  intros [f Hf]. unfold Part000.missing.
  rewrite bind_eq, existsSync_eq, Hf. run_simpl. rewrite mret_eq. reflexivity.
Qed.

Lemma part_000_missing_missing file w :
  fs w !! file = None →
  Part000.missing file w =
  Step (Throw (Error "Error" (file +:+ " file missing") (Some BAD_REQUEST))) w
    [ExistsSync file false].
Proof.
  intros Hf. unfold Part000.missing.
  rewrite bind_eq, existsSync_eq, Hf. run_simpl. rewrite throw_eq. reflexivity.
Qed.

(** The [try] block of the earlier script when an input is missing. *)
Lemma part_000_merge_missing E file1 file2 output w :
  fs w !! file1 = None ∨ fs w !! file2 = None →
  ∃ msg evs,
    Part000.merge E file1 file2 output w =
    Step (Throw (Error "Error" msg (Some BAD_REQUEST))) w evs.
Proof.
  intros Hmissing. unfold Part000.merge.
  destruct (fs w !! file1) as [f1|] eqn:H1.
  - destruct Hmissing as [?|H2]; [discriminate|].
    rewrite bind_eq, part_000_missing_found by eauto. run_simpl.
    rewrite bind_eq, part_000_missing_missing by exact H2. run_simpl.
    eexists _, _. reflexivity.
  - rewrite bind_eq, part_000_missing_missing by exact H1. run_simpl.
    eexists _, _. reflexivity.
Qed.

(** The [try] block of the earlier script when both inputs exist. *)
Lemma part_000_merge_validated E file1 file2 output w :
  is_Some (fs w !! file1) → is_Some (fs w !! file2) →
  Part000.merge E file1 file2 output w =
  prepend [ExistsSync file1 true; ExistsSync file2 true]
    (Part000.validated E file1 file2 output w).
Proof.
  intros H1 H2. unfold Part000.merge.
  rewrite bind_eq, part_000_missing_found by exact H1. run_simpl.
  rewrite bind_eq, part_000_missing_found by exact H2. run_simpl.
  rewrite prepend_prepend. reflexivity.
Qed.

(** ** Exit codes *)

Lemma result_of_prepend evs (s : step unit) :
  result_of (prepend evs s) =
  Result (final_fs (result_of s)) (evs ++ events (result_of s))
    (exit_code (result_of s)).
Proof. reflexivity. Qed.

Lemma calm_cases {A} (m : M A) w :
  calm m →
  (∃ a, out (m w) = Ret a) ∨ (∃ e, out (m w) = Throw e ∧ err_status e = None).
Proof.
  intros Hm. destruct (Hm w) as (_ & _ & Ho).
  destruct (out (m w)) as [a|e|c]; [eauto|eauto|contradiction].
Qed.

Lemma two_tier_completed {A} (s : step A) (P : Prop) a :
  out s = Ret a → ¬ P → Design.two_tier_exit_codes P s 0.
Proof.
  intros Ho HP. assert (Design.completes s) as Hc by (exists a; exact Ho).
  split; [|split]; split; try discriminate; try tauto.
Qed.

Lemma two_tier_missing {A} (s : step A) (P : Prop) e :
  out s = Throw e → P → Design.two_tier_exit_codes P s 1.
Proof.
  intros Ho HP.
  assert (¬ Design.completes s) as Hc by (intros [a Ha]; congruence).
  split; [|split]; split; try discriminate; try tauto.
Qed.

Lemma two_tier_failed {A} (s : step A) (P : Prop) e :
  out s = Throw e → ¬ P → Design.two_tier_exit_codes P s 2.
Proof.
  intros Ho HP.
  assert (¬ Design.completes s) as Hc by (intros [a Ha]; congruence).
  split; [|split]; split; try discriminate; try tauto.
Qed.

Lemma not_missing (files : gmap string file) file1 file2 :
  is_Some (files !! file1) → is_Some (files !! file2) →
  ¬ (files !! file1 = None ∨ files !! file2 = None).
Proof. intros [? H1] [? H2] [H|H]; congruence. Qed.

Lemma missing_or_not (files : gmap string file) file1 file2 :
  (files !! file1 = None ∨ files !! file2 = None)
  ∨ (is_Some (files !! file1) ∧ is_Some (files !! file2)).
Proof.
  destruct (files !! file1), (files !! file2); eauto.
Qed.

Lemma merge_ts_exit_codes E file1 file2 rest files :
  Design.two_tier_exit_codes
    (files !! file1 = None ∨ files !! file2 = None)
    (MergeTs.merge E file1 file2
       (MergeTs.createOutputFilename file1 file2 (rest !! 0%nat))
       (World files None))
    (exit_code (MergeTs.run E (file1 :: file2 :: rest) files)).
Proof.
  rewrite merge_ts_run_eq, result_of_prepend. cbn [exit_code].
  set (output := MergeTs.createOutputFilename _ _ _).
  destruct (missing_or_not files file1 file2) as [Hm|[H1 H2]].
  - destruct (merge_ts_merge_missing E file1 file2 output (World files None) Hm)
      as [msg Heq].
    rewrite Heq. unfold catch_. cbn [out after calls].
    rewrite merge_ts_failed_eq. cbn.
    eapply two_tier_missing; [reflexivity|exact Hm].
  - pose proof (not_missing files file1 file2 H1 H2) as Hnot.
    rewrite (merge_ts_merge_validated E file1 file2 output (World files None) H1 H2).
    rewrite catch_prepend.
    destruct (calm_cases _ (World files None)
                (merge_ts_validated_calm E file1 file2 output))
      as [[a Ha]|(e & He & Hs)].
    + unfold catch_. rewrite Ha. cbn. rewrite Ha.
      eapply two_tier_completed; [|exact Hnot]. cbn. exact Ha.
    + unfold catch_. rewrite He. rewrite merge_ts_failed_eq, Hs. cbn.
      eapply two_tier_failed; [|exact Hnot]. cbn. exact He.
Qed.

Lemma part_000_exit_codes E file1 file2 rest files :
  Design.two_tier_exit_codes
    (files !! file1 = None ∨ files !! file2 = None)
    (Part000.merge E file1 file2
       (Part000.createOutputFilename file1 file2 (rest !! 0%nat))
       (World files None))
    (exit_code (Part000.run E (file1 :: file2 :: rest) files)).
Proof.
  rewrite part_000_run_eq, result_of_prepend. cbn [exit_code].
  set (output := Part000.createOutputFilename _ _ _).
  destruct (missing_or_not files file1 file2) as [Hm|[H1 H2]].
  - destruct (part_000_merge_missing E file1 file2 output (World files None) Hm)
      as (msg & evs & Heq).
    rewrite Heq. unfold catch_. cbn [out after calls].
    rewrite part_000_failed_eq. cbn.
    eapply two_tier_missing; [reflexivity|exact Hm].
  - pose proof (not_missing files file1 file2 H1 H2) as Hnot.
    rewrite (part_000_merge_validated E file1 file2 output (World files None) H1 H2).
    rewrite catch_prepend.
    destruct (calm_cases _ (World files None)
                (part_000_validated_calm E file1 file2 output))
      as [[a Ha]|(e & He & Hs)].
    + unfold catch_. rewrite Ha. cbn. rewrite Ha.
      eapply two_tier_completed; [|exact Hnot]. cbn. exact Ha.
    + unfold catch_. rewrite He. rewrite part_000_failed_eq, Hs. cbn.
      eapply two_tier_failed; [|exact Hnot]. cbn. exact He.
Qed.

(** A [catch] block that only reports: the run ends with exit code 0. *)
Lemma reporting_catch_exit_0 (title : string) (merge : M unit) (failed : error → M unit) files :
  calm merge →
  (∀ e w, failed e w = Step (Ret ()) w [LogError ("Failed: " +:+ err_message e)]) →
  exit_code (run_process (console_log title;; try_catch merge failed) files) = 0%Z.
Proof.
  intros Hcalm Hfailed. unfold run_process.
  rewrite bind_eq, console_log_eq. run_simpl. rewrite try_catch_eq, result_of_prepend.
  cbn [exit_code].
  destruct (calm_cases _ (World files None) Hcalm) as [[a Ha]|(e & He & Hs)];
    unfold catch_; rewrite ?Ha, ?He.
  - cbn. rewrite Ha. reflexivity.
  - rewrite Hfailed. reflexivity.
Qed.

Lemma part_001_exit_code_0 E files : exit_code (Part001.run E files) = 0%Z.
Proof.
  apply reporting_catch_exit_0; [apply part_001_merge_calm|reflexivity].
Qed.

Lemma part_002_exit_code_0 E files : exit_code (Part002.run E files) = 0%Z.
Proof.
  apply reporting_catch_exit_0; [apply part_002_merge_calm|reflexivity].
Qed.

(** C5, as stated, fails on the first fixed-path script: with no file on
    disk its [try] block throws "File 1 missing", and the process still
    ends with exit code 0. *)
Lemma fixed_path_script_exit_code_0_on_failure :
  ¬ Design.two_tier_exit_codes
      ((∅ : gmap string file) !! Part001.file1 = None
       ∨ (∅ : gmap string file) !! Part001.file2 = None)
      (Part001.merge (Toy.env [] 0) (World ∅ None))
      (exit_code (Part001.run (Toy.env [] 0) ∅)).
Proof.
  intros [[H _] _].
  assert (exit_code (Part001.run (Toy.env [] 0) ∅) = 0%Z) as H0
    by apply part_001_exit_code_0.
  destruct (H H0) as [a Ha]. vm_compute in Ha. discriminate Ha.
Qed.

(** C5 (amended). In [src/merge.ts] and in the earlier argument-driven
    script, a run with two arguments ends with exit code 0 exactly when the
    [try] block completes, with 1 exactly when an input file is missing,
    and with 2 exactly on any other failure. The two fixed-path scripts
    only report a failure: every run of theirs ends with exit code 0. *)
Theorem exit_codes_by_script (E : env) (file1 file2 : string)
    (rest : list string) (files : gmap string file) :
  Design.two_tier_exit_codes
    (files !! file1 = None ∨ files !! file2 = None)
    (MergeTs.merge E file1 file2
       (MergeTs.createOutputFilename file1 file2 (rest !! 0%nat))
       (World files None))
    (exit_code (MergeTs.run E (file1 :: file2 :: rest) files))
  ∧ Design.two_tier_exit_codes
      (files !! file1 = None ∨ files !! file2 = None)
      (Part000.merge E file1 file2
         (Part000.createOutputFilename file1 file2 (rest !! 0%nat))
         (World files None))
      (exit_code (Part000.run E (file1 :: file2 :: rest) files))
  ∧ exit_code (Part001.run E files) = 0%Z
  ∧ exit_code (Part002.run E files) = 0%Z.
Proof.
  split; [apply merge_ts_exit_codes|].
  split; [apply part_000_exit_codes|].
  split; [apply part_001_exit_code_0|apply part_002_exit_code_0].
Qed.

(** ** Missing input files *)

(** C6. When [file1] or [file2] does not exist, a run of [src/merge.ts]
    checks the two paths, reports the missing file(s) and exits with code
    1: it makes no other call (no copy, no database is opened) and leaves
    the files as they were. *)
Theorem missing_input_exit_code_1 (E : env) (file1 file2 : string)
    (rest : list string) (files : gmap string file) :
  files !! file1 = None ∨ files !! file2 = None →
  ∃ msg,
    MergeTs.run E (file1 :: file2 :: rest) files =
      Result files
        [Log "GeoPackage Merge Tool";
         ExistsSync file1 (bool_decide (is_Some (files !! file1)));
         ExistsSync file2 (bool_decide (is_Some (files !! file2)));
         LogError ("Failed: Missing file(s): " +:+ msg);
         ProcessExit 1] 1.
Proof.
  intros Hmissing. rewrite merge_ts_run_eq.
  destruct (merge_ts_merge_missing E file1 file2
              (MergeTs.createOutputFilename file1 file2 (rest !! 0%nat))
              (World files None) Hmissing) as [msg Heq].
  exists msg. rewrite Heq. reflexivity.
Qed.

Lemma missing_input_exit_code_1_witness :
  ∃ msg,
    MergeTs.run (Toy.env [] 0) ["north.gpkg"; "east.gpkg"] Toy.disk =
      Result Toy.disk
        [Log "GeoPackage Merge Tool";
         ExistsSync "north.gpkg" (bool_decide (is_Some (Toy.disk !! "north.gpkg")));
         ExistsSync "east.gpkg" (bool_decide (is_Some (Toy.disk !! "east.gpkg")));
         LogError ("Failed: Missing file(s): " +:+ msg);
         ProcessExit 1] 1.
Proof.
  apply (missing_input_exit_code_1 (Toy.env [] 0) "north.gpkg" "east.gpkg" [] Toy.disk).
  right. vm_compute. reflexivity.
Defined.

(** ** Blocks guarded by a class of calls *)

Lemma completes_prepend {A} evs (s : step A) :
  Design.completes s → Design.completes (prepend evs s).
Proof. intros [a Ha]. exists a. exact Ha. Qed.

Lemma guarded_then {A B} W P R (G : step B → Prop) (m : M A) (k : A → M B) w :
  tame W P R m →
  (∀ evs s, Forall (λ e, P e = true) evs → G s → G (prepend evs s)) →
  (∀ a, R a → guarded P G (k a (after (m w)))) →
  guarded P G ((m ≫= k) w).
Proof.
  intros Hm Hmono Hk. rewrite bind_eq. destruct (Hm w) as (Hc & _ & Ho).
  unfold then_, guarded. rewrite Forall_forall in Hc.
  destruct (out (m w)) as [a|e|c]; cbn [calls prepend].
  - intros (e & He & HP). apply elem_of_app in He as [He|He].
    + rewrite (Hc e He) in HP. discriminate.
    + apply Hmono; [apply Forall_forall; exact Hc|]. apply (Hk a Ho). eauto.
  - intros (e' & He & HP). rewrite (Hc e' He) in HP. discriminate.
  - contradiction.
Qed.

Lemma guarded_tame {A} W P R (G : step A → Prop) (m : M A) w :
  tame W P R m → guarded P G (m w).
Proof.
  intros Hm (e & He & HP). destruct (Hm w) as (Hc & _).
  rewrite Forall_forall in Hc. rewrite (Hc e He) in HP. discriminate.
Qed.

Lemma ensures_then {A B} W P R (G : step B → Prop) (m : M A) (k : A → M B) w :
  tame W P R m →
  (∀ evs s, Forall (λ e, P e = true) evs → G s → G (prepend evs s)) →
  (∀ a, R a → ensures G (k a (after (m w)))) →
  ensures G ((m ≫= k) w).
Proof.
  intros Hm Hmono Hk. rewrite bind_eq. destruct (Hm w) as (Hc & _ & Ho).
  unfold then_, ensures, Design.completes.
  destruct (out (m w)) as [a|e|c]; cbn [out prepend].
  - intros Hcomp. apply Hmono; [exact Hc|]. apply (Hk a Ho), Hcomp.
  - intros [? ?]. discriminate.
  - intros [? ?]. discriminate.
Qed.

(** Walks down a chain of statements whose calls are all in the class. *)
Ltac guarded_walk mono :=
  repeat lazymatch goal with
    | |- guarded _ _ (mbind _ _ _) =>
        eapply (guarded_then any_path);
        [ solve [tame_auto] | mono | intros ? ?; subst; cbv beta ]
    | |- guarded _ _ ((let '(_, _) := ?x in _) _) => destruct x
    end.

Ltac ensures_walk P mono :=
  repeat lazymatch goal with
    | |- ensures _ (mbind _ _ _) =>
        eapply (ensures_then any_path P);
        [ solve [tame_auto] | mono | intros ? ?; subst; cbv beta ]
    | |- ensures _ ((let '(_, _) := ?x in _) _) => destruct x
    end.

(** ** After the loop: detach, close, report *)

Lemma lookup_stat (files : gmap string file) path (f : file) :
  files !! path = Some f →
  ∀ sd, statSync path (World files sd) = Step (Ret f) (World files sd) [StatSync path true].
Proof. intros H sd. unfold statSync. cbn [fs]. rewrite H. reflexivity. Qed.

Lemma merge_ts_finish_spec E name1 name2 output src tgt total w :
  conn_path tgt = output →
  (∃ f w',
     MergeTs.finish E name1 name2 output src tgt total w =
     Step (Ret ()) w'
       [Exec (conn tgt) Sql.detach true; Close (conn src); Close (conn tgt);
        StatSync output true;
        Log (JS.nl +:+ JS.toUpperCase name1 +:+ " + " +:+ JS.toUpperCase name2
             +:+ " MERGE COMPLETE!");
        Log ("Total rows added: " +:+ pretty total);
        Log ("Output: " +:+ output +:+ " (" +:+ size_mb E f +:+ " MB)");
        Log ("Combined: " +:+ name1 +:+ " + " +:+ name2 +:+ " datasets!")])
  ∨ (∃ e,
       MergeTs.finish E name1 name2 output src tgt total w =
       Step (Throw e) w [Exec (conn tgt) Sql.detach false]
       ∧ err_status e = None).
Proof.
  intros Hpath. unfold MergeTs.finish.
  rewrite bind_eq. unfold db_exec. rewrite Hpath.
  destruct (fs w !! output) as [[c|]|] eqn:Hout;
    [destruct (sql_exec E Sql.detach (fs w) c (source_db w)) as [msg|[c' a']]|..];
    rewrite ?call_eq; run_simpl;
    try (right; eexists; split; reflexivity).
  left. exists (Database c').
  run_steps.
  rewrite (lookup_stat _ output (Database c')) by apply lookup_insert_eq.
  run_steps. eexists. reflexivity.
Qed.

(** ** One table of the loop *)

Lemma merged_rows_app l1 l2 :
  merged_rows (l1 ++ l2) = (merged_rows l1 + merged_rows l2)%nat.
Proof.
  induction l1 as [|e l1 IH]; [reflexivity|].
  simpl. destruct e as [| | | | | | | | |h sql [k|]| | |]; rewrite ?IH; lia.
Qed.

Lemma merge_ts_merge_table_spec E src tgt t n w :
  conn src = sourceDb → conn tgt = targetDb →
  let s := MergeTs.merge_table E src tgt t n w in
  match out s with
  | Ret n' =>
      Forall (λ e, quiet e = true) (calls s)
      ∧ n' = (n + merged_rows (calls s))%nat
  | Throw _ => stopped s
  | Exit _ => False
  end.
Proof.
  destruct src as [hs ps], tgt as [ht pt]. cbn [conn]. intros -> ->. cbv zeta.
  unfold MergeTs.merge_table, MergeTs.processTable, MergeTs.createTableIfNotExists,
    MergeTs.tableExists, MergeTs.insertTableData.
  repeat (run_steps; try split_stuck); run_steps; cbn [out calls].
  all: try (split; [repeat constructor|simpl; lia]).
  all: try (split; [eexists; split; reflexivity|]; cbn [calls rev app];
            eexists _, _, _; split; [reflexivity|]; split; [repeat constructor|reflexivity]).
  all: unfold quiet, is_missing_sql; cbn; rewrite ?Hif0; reflexivity.
Qed.

Ltac in_list := repeat first [apply list_elem_of_here | apply list_elem_of_further].

Lemma part_000_processTable_spec E src tgt t name w :
  let s := Part000.processTable E src tgt t name w in
  ∃ k,
    out s = Ret k
    ∧ k = merged_rows (calls s)
    ∧ ∃ a, Select (conn tgt) Sql.table_exists (Some t) a ∈ calls s.
Proof.
  cbv zeta.
  unfold Part000.processTable, Part000.createTableIfNotExists,
    Part000.tableExists, Part000.insertTableData.
  repeat (run_steps; try split_stuck); run_steps; cbn [out calls].
  all: eexists; split; [reflexivity|]; split; [simpl; lia|eexists; in_list].
Qed.

(** ** The loop *)

Lemma stopped_prepend {A} evs (s : step A) :
  Forall (λ e, quiet e = true) evs → stopped s → stopped (prepend evs s).
Proof.
  intros Hevs [Ho (msg & ev & before & Hrev & Hq & Hev)].
  split; [exact Ho|]. exists msg, ev, (before ++ rev evs).
  cbn [calls prepend]. rewrite rev_app_distr, Hrev.
  split; [reflexivity|]. split; [|exact Hev].
  apply Forall_app. split; [exact Hq|]. apply Forall_rev. exact Hevs.
Qed.

(** The loop of [src/merge.ts] either returns the rows added, nothing
    having gone wrong, or stops at the first table whose processing throws. *)
Lemma merge_ts_mergeTables_spec E src tgt tables n w :
  conn src = sourceDb → conn tgt = targetDb →
  let s := for_of tables n (MergeTs.merge_table E src tgt) w in
  match out s with
  | Ret total =>
      Forall (λ e, quiet e = true) (calls s)
      ∧ total = (n + merged_rows (calls s))%nat
  | Throw _ => stopped s
  | Exit _ => False
  end.
Proof.
  intros Hsrc Htgt. revert n w.
  induction tables as [|t tables IH]; intros n w; cbv zeta.
  - simpl. split; [constructor|simpl; lia].
  - cbn [for_of]. rewrite bind_eq.
    pose proof (merge_ts_merge_table_spec E src tgt t n w Hsrc Htgt) as Ht.
    cbv zeta in Ht. unfold then_.
    destruct (out (MergeTs.merge_table E src tgt t n w)) as [n1|e|c] eqn:Hout.
    + destruct Ht as [Hq ->].
      specialize (IH (n + merged_rows (calls (MergeTs.merge_table E src tgt t n w)))%nat
                    (after (MergeTs.merge_table E src tgt t n w))).
      cbv zeta in IH. cbn [out prepend].
      destruct (out (for_of tables _ _ _)) as [total|e|c] eqn:Hloop.
      * destruct IH as [Hq' ->]. cbn [calls prepend].
        split; [apply Forall_app; auto|]. rewrite merged_rows_app. lia.
      * apply stopped_prepend; [exact Hq|]. exact IH.
      * exact IH.
    + destruct Ht as [[e' [He' Hs]] Hrest]. split; [|exact Hrest].
      cbn [out]. rewrite Hout in He'. eauto.
    + exact Ht.
Qed.

(** The loop of the earlier script always runs to its end: every table is
    looked up in the target, and the total is the number of rows the
    [INSERT] statements added. *)
Lemma part_000_mergeTables_spec E src tgt name tables n w :
  let s := for_of tables n
             (λ table totalMerged,
                rowsAdded ← Part000.processTable E src tgt table name;
                mret (totalMerged + rowsAdded)%nat) w in
  ∃ total,
    out s = Ret total
    ∧ total = (n + merged_rows (calls s))%nat
    ∧ ∀ t, t ∈ tables →
        ∃ a, Select (conn tgt) Sql.table_exists (Some t) a ∈ calls s.
Proof.
  revert n w. induction tables as [|t tables IH]; intros n w; cbv zeta.
  - exists n. simpl. split; [reflexivity|]. split; [lia|].
    intros t Ht. apply elem_of_nil in Ht. contradiction.
  - cbn [for_of]. rewrite !bind_eq.
    destruct (part_000_processTable_spec E src tgt t name w) as (k & Hk & Hrows & Hsel).
    destruct (Part000.processTable E src tgt t name w) as [o1 w1 c1].
    cbn [out calls after] in Hk, Hrows, Hsel. subst o1.
    cbn [then_ out after calls]. rewrite mret_eq.
    cbn [then_ prepend out after calls]. rewrite app_nil_r.
    destruct (IH (n + k)%nat w1) as (total & Htotal & Hsum & Hall).
    exists total. split; [exact Htotal|]. split.
    + rewrite merged_rows_app, Hsum, Hrows. lia.
    + intros t' Ht'. apply elem_of_cons in Ht' as [->|Ht'].
      * destruct Hsel as [a Ha]. exists a. apply elem_of_app. left. exact Ha.
      * destruct (Hall t' Ht') as [a Ha]. exists a. apply elem_of_app. right. exact Ha.
Qed.

(** ** The shape of a run *)

(** A run of [src/merge.ts] with two arguments: an input is missing, or
    the rest of the [try] block runs to its end, or it throws. *)
Lemma merge_ts_run_cases E file1 file2 rest files :
  let r := MergeTs.run E (file1 :: file2 :: rest) files in
  let s := MergeTs.validated E file1 file2
             (MergeTs.createOutputFilename file1 file2 (rest !! 0%nat))
             (World files None) in
  ((files !! file1 = None ∨ files !! file2 = None)
   ∧ ∃ msg evs,
       r = Result files
             ([Log "GeoPackage Merge Tool"] ++ evs
              ++ [LogError ("Failed: " +:+ msg); ProcessExit 1]) 1
       ∧ Forall (λ e, is_exists_check e = true) evs)
  ∨ (is_Some (files !! file1) ∧ is_Some (files !! file2)
     ∧ ((∃ a, out s = Ret a
         ∧ r = Result (fs (after s))
                 ([Log "GeoPackage Merge Tool";
                   ExistsSync file1 true; ExistsSync file2 true] ++ calls s) 0)
        ∨ (∃ e, out s = Throw e ∧ err_status e = None
           ∧ r = Result (fs (after s))
                   ([Log "GeoPackage Merge Tool";
                     ExistsSync file1 true; ExistsSync file2 true] ++ calls s
                    ++ [LogError ("Failed: " +:+ err_message e); ProcessExit 2]) 2))).
Proof.
  cbv zeta. rewrite merge_ts_run_eq.
  set (output := MergeTs.createOutputFilename _ _ _).
  destruct (missing_or_not files file1 file2) as [Hm|[H1 H2]].
  - left. split; [exact Hm|].
    destruct (merge_ts_merge_missing E file1 file2 output (World files None) Hm)
      as [msg Heq].
    rewrite Heq. eexists _, _. split; [reflexivity|]. repeat constructor.
  - right. split; [exact H1|]. split; [exact H2|].
    rewrite (merge_ts_merge_validated E file1 file2 output (World files None) H1 H2).
    rewrite catch_prepend, prepend_prepend.
    destruct (calm_cases _ (World files None)
                (merge_ts_validated_calm E file1 file2 output))
      as [[a Ha]|(e & He & Hs)].
    + left. exists a. split; [exact Ha|].
      unfold catch_. rewrite Ha. unfold result_of. cbn. rewrite Ha. reflexivity.
    + right. exists e. split; [exact He|]. split; [exact Hs|].
      unfold catch_. rewrite He. rewrite merge_ts_failed_eq, Hs. reflexivity.
Qed.

(** The same for the earlier script. *)
Lemma part_000_run_cases E file1 file2 rest files :
  let r := Part000.run E (file1 :: file2 :: rest) files in
  let s := Part000.validated E file1 file2
             (Part000.createOutputFilename file1 file2 (rest !! 0%nat))
             (World files None) in
  ((files !! file1 = None ∨ files !! file2 = None)
   ∧ ∃ msg evs,
       r = Result files
             ([Log "GeoPackage Merge Tool"] ++ evs
              ++ [LogError ("Failed: " +:+ msg); ProcessExit 1]) 1
       ∧ Forall (λ e, is_exists_check e = true) evs)
  ∨ (is_Some (files !! file1) ∧ is_Some (files !! file2)
     ∧ ((∃ a, out s = Ret a
         ∧ r = Result (fs (after s))
                 ([Log "GeoPackage Merge Tool";
                   ExistsSync file1 true; ExistsSync file2 true] ++ calls s) 0)
        ∨ (∃ e, out s = Throw e ∧ err_status e = None
           ∧ r = Result (fs (after s))
                   ([Log "GeoPackage Merge Tool";
                     ExistsSync file1 true; ExistsSync file2 true] ++ calls s
                    ++ [LogError ("Failed: " +:+ err_message e); ProcessExit 2]) 2))).
Proof.
  cbv zeta. rewrite part_000_run_eq.
  set (output := Part000.createOutputFilename _ _ _).
  destruct (missing_or_not files file1 file2) as [Hm|[H1 H2]].
  - left. split; [exact Hm|]. unfold Part000.merge.
    destruct (files !! file1) as [f1|] eqn:Hf1.
    + destruct Hm as [?|Hf2]; [discriminate|].
      rewrite bind_eq, part_000_missing_found by (cbn; eauto). run_simpl.
      rewrite bind_eq, part_000_missing_missing by exact Hf2. run_simpl.
      eexists _, [_; _]. split; [reflexivity|]. repeat constructor.
    + rewrite bind_eq, part_000_missing_missing by exact Hf1. run_simpl.
      eexists _, [_]. split; [reflexivity|]. repeat constructor.
  - right. split; [exact H1|]. split; [exact H2|].
    rewrite (part_000_merge_validated E file1 file2 output (World files None) H1 H2).
    rewrite catch_prepend, prepend_prepend.
    destruct (calm_cases _ (World files None)
                (part_000_validated_calm E file1 file2 output))
      as [[a Ha]|(e & He & Hs)].
    + left. exists a. split; [exact Ha|].
      unfold catch_. rewrite Ha. unfold result_of. cbn. rewrite Ha. reflexivity.
    + right. exists e. split; [exact He|]. split; [exact Hs|].
      unfold catch_. rewrite He. rewrite part_000_failed_eq, Hs. reflexivity.
Qed.

Lemma part_000_finish_spec E name1 name2 output src tgt total w :
  conn_path tgt = output →
  (∃ f w',
     Part000.finish E name1 name2 output src tgt total w =
     Step (Ret ()) w'
       [Exec (conn tgt) Sql.detach true; Close (conn src); Close (conn tgt);
        StatSync output true;
        Log (JS.nl +:+ JS.toUpperCase name1 +:+ " + " +:+ JS.toUpperCase name2
             +:+ " MERGE COMPLETE!");
        Log ("Total rows added: " +:+ pretty total);
        Log ("Output: " +:+ output +:+ " (" +:+ size_mb E f +:+ " MB)");
        Log ("Combined: " +:+ name1 +:+ " + " +:+ name2 +:+ " datasets!")])
  ∨ (∃ e,
       Part000.finish E name1 name2 output src tgt total w =
       Step (Throw e) w [Exec (conn tgt) Sql.detach false]
       ∧ err_status e = None).
Proof. apply merge_ts_finish_spec. Qed.

(** ** Detach and close *)

Ltac no_such_call H :=
  repeat (apply elem_of_cons in H as [H|H]; [discriminate H|]);
  apply elem_of_nil in H; contradiction.

Lemma merge_ts_finish_closes_last E name1 name2 output src tgt total w :
  conn_path tgt = output →
  guarded not_close Design.completes
    (MergeTs.finish E name1 name2 output src tgt total w).
Proof.
  intros Hpath.
  destruct (merge_ts_finish_spec E name1 name2 output src tgt total w Hpath)
    as [(f & w' & ->)|(e & -> & _)].
  - intros _. exists (). reflexivity.
  - intros (ev & Hev & HP). cbn [calls] in Hev.
    apply list_elem_of_singleton in Hev as ->. discriminate HP.
Qed.

Lemma merge_ts_finish_closes E name1 name2 output src tgt total w :
  conn src = sourceDb → conn tgt = targetDb → conn_path tgt = output →
  ensures (λ s, Close sourceDb ∈ calls s ∧ Close targetDb ∈ calls s)
    (MergeTs.finish E name1 name2 output src tgt total w).
Proof.
  intros Hsrc Htgt Hpath.
  destruct (merge_ts_finish_spec E name1 name2 output src tgt total w Hpath)
    as [(f & w' & ->)|(e & -> & _)].
  - intros _. cbn [calls]. rewrite Hsrc, Htgt. split; in_list.
  - intros [a Ha]. discriminate Ha.
Qed.

Ltac unfold_merge_ts_to_finish :=
  unfold MergeTs.validated, MergeTs.mergeInto, MergeTs.mergeTables,
    MergeTs.getDataTables, MergeTs.merge_table, MergeTs.processTable,
    MergeTs.createTableIfNotExists, MergeTs.insertTableData, MergeTs.tableExists,
    MergeTs.finalOutputFilename, MergeTs.logFileSizes.

Ltac unfold_part_000_to_finish :=
  unfold Part000.validated, Part000.mergeInto, Part000.mergeTables,
    Part000.logCounts, Part000.getDataTables, Part000.processTable,
    Part000.createTableIfNotExists, Part000.insertTableData, Part000.tableExists,
    Part000.copyBase; cbv zeta.

(** In [src/merge.ts] a handle is closed only in a block that runs to its
    end. *)
Lemma merge_ts_closes_last E file1 file2 output w :
  guarded not_close Design.completes (MergeTs.validated E file1 file2 output w).
Proof.
  unfold_merge_ts_to_finish.
  guarded_walk ltac:(intros ? ? _; apply completes_prepend).
  apply merge_ts_finish_closes_last. reflexivity.
Qed.

Lemma closes_prepend {A} evs (s : step A) :
  Close sourceDb ∈ calls s ∧ Close targetDb ∈ calls s →
  Close sourceDb ∈ calls (prepend evs s) ∧ Close targetDb ∈ calls (prepend evs s).
Proof. intros [H1 H2]. cbn [calls prepend]. split; apply elem_of_app; auto. Qed.

(** A block of [src/merge.ts] that runs to its end has closed both
    handles. *)
Lemma merge_ts_closes E file1 file2 output w :
  ensures (λ s, Close sourceDb ∈ calls s ∧ Close targetDb ∈ calls s)
    (MergeTs.validated E file1 file2 output w).
Proof.
  unfold_merge_ts_to_finish.
  ensures_walk any_event ltac:(intros ? ? _; apply closes_prepend).
  apply merge_ts_finish_closes; reflexivity.
Qed.

Lemma part_000_finish_closes_last E name1 name2 output src tgt total w :
  conn_path tgt = output →
  guarded not_close Design.completes
    (Part000.finish E name1 name2 output src tgt total w).
Proof. apply merge_ts_finish_closes_last. Qed.

Lemma part_000_finish_closes E name1 name2 output src tgt total w :
  conn src = sourceDb → conn tgt = targetDb → conn_path tgt = output →
  ensures (λ s, Close sourceDb ∈ calls s ∧ Close targetDb ∈ calls s)
    (Part000.finish E name1 name2 output src tgt total w).
Proof. apply merge_ts_finish_closes. Qed.

(** In the earlier script too a handle is closed only in a block that
    runs to its end, and such a block has closed both. *)
Lemma part_000_closes_last E file1 file2 output w :
  guarded not_close Design.completes (Part000.validated E file1 file2 output w).
Proof.
  unfold_part_000_to_finish.
  guarded_walk ltac:(intros ? ? _; apply completes_prepend).
  apply part_000_finish_closes_last. reflexivity.
Qed.

Lemma part_000_closes E file1 file2 output w :
  ensures (λ s, Close sourceDb ∈ calls s ∧ Close targetDb ∈ calls s)
    (Part000.validated E file1 file2 output w).
Proof.
  unfold_part_000_to_finish.
  ensures_walk any_event ltac:(intros ? ? _; apply closes_prepend).
  apply part_000_finish_closes; reflexivity.
Qed.

Lemma detach_prepend {A} evs (s : step A) :
  (∃ b, Exec targetDb Sql.detach b ∈ calls s) →
  ∃ b, Exec targetDb Sql.detach b ∈ calls (prepend evs s).
Proof. intros [b Hb]. exists b. apply elem_of_app. right. exact Hb. Qed.

(** In the earlier script, once the attach statement has gone through, the
    loop runs to its end and detach is executed. *)
Lemma part_000_attached_detaches E file2 name1 name2 output src tgt tables w :
  conn tgt = targetDb → conn_path tgt = output →
  guarded not_executed (λ s, ∃ b, Exec targetDb Sql.detach b ∈ calls s)
    ((db_exec E tgt (Sql.attach file2);;
      totalMerged ← Part000.mergeTables E src tgt tables name2;
      Part000.finish E name1 name2 output src tgt totalMerged) w).
Proof.
  intros Htgt Hpath. rewrite bind_eq, db_exec_eq.
  repeat split_stuck; cbn [then_ out after calls];
    try (intros (e & He & HP); apply list_elem_of_singleton in He as ->;
         discriminate HP).
  intros _. apply detach_prepend. rewrite bind_eq. unfold Part000.mergeTables.
  match goal with |- context [for_of tables 0%nat ?body ?w'] =>
    destruct (part_000_mergeTables_spec E src tgt name2 tables 0%nat w')
      as (total & Hout & _)
  end.
  unfold then_. rewrite Hout. apply detach_prepend.
  destruct (part_000_finish_spec E name1 name2 output src tgt total
              (after (for_of tables 0%nat
                        (λ table totalMerged,
                           rowsAdded ← Part000.processTable E src tgt table name2;
                           mret (totalMerged + rowsAdded)%nat)
                        (World (<[conn_path tgt := Database c0]> (fs w)) o))) Hpath)
    as [(f & w' & ->)|(e & -> & _)];
    cbn [calls]; rewrite Htgt; eexists; in_list.
Qed.

Lemma part_000_detaches_after_attach E file1 file2 output w :
  guarded not_executed (λ s, ∃ b, Exec targetDb Sql.detach b ∈ calls s)
    (Part000.validated E file1 file2 output w).
Proof.
  unfold Part000.validated, Part000.mergeInto, Part000.logCounts,
    Part000.getDataTables, Part000.copyBase; cbv zeta.
  guarded_walk ltac:(intros ? ? _; apply detach_prepend).
  apply part_000_attached_detaches; reflexivity.
Qed.

Ltac by_compute := apply (bool_decide_unpack _); vm_compute; exact I.

Ltac absurd_call H :=
  apply (bool_decide_eq_true_2 _) in H; vm_compute in H; discriminate H.

(** C3, as stated, fails on [src/merge.ts]: merging [south.gpkg] into a copy
    of [north.gpkg], the attach statement goes through, the second table
    ([roads]) collides, and the process exits without having executed
    detach or closed a handle. *)
Lemma merge_ts_exits_without_detach :
  ¬ Design.scoped_resources (Sql.attach "south.gpkg")
      (MergeTs.run Toy.engine ["north.gpkg"; "south.gpkg"] Toy.disk).
Proof.
  intros [Hdetach _].
  destruct Hdetach as [[|] H]; [by_compute|absurd_call H..].
Qed.

Lemma no_close_among_checks evs h :
  Forall (λ e, is_exists_check e = true) evs → Close h ∉ evs.
Proof.
  intros Hall Hin. rewrite Forall_forall in Hall.
  specialize (Hall _ Hin). discriminate Hall.
Qed.

Lemma closed_only_on_success {A} (s : step A) h e pre post :
  guarded not_close Design.completes s →
  out s = Throw e →
  Close h ∉ pre → Close h ∉ post →
  Close h ∉ pre ++ calls s ++ post.
Proof.
  intros Hg Hout Hpre Hpost Hin.
  apply elem_of_app in Hin as [Hin|Hin]; [exact (Hpre Hin)|].
  apply elem_of_app in Hin as [Hin|Hin]; [|exact (Hpost Hin)].
  destruct Hg as [a Ha]; [|congruence].
  exists (Close h). split; [exact Hin|reflexivity].
Qed.

Lemma not_close_tail h msg code : Close h ∉ [LogError msg; ProcessExit code].
Proof. intros H. no_such_call H. Qed.

Lemma not_close_head h t p1 b1 p2 b2 :
  Close h ∉ [Log t; ExistsSync p1 b1; ExistsSync p2 b2].
Proof. intros H. no_such_call H. Qed.

Lemma not_executed_among_checks evs h sql :
  Forall (λ e, is_exists_check e = true) evs → Exec h sql true ∉ evs.
Proof.
  intros Hall Hin. rewrite Forall_forall in Hall.
  specialize (Hall _ Hin). discriminate Hall.
Qed.

(** C3 (amended). Detach and the two closes are the last steps of the
    [try] block; no [catch] or [finally] runs them. In the earlier script,
    where a table's error never leaves the loop, every run in which the
    attach statement went through executes detach. In that script and in
    [src/merge.ts] alike, a handle is closed only in a run that ends with
    exit code 0, and every such run (given two arguments) has closed both
    handles. *)
Theorem detach_and_close_by_script (E : env) (file1 file2 : string)
    (rest : list string) (files : gmap string file) :
  let rm := MergeTs.run E (file1 :: file2 :: rest) files in
  let rp := Part000.run E (file1 :: file2 :: rest) files in
  (Exec targetDb (Sql.attach file2) true ∈ events rp →
   ∃ done, Exec targetDb Sql.detach done ∈ events rp)
  ∧ (∀ h, Close h ∈ events rp → exit_code rp = 0%Z)
  ∧ (exit_code rp = 0%Z → Close sourceDb ∈ events rp ∧ Close targetDb ∈ events rp)
  ∧ (∀ h, Close h ∈ events rm → exit_code rm = 0%Z)
  ∧ (exit_code rm = 0%Z → Close sourceDb ∈ events rm ∧ Close targetDb ∈ events rm).
Proof.
  cbv zeta.
  pose proof (part_000_run_cases E file1 file2 rest files) as Hp.
  pose proof (merge_ts_run_cases E file1 file2 rest files) as Hm.
  cbv zeta in Hp, Hm.
  set (outp := Part000.createOutputFilename file1 file2 (rest !! 0%nat)) in *.
  set (outm := MergeTs.createOutputFilename file1 file2 (rest !! 0%nat)) in *.
  pose proof (part_000_detaches_after_attach E file1 file2 outp (World files None)) as Hdet.
  pose proof (part_000_closes_last E file1 file2 outp (World files None)) as Hlastp.
  pose proof (part_000_closes E file1 file2 outp (World files None)) as Hclp.
  pose proof (merge_ts_closes_last E file1 file2 outm (World files None)) as Hlastm.
  pose proof (merge_ts_closes E file1 file2 outm (World files None)) as Hclm.
  split; [|split; [|split; [|split]]].
  - destruct Hp as [(_ & msg & evs & -> & Hevs)|(_ & _ & [(a & Ha & ->)|(e & He & Hs & ->)])];
      cbn [events]; intros Hin.
    + exfalso. apply elem_of_cons in Hin as [Hin|Hin]; [discriminate|].
      apply elem_of_app in Hin as [Hin|Hin];
        [exact (not_executed_among_checks _ _ _ Hevs Hin)|no_such_call Hin].
    + destruct Hdet as [b Hb].
      * do 3 (apply elem_of_cons in Hin as [Hin|Hin]; [discriminate|]). eauto.
      * exists b. apply elem_of_app. right. exact Hb.
    + destruct Hdet as [b Hb].
      * do 3 (apply elem_of_cons in Hin as [Hin|Hin]; [discriminate|]).
        apply elem_of_app in Hin as [Hin|Hin]; [eauto|no_such_call Hin].
      * exists b. apply elem_of_app. right. apply elem_of_app. left. exact Hb.
  - intros h.
    destruct Hp as [(_ & msg & evs & -> & Hevs)|(_ & _ & [(a & Ha & ->)|(e & He & Hs & ->)])];
      cbn [events exit_code]; intros Hin; [exfalso|reflexivity|exfalso].
    + apply elem_of_cons in Hin as [Hin|Hin]; [discriminate|].
      apply elem_of_app in Hin as [Hin|Hin];
        [exact (no_close_among_checks _ _ Hevs Hin)|no_such_call Hin].
    + revert Hin. apply (closed_only_on_success _ h e); auto using not_close_tail, not_close_head.
  - destruct Hp as [(_ & msg & evs & -> & Hevs)|(_ & _ & [(a & Ha & ->)|(e & He & Hs & ->)])];
      cbn [events exit_code]; intros Hcode; try discriminate Hcode.
    destruct Hclp as [H1 H2]; [exists a; exact Ha|].
    split; apply elem_of_app; right; assumption.
  - intros h.
    destruct Hm as [(_ & msg & evs & -> & Hevs)|(_ & _ & [(a & Ha & ->)|(e & He & Hs & ->)])];
      cbn [events exit_code]; intros Hin; [exfalso|reflexivity|exfalso].
    + apply elem_of_cons in Hin as [Hin|Hin]; [discriminate|].
      apply elem_of_app in Hin as [Hin|Hin];
        [exact (no_close_among_checks _ _ Hevs Hin)|no_such_call Hin].
    + revert Hin. apply (closed_only_on_success _ h e); auto using not_close_tail, not_close_head.
  - destruct Hm as [(_ & msg & evs & -> & Hevs)|(_ & _ & [(a & Ha & ->)|(e & He & Hs & ->)])];
      cbn [events exit_code]; intros Hcode; try discriminate Hcode.
    destruct Hclm as [H1 H2]; [exists a; exact Ha|].
    split; apply elem_of_app; right; assumption.
Qed.

Lemma detach_and_close_by_script_witness :
  ∃ done, Exec targetDb Sql.detach done
          ∈ events (Part000.run Toy.engine ["north.gpkg"; "south.gpkg"] Toy.disk).
Proof.
  apply (proj1 (detach_and_close_by_script
                  Toy.engine "north.gpkg" "south.gpkg" [] Toy.disk)).
  by_compute.
Defined.

(** ** A table whose processing throws, in [src/merge.ts] *)

Lemma merge_ts_finish_quiet E name1 name2 output src tgt total :
  tame any_path quiet anything (MergeTs.finish E name1 name2 output src tgt total).
Proof. unfold MergeTs.finish. tame_auto. Qed.

Lemma stopped_cast {A B} (s : step A) (s' : step B) e :
  out s = Throw e → out s' = Throw e → calls s' = calls s →
  stopped s → stopped s'.
Proof.
  intros Ho Ho' Hc [(e' & He' & Hs) Hrest]. split.
  - exists e. split; [exact Ho'|]. congruence.
  - rewrite Hc. exact Hrest.
Qed.

Lemma merge_ts_loop_stops E name1 name2 output src tgt tables w :
  conn src = sourceDb → conn tgt = targetDb →
  guarded quiet stopped
    ((totalMerged ← MergeTs.mergeTables E src tgt tables;
      MergeTs.finish E name1 name2 output src tgt totalMerged) w).
Proof.
  intros Hsrc Htgt. rewrite bind_eq. unfold MergeTs.mergeTables.
  pose proof (merge_ts_mergeTables_spec E src tgt tables 0%nat w Hsrc Htgt) as Hloop.
  cbv zeta in Hloop. unfold then_.
  destruct (out (for_of tables 0%nat (MergeTs.merge_table E src tgt) w))
    as [total|e|c] eqn:Hout.
  - destruct Hloop as [Hq _]. intros (ev & Hev & HP). exfalso.
    cbn [calls prepend] in Hev. apply elem_of_app in Hev as [Hev|Hev].
    + rewrite Forall_forall in Hq. rewrite (Hq ev Hev) in HP. discriminate.
    + eapply (guarded_tame any_path quiet anything (λ _, False)
                (MergeTs.finish E name1 name2 output src tgt total));
        [apply merge_ts_finish_quiet|eauto].
  - intros _. eapply stopped_cast; [exact Hout|reflexivity|reflexivity|exact Hloop].
  - contradiction.
Qed.

(** In [src/merge.ts], a block that makes a call that is not quiet has
    stopped right after it. *)
Lemma merge_ts_stops E file1 file2 output w :
  guarded quiet stopped (MergeTs.validated E file1 file2 output w).
Proof.
  unfold MergeTs.validated, MergeTs.mergeInto, MergeTs.getDataTables,
    MergeTs.finalOutputFilename, MergeTs.logFileSizes.
  guarded_walk ltac:(intros ? ?; apply stopped_prepend).
  apply merge_ts_loop_stops; reflexivity.
Qed.

Lemma quiet_among_checks evs ev :
  Forall (λ e, is_exists_check e = true) evs → ev ∈ evs → quiet ev = true.
Proof.
  intros Hall Hin. rewrite Forall_forall in Hall.
  specialize (Hall _ Hin). destruct ev; try discriminate. reflexivity.
Qed.

Lemma rev_eq_cons2 {A} (l : list A) a b before :
  rev l = a :: b :: before → l = rev before ++ [b; a].
Proof.
  intros H. rewrite <- (rev_involutive l), H. simpl.
  rewrite <- app_assoc. reflexivity.
Qed.

(** A run of [src/merge.ts] that makes a call [ev] that is not quiet (a
    failed [INSERT], a lookup that finds no create statement) reports it
    twice and exits with code 2: [ev] is the last call to the platform but
    for the two reports and [process.exit]. *)
Lemma merge_ts_stops_at E file1 file2 rest files ev :
  let r := MergeTs.run E (file1 :: file2 :: rest) files in
  ev ∈ events r → quiet ev = false → is_log_error ev = false →
  exit_code r = 2%Z
  ∧ ∃ before msg1 msg2,
      events r = before ++ [ev; LogError msg1; LogError msg2; ProcessExit 2].
Proof.
  cbv zeta. intros Hin Hev Hlog.
  pose proof (merge_ts_run_cases E file1 file2 rest files) as Hm. cbv zeta in Hm.
  set (output := MergeTs.createOutputFilename file1 file2 (rest !! 0%nat)) in *.
  pose proof (merge_ts_stops E file1 file2 output (World files None)) as Hstops.
  assert (∀ l, ev ∈ [Log "GeoPackage Merge Tool"; ExistsSync file1 true;
                       ExistsSync file2 true] ++ l → ev ∈ l) as Hhead.
  { intros l H. apply elem_of_app in H as [H|H]; [|exact H].
    exfalso.
    repeat (apply elem_of_cons in H as [->|H]; [discriminate Hev|]).
    apply elem_of_nil in H. exact H. }
  destruct Hm as [(_ & msg & evs & Hr & Hevs)|(_ & _ & [(a & Ha & Hr)|(e & He & Hs & Hr)])];
    rewrite Hr in Hin |- *; cbn [events exit_code] in Hin |- *.
  - exfalso. apply elem_of_cons in Hin as [->|Hin]; [discriminate Hev|].
    apply elem_of_app in Hin as [Hin|Hin].
    + rewrite (quiet_among_checks _ _ Hevs Hin) in Hev. discriminate.
    + repeat (apply elem_of_cons in Hin as [->|Hin]; [discriminate|]).
      apply elem_of_nil in Hin. exact Hin.
  - exfalso. apply Hhead in Hin.
    destruct Hstops as [(e & He & _) _]; [eauto|]. congruence.
  - split; [reflexivity|]. apply Hhead in Hin.
    assert (ev ∈ calls (MergeTs.validated E file1 file2 output (World files None)))
      as Hin'.
    { apply elem_of_app in Hin as [Hin|Hin]; [exact Hin|].
      exfalso.
      repeat (apply elem_of_cons in Hin as [->|Hin]; [discriminate|]).
      apply elem_of_nil in Hin. exact Hin. }
    destruct Hstops as [_ (msg & ev' & before & Hrev & Hq & Hev')]; [eauto|].
    apply rev_eq_cons2 in Hrev. rewrite Hrev in Hin' |- *.
    assert (ev = ev') as <-.
    { apply elem_of_app in Hin' as [Hin'|Hin'].
      - exfalso. apply list_elem_of_In, in_rev, list_elem_of_In in Hin'.
        rewrite Forall_forall in Hq. rewrite (Hq ev Hin') in Hev. discriminate.
      - apply elem_of_cons in Hin' as [->|Hin']; [reflexivity|].
        apply list_elem_of_singleton in Hin' as ->. discriminate Hlog. }
    exists ([Log "GeoPackage Merge Tool"; ExistsSync file1 true;
             ExistsSync file2 true] ++ rev before), msg,
      ("Failed: " +:+ err_message e).
    cbn [app]. do 3 f_equal. rewrite <- app_assoc. reflexivity.
Qed.

(** ** Going through the whole list, in the earlier script *)

Lemma merges_every_table_app tables evs evs' :
  Design.merges_every_table tables evs' →
  Design.merges_every_table tables (evs ++ evs').
Proof.
  intros [Hall [b Hb]]. split.
  - intros t Ht. destruct (Hall t Ht) as [a Ha]. exists a.
    apply elem_of_app. right. exact Ha.
  - exists b. apply elem_of_app. right. exact Hb.
Qed.

Lemma part_000_loop_merges_every_table E name1 name2 output src tgt tables w :
  conn tgt = targetDb → conn_path tgt = output →
  Design.merges_every_table tables
    (calls ((totalMerged ← Part000.mergeTables E src tgt tables name2;
             Part000.finish E name1 name2 output src tgt totalMerged) w)).
Proof.
  intros Htgt Hpath. rewrite bind_eq. unfold Part000.mergeTables.
  destruct (part_000_mergeTables_spec E src tgt name2 tables 0%nat w)
    as (total & Hout & _ & Hall).
  unfold then_. rewrite Hout. cbn [calls prepend]. split.
  - intros t Ht. destruct (Hall t Ht) as [a Ha]. exists a.
    apply elem_of_app. left. rewrite <- Htgt. exact Ha.
  - match goal with |- context [Part000.finish _ _ _ _ _ _ _ ?w'] =>
      destruct (part_000_finish_spec E name1 name2 output src tgt total w' Hpath)
        as [(f & w'' & ->)|(e & -> & _)]
    end; cbn [calls]; rewrite Htgt; eexists; apply elem_of_app; right; in_list.
Qed.

Lemma isolates_prepend {A} evs (s : step A) :
  Forall (λ e, before_listing e = true) evs → isolates s → isolates (prepend evs s).
Proof.
  intros Hevs Hs tables Hlist (e & He & HP). rewrite Forall_forall in Hevs.
  cbn [calls prepend] in *. apply merges_every_table_app. apply Hs.
  - apply elem_of_app in Hlist as [Hlist|Hlist]; [|exact Hlist].
    specialize (Hevs _ Hlist). discriminate Hevs.
  - exists e. split; [|exact HP].
    apply elem_of_app in He as [He|He]; [|exact He].
    specialize (Hevs _ He). apply andb_prop in Hevs as [Hevs _]. congruence.
Qed.

(** The listing of the source tables, followed by a block that goes
    through the whole list once it is in its loop. *)
Lemma listing_then {B} (k : list string → M B) src w :
  conn src = sourceDb →
  (∀ tables, tame any_path not_source_listing anything (k tables)) →
  (∀ tables w',
     guarded before_loop (λ s, Design.merges_every_table tables (calls s))
       (k tables w')) →
  guarded before_listing isolates
    ((db_all src Sql.list_data_tables select_data_tables ≫= k) w).
Proof.
  intros Hsrc Htame Hk _. rewrite bind_eq. unfold db_all. rewrite Hsrc.
  assert (∀ c, isolates
            (then_ (call (Select sourceDb Sql.list_data_tables None
                            (All (select_data_tables c)))
                      (Ret (select_data_tables c)) w) k)) as Hok.
  { intros c tables Hlist (e & He & HP).
    rewrite call_eq in *. cbn [then_ out after calls prepend] in *.
    apply elem_of_cons in Hlist as [Hlist|Hlist].
    - injection Hlist as ->. apply (merges_every_table_app _ [_]).
      apply Hk. exists e. split; [|exact HP].
      apply elem_of_cons in He as [->|He]; [discriminate HP|exact He].
    - destruct (Htame (select_data_tables c) w) as (Hc & _).
      rewrite Forall_forall in Hc. specialize (Hc _ Hlist). discriminate Hc. }
  destruct (fs w !! conn_path src) as [[c|]|]; [apply Hok|..];
    intros tables Hlist _; rewrite call_eq in Hlist;
    cbn [then_ out calls] in Hlist;
    apply list_elem_of_singleton in Hlist; discriminate Hlist.
Qed.

Lemma part_000_isolates E file1 file2 output w :
  guarded before_listing isolates (Part000.validated E file1 file2 output w).
Proof.
  unfold Part000.validated, Part000.mergeInto, Part000.copyBase; cbv zeta.
  unfold Part000.logCounts.
  guarded_walk ltac:(intros ? ?; apply isolates_prepend).
  eapply (guarded_then any_path);
    [unfold Part000.getDataTables; solve [tame_auto]
    |intros ? ?; apply isolates_prepend
    |intros ? ?; cbv beta].
  unfold Part000.getDataTables.
  apply listing_then; [reflexivity| |].
  - intros tables. unfold_part_000_to_finish. unfold Part000.finish. tame_auto.
  - intros tables w'.
    guarded_walk ltac:(intros ? ? _; apply merges_every_table_app).
    intros _. apply part_000_loop_merges_every_table; reflexivity.
Qed.

(** ** The reported total, in the earlier script *)

Lemma merged_rows_not_run evs :
  Forall (λ e, not_run e = true) evs → merged_rows evs = 0%nat.
Proof.
  induction 1 as [|e evs He _ IH]; [reflexivity|].
  simpl. rewrite IH. destruct e; try reflexivity. discriminate He.
Qed.

Lemma total_prepend {A} evs (s : step A) :
  Forall (λ e, not_run e = true) evs →
  Log ("Total rows added: " +:+ pretty (merged_rows (calls s))) ∈ calls s →
  Log ("Total rows added: " +:+ pretty (merged_rows (calls (prepend evs s))))
    ∈ calls (prepend evs s).
Proof.
  intros Hevs Hin. cbn [calls prepend].
  rewrite merged_rows_app, (merged_rows_not_run _ Hevs).
  apply elem_of_app. right. exact Hin.
Qed.

Lemma part_000_loop_total E name1 name2 output src tgt tables w :
  conn_path tgt = output →
  ensures (λ s, Log ("Total rows added: " +:+ pretty (merged_rows (calls s)))
                  ∈ calls s)
    ((totalMerged ← Part000.mergeTables E src tgt tables name2;
      Part000.finish E name1 name2 output src tgt totalMerged) w).
Proof.
  intros Hpath. rewrite bind_eq. unfold Part000.mergeTables.
  destruct (part_000_mergeTables_spec E src tgt name2 tables 0%nat w)
    as (total & Hout & Hsum & _).
  unfold then_. rewrite Hout.
  match goal with |- context [Part000.finish _ _ _ _ _ _ _ ?w'] =>
    destruct (part_000_finish_spec E name1 name2 output src tgt total w' Hpath)
      as [(f & w'' & ->)|(e & -> & _)]
  end.
  - intros _. cbn [calls prepend]. rewrite merged_rows_app. cbn [merged_rows foldr].
    rewrite Nat.add_0_r. simpl in Hsum. rewrite <- Hsum.
    apply elem_of_app. right. in_list.
  - intros [a Ha]. discriminate Ha.
Qed.

(** A run of the earlier script that completes reports as its total the
    rows its [INSERT] statements added. *)
Lemma part_000_total E file1 file2 output w :
  ensures (λ s, Log ("Total rows added: " +:+ pretty (merged_rows (calls s)))
                  ∈ calls s)
    (Part000.validated E file1 file2 output w).
Proof.
  unfold Part000.validated, Part000.mergeInto, Part000.copyBase,
    Part000.getDataTables, Part000.logCounts; cbv zeta.
  ensures_walk not_run ltac:(intros ? ?; apply total_prepend).
  apply part_000_loop_total. reflexivity.
Qed.

(** ** Partial-failure isolation *)

Lemma merges_every_table_app_l tables evs evs' :
  Design.merges_every_table tables evs →
  Design.merges_every_table tables (evs ++ evs').
Proof.
  intros [Hall [b Hb]]. split.
  - intros t Ht. destruct (Hall t Ht) as [a Ha]. exists a.
    apply elem_of_app. left. exact Ha.
  - exists b. apply elem_of_app. left. exact Hb.
Qed.

Lemma past_head ev t p1 p2 l :
  before_listing ev = false →
  ev ∈ Log t :: ExistsSync p1 true :: ExistsSync p2 true :: l → ev ∈ l.
Proof.
  intros Hev H.
  repeat (apply elem_of_cons in H as [->|H]; [discriminate Hev|]). exact H.
Qed.

Lemma before_tail ev l msg code :
  before_listing ev = false →
  ev ∈ l ++ [LogError msg; ProcessExit code] → ev ∈ l.
Proof.
  intros Hev H. apply elem_of_app in H as [H|H]; [exact H|]. exfalso.
  repeat (apply elem_of_cons in H as [->|H]; [discriminate Hev|]).
  apply elem_of_nil in H. exact H.
Qed.

(** A run of the earlier script that listed the source tables and got
    into its loop went through the whole list. *)
Lemma part_000_merges_every_table E file1 file2 rest files tables ev :
  let r := Part000.run E (file1 :: file2 :: rest) files in
  Select sourceDb Sql.list_data_tables None (All tables) ∈ events r →
  ev ∈ events r → before_loop ev = false →
  Design.merges_every_table tables (events r).
Proof.
  cbv zeta. intros Hlist Hin Hev.
  pose proof (part_000_run_cases E file1 file2 rest files) as Hp. cbv zeta in Hp.
  set (output := Part000.createOutputFilename file1 file2 (rest !! 0%nat)) in *.
  pose proof (part_000_isolates E file1 file2 output (World files None)) as Hiso.
  assert (before_listing ev = false) as Hev'.
  { unfold before_listing. rewrite Hev. reflexivity. }
  destruct Hp as [(_ & msg & evs & Hr & Hevs)|(_ & _ & [(a & Ha & Hr)|(e & He & Hs & Hr)])];
    rewrite Hr in Hlist, Hin |- *; cbn [events app] in Hlist, Hin |- *.
  - exfalso. apply elem_of_cons in Hlist as [Hlist|Hlist]; [discriminate|].
    apply elem_of_app in Hlist as [Hlist|Hlist].
    + rewrite Forall_forall in Hevs. specialize (Hevs _ Hlist). discriminate.
    + no_such_call Hlist.
  - apply past_head in Hlist; [|reflexivity]. apply past_head in Hin; [|exact Hev'].
    apply (merges_every_table_app tables [_; _; _]).
    apply Hiso; eauto.
  - apply past_head in Hlist; [|reflexivity]. apply past_head in Hin; [|exact Hev'].
    apply before_tail in Hlist; [|reflexivity]. apply before_tail in Hin; [|exact Hev'].
    apply (merges_every_table_app tables [_; _; _]).
    apply merges_every_table_app_l.
    apply Hiso; eauto.
Qed.

Lemma part_000_reports_total E file1 file2 rest files :
  let r := Part000.run E (file1 :: file2 :: rest) files in
  exit_code r = 0%Z →
  Log ("Total rows added: " +:+ pretty (merged_rows (events r))) ∈ events r.
Proof.
  cbv zeta. intros Hcode.
  pose proof (part_000_run_cases E file1 file2 rest files) as Hp. cbv zeta in Hp.
  set (output := Part000.createOutputFilename file1 file2 (rest !! 0%nat)) in *.
  pose proof (part_000_total E file1 file2 output (World files None)) as Htotal.
  destruct Hp as [(_ & msg & evs & Hr & Hevs)|(_ & _ & [(a & Ha & Hr)|(e & He & Hs & Hr)])];
    rewrite Hr in Hcode |- *; cbn [events exit_code] in Hcode |- *;
    try discriminate Hcode.
  rewrite merged_rows_app. cbn [merged_rows foldr Nat.add].
  apply elem_of_app. right. apply Htotal. exists a. exact Ha.
Qed.

(** C1, as stated, fails on [src/merge.ts]: merging [south.gpkg] (tables
    [lakes], [roads], [rivers]) into a copy of [north.gpkg], the [INSERT]
    for [roads] collides, and [rivers] is never processed. *)
Lemma merge_ts_stops_at_failed_table :
  ¬ Design.partial_failure_isolation
      (MergeTs.run Toy.engine ["north.gpkg"; "south.gpkg"] Toy.disk).
Proof.
  intros H.
  destruct (H ["lakes"; "roads"; "rivers"] "roads") as [Hall _]; [by_compute..|].
  destruct (Hall "rivers") as [a Ha]; [by_compute|].
  vm_compute in Ha. no_such_call Ha.
Qed.

(** C1 (amended). The earlier script isolates a failed table: a run in
    which the [INSERT] for one of the listed source tables throws still
    goes through the whole list and on to detach, and a run that completes
    reports as its total the rows the successful [INSERT]s added, the
    failed ones adding nothing. In [src/merge.ts] the loop's [catch]
    reports the error and rethrows it: the failed [INSERT] is the last call
    to the database, the run reports the failure and exits with code 2. *)
Theorem partial_failure_isolation_by_script (E : env) (file1 file2 : string)
    (rest : list string) (files : gmap string file) :
  let rp := Part000.run E (file1 :: file2 :: rest) files in
  let rm := MergeTs.run E (file1 :: file2 :: rest) files in
  Design.partial_failure_isolation rp
  ∧ (exit_code rp = 0%Z →
     Log ("Total rows added: " +:+ pretty (merged_rows (events rp))) ∈ events rp)
  ∧ (∀ t, Run targetDb (Sql.insert_select t) None ∈ events rm →
       exit_code rm = 2%Z
       ∧ ∃ before msg1 msg2,
           events rm =
           before ++ [Run targetDb (Sql.insert_select t) None;
                      LogError msg1; LogError msg2; ProcessExit 2]).
Proof.
  cbv zeta. split; [|split].
  - intros tables t Hlist Hrun.
    exact (part_000_merges_every_table E file1 file2 rest files tables _
             Hlist Hrun eq_refl).
  - apply part_000_reports_total.
  - intros t Hrun.
    exact (merge_ts_stops_at E file1 file2 rest files _ Hrun eq_refl eq_refl).
Qed.

Lemma partial_failure_isolation_by_script_witness :
  Design.merges_every_table ["lakes"; "roads"; "rivers"]
    (events (Part000.run Toy.engine ["north.gpkg"; "south.gpkg"] Toy.disk)).
Proof.
  apply (proj1 (partial_failure_isolation_by_script
                  Toy.engine "north.gpkg" "south.gpkg" [] Toy.disk))
    with (t := "roads"); by_compute.
Defined.

(** ** A table without a create statement *)

Lemma part_000_createTable_skips E src tgt t w ct cs :
  fs w !! conn_path tgt = Some (Database ct) →
  fs w !! conn_path src = Some (Database cs) →
  select_table ct t = None →
  JS.truthy (select_sql t cs ≫= id) = false →
  Part000.createTableIfNotExists E src tgt t w =
  Step (Ret false) w
    [Select (conn tgt) Sql.table_exists (Some t) (Got None);
     Log ("Creating new table: " +:+ t);
     Select (conn src) Sql.table_sql (Some t) (Got (select_sql t cs));
     Log ("Warning: Could not get table structure for " +:+ t +:+ ", skipping...")].
Proof.
  intros Htgt Hsrc Hnone Hsql.
  unfold Part000.createTableIfNotExists, Part000.tableExists.
  run_steps. unfold select_name. rewrite Hnone. cbn [fmap option_fmap option_map].
  rewrite bool_decide_eq_false_2 by (intros [? ?]; discriminate).
  run_steps. rewrite Hsql. run_steps. reflexivity.
Qed.

Lemma merge_ts_createTable_throws E src tgt t w ct cs :
  fs w !! conn_path tgt = Some (Database ct) →
  fs w !! conn_path src = Some (Database cs) →
  select_table ct t = None →
  JS.truthy (select_sql t cs ≫= id) = false →
  MergeTs.createTableIfNotExists E src tgt t w =
  Step (Throw (plain_error ("Could not get table structure for " +:+ t))) w
    [Select (conn tgt) Sql.table_exists (Some t) (Got None);
     Log ("Creating new table: " +:+ t);
     Select (conn src) Sql.table_sql (Some t) (Got (select_sql t cs))].
Proof.
  intros Htgt Hsrc Hnone Hsql.
  unfold MergeTs.createTableIfNotExists, MergeTs.tableExists.
  run_steps. unfold select_name. rewrite Hnone. cbn [fmap option_fmap option_map].
  rewrite bool_decide_eq_false_2 by (intros [? ?]; discriminate).
  run_steps. rewrite Hsql. run_steps. reflexivity.
Qed.

(** C2, as stated, fails on [src/merge.ts]: the source lists [lakes],
    [orphan] (no create statement) and [rivers]; the run throws at [orphan]
    and never processes [rivers]. *)
Lemma merge_ts_stops_at_missing_schema :
  ¬ Design.skips_missing_schema
      (MergeTs.run Toy.engine ["north.gpkg"; "south.gpkg"] Toy.disk_orphan).
Proof.
  intros H.
  destruct (H ["lakes"; "orphan"; "rivers"] "orphan" (Some None))
    as [Hall _]; [by_compute..|reflexivity|].
  destruct (Hall "rivers") as [a Ha]; [by_compute|].
  vm_compute in Ha. no_such_call Ha.
Qed.

(** C2 (amended). In the earlier script, when the target lacks the table
    and the source has no usable create statement for it,
    [createTableIfNotExists] returns [false] without raising, and a run in
    which this happens for a listed table still goes through the whole
    list. In [src/merge.ts] [createTableIfNotExists] throws "Could not get
    table structure", the loop's [catch] rethrows, and the run reports the
    failure and exits with code 2, the lookup being its last call to a
    database. *)
Theorem missing_schema_by_script (E : env) (file1 file2 : string)
    (rest : list string) (files : gmap string file) :
  let rp := Part000.run E (file1 :: file2 :: rest) files in
  let rm := MergeTs.run E (file1 :: file2 :: rest) files in
  Design.skips_missing_schema rp
  ∧ (∀ src tgt t w ct cs,
       fs w !! conn_path tgt = Some (Database ct) →
       fs w !! conn_path src = Some (Database cs) →
       select_table ct t = None →
       JS.truthy (select_sql t cs ≫= id) = false →
       out (Part000.createTableIfNotExists E src tgt t w) = Ret false
       ∧ out (MergeTs.createTableIfNotExists E src tgt t w) =
         Throw (plain_error ("Could not get table structure for " +:+ t)))
  ∧ (∀ t row,
       Select sourceDb Sql.table_sql (Some t) (Got row) ∈ events rm →
       JS.truthy (row ≫= id) = false →
       exit_code rm = 2%Z
       ∧ ∃ before msg1 msg2,
           events rm =
           before ++ [Select sourceDb Sql.table_sql (Some t) (Got row);
                      LogError msg1; LogError msg2; ProcessExit 2]).
Proof.
  cbv zeta. split; [|split].
  - intros tables t row Hlist Hsel Hrow.
    exact (part_000_merges_every_table E file1 file2 rest files tables _
             Hlist Hsel eq_refl).
  - intros src tgt t w ct cs Htgt Hsrc Hnone Hsql.
    rewrite (part_000_createTable_skips E src tgt t w ct cs Htgt Hsrc Hnone Hsql).
    rewrite (merge_ts_createTable_throws E src tgt t w ct cs Htgt Hsrc Hnone Hsql).
    split; reflexivity.
  - intros t row Hsel Hrow.
    apply (merge_ts_stops_at E file1 file2 rest files _ Hsel); [|reflexivity].
    unfold quiet, is_missing_sql. cbn. rewrite Hrow. reflexivity.
Qed.

Lemma missing_schema_by_script_witness :
  Design.merges_every_table ["lakes"; "orphan"; "rivers"]
    (events (Part000.run Toy.engine ["north.gpkg"; "south.gpkg"] Toy.disk_orphan)).
Proof.
  apply (proj1 (missing_schema_by_script
                  Toy.engine "north.gpkg" "south.gpkg" [] Toy.disk_orphan))
    with (t := "orphan") (row := Some None); [by_compute..|reflexivity].
Defined.

(** ** The catalog listings of a run *)

Lemma merge_ts_validated_listings E file1 file2 output :
  tame any_path data_listing anything (MergeTs.validated E file1 file2 output).
Proof. unfold MergeTs.validated. unfold_merge_ts. tame_auto; right; exact I. Qed.

Lemma part_000_validated_listings E file1 file2 output :
  tame any_path data_listing anything (Part000.validated E file1 file2 output).
Proof.
  unfold Part000.validated. unfold_part_000. cbv zeta.
  tame_auto; right; exact I.
Qed.

Lemma data_listing_among_checks evs :
  Forall (λ e, is_exists_check e = true) evs →
  Forall (λ e, data_listing e = true) evs.
Proof.
  intros Hall. eapply Forall_impl; [exact Hall|].
  intros e He. destruct e; try discriminate. reflexivity.
Qed.

Lemma data_listing_sql h sql a evs :
  Forall (λ e, data_listing e = true) evs →
  Select h sql None a ∈ evs → sql = Sql.list_data_tables.
Proof.
  intros Hall Hin. rewrite Forall_forall in Hall.
  specialize (Hall _ Hin). cbn in Hall.
  exact (bool_decide_eq_true_1 _ Hall).
Qed.

Lemma merge_ts_listings E file1 file2 rest files :
  Forall (λ e, data_listing e = true)
    (events (MergeTs.run E (file1 :: file2 :: rest) files)).
Proof.
  pose proof (merge_ts_run_cases E file1 file2 rest files) as Hr. cbv zeta in Hr.
  set (output := MergeTs.createOutputFilename file1 file2 (rest !! 0%nat)) in *.
  destruct (merge_ts_validated_listings E file1 file2 output (World files None))
    as (Hcalls & _).
  destruct Hr as [(_ & msg & evs & Hr & Hevs)|(_ & _ & [(a & Ha & Hr)|(e & He & Hs & Hr)])];
    rewrite Hr; cbn [events].
  - apply Forall_app. split; [repeat constructor|].
    apply Forall_app. split; [apply data_listing_among_checks, Hevs|repeat constructor].
  - apply Forall_app. split; [repeat constructor|exact Hcalls].
  - apply Forall_app. split; [repeat constructor|].
    apply Forall_app. split; [exact Hcalls|repeat constructor].
Qed.

Lemma part_000_listings E file1 file2 rest files :
  Forall (λ e, data_listing e = true)
    (events (Part000.run E (file1 :: file2 :: rest) files)).
Proof.
  pose proof (part_000_run_cases E file1 file2 rest files) as Hr. cbv zeta in Hr.
  set (output := Part000.createOutputFilename file1 file2 (rest !! 0%nat)) in *.
  destruct (part_000_validated_listings E file1 file2 output (World files None))
    as (Hcalls & _).
  destruct Hr as [(_ & msg & evs & Hr & Hevs)|(_ & _ & [(a & Ha & Hr)|(e & He & Hs & Hr)])];
    rewrite Hr; cbn [events].
  - apply Forall_app. split; [repeat constructor|].
    apply Forall_app. split; [apply data_listing_among_checks, Hevs|repeat constructor].
  - apply Forall_app. split; [repeat constructor|exact Hcalls].
  - apply Forall_app. split; [repeat constructor|].
    apply Forall_app. split; [exact Hcalls|repeat constructor].
Qed.

(** C7. The listing of [getDataTables] returns no name of a reserved
    namespace, and it is the text of every listing in a run of
    [src/merge.ts] and of the earlier argument-driven script. The listing
    of the first fixed-path script has no clause for [rtree_] names: on a
    source holding a layer [roads] with its spatial index it returns the
    three index tables as well, and the run copies the rows of
    [rtree_roads_geom_rowid] into the output, where [getDataTables] returns
    [roads] alone. *)
Theorem listing_filter_by_script (E : env) (file1 file2 : string)
    (rest : list string) (files : gmap string file) :
  let source := Toy.indexed 11 in
  let r1 := Part001.run (Toy.env source 0) Toy.indexed_disk in
  (∀ c name, name ∈ select_data_tables c → ¬ Design.reserved name)
  ∧ (∀ h sql a,
       Select h sql None a ∈ events (MergeTs.run E (file1 :: file2 :: rest) files)
       ∨ Select h sql None a ∈ events (Part000.run E (file1 :: file2 :: rest) files) →
       sql = Sql.list_data_tables)
  ∧ select_data_tables source = ["roads"]
  ∧ Select sourceDb Sql.list_tables_no_rtree None
      (All ["roads"; "rtree_roads_geom"; "rtree_roads_geom_rowid";
            "rtree_roads_geom_node"]) ∈ events r1
  ∧ Design.reserved "rtree_roads_geom_rowid"
  ∧ Run targetDb (Sql.insert_or_ignore_select "rtree_roads_geom_rowid") (Some 2)
      ∈ events r1.
Proof.
  cbv zeta. split; [exact select_data_tables_not_reserved|].
  split.
  { intros h sql a [Hin|Hin].
    - exact (data_listing_sql h sql a _ (merge_ts_listings E file1 file2 rest files) Hin).
    - exact (data_listing_sql h sql a _ (part_000_listings E file1 file2 rest files) Hin). }
  split; [reflexivity|].
  split; [by_compute|].
  split; [right; right; reflexivity|].
  by_compute.
Qed.

(** ** The output path *)

Lemma string_length_app (s1 s2 : string) :
  String.length (s1 +:+ s2) = (String.length s1 + String.length s2)%nat.
Proof. induction s1 as [|c s1 IH]; simpl; [reflexivity|]. rewrite IH. reflexivity. Qed.

Lemma string_drop_length n s :
  (String.length s ≤ String.length (JS.string_drop n s) + n)%nat.
Proof.
  revert s. induction n as [|n IH]; intros s; simpl; [lia|].
  destruct s as [|c s]; simpl; [lia|]. specialize (IH s). lia.
Qed.

Lemma replace_length pat s :
  (String.length s ≤ String.length (JS.replace pat "" s) + String.length pat)%nat.
Proof.
  induction s as [|c s IH].
  - simpl. lia.
  - cbn [JS.replace]. destruct (String.prefix pat (String c s)).
    + cbn [String.append]. apply string_drop_length.
    + simpl. lia.
Qed.

Lemma timestamped_ne E out : timestamped E out ≠ out.
Proof.
  intros H. apply (f_equal String.length) in H. unfold timestamped in H.
  rewrite !string_length_app in H. simpl in H.
  pose proof (replace_length (JS.extname out) out). lia.
Qed.

Lemma merge_ts_finalOutputFilename_found E out w f :
  fs w !! out = Some f →
  MergeTs.finalOutputFilename E out w =
  Step (Ret (timestamped E out)) w
    [ExistsSync out true;
     Log ("Output file exists, creating: " +:+ timestamped E out)].
Proof.
  intros H. unfold MergeTs.finalOutputFilename. run_steps. reflexivity.
Qed.

Lemma merge_ts_mergeInto_writes E file1 file2 name1 name2 final :
  tame (eq final) (writes_to final) anything
    (MergeTs.mergeInto E file1 file2 name1 name2 final).
Proof.
  unfold_merge_ts. tame_auto.
  all: try (intros; cbn; apply bool_decide_eq_true_2; reflexivity).
  all: try (right; reflexivity).
Qed.

Lemma keeps_prepend {A} out f P evs (s : step A) :
  Forall (λ e, P e = true) evs → keeps out f P s → keeps out f P (prepend evs s).
Proof.
  intros Hevs [Hf Hc]. split; [exact Hf|]. cbn. apply Forall_app. auto.
Qed.

Lemma keeps_tame {A} W P (R : A → Prop) (m : M A) out f w :
  tame W P R m → ¬ W out → fs w !! out = Some f → keeps out f P (m w).
Proof.
  intros Hm HW Hf. destruct (Hm w) as (Hc & Hfr & _).
  split; [rewrite Hfr by exact HW; exact Hf|exact Hc].
Qed.

Lemma keeps_then {A B} W P (R : A → Prop) (m : M A) (k : A → M B) out f w :
  tame W P R m → ¬ W out → fs w !! out = Some f →
  (∀ a w', R a → fs w' !! out = Some f → keeps out f P (k a w')) →
  keeps out f P ((m ≫= k) w).
Proof.
  intros Hm HW Hf Hk. destruct (Hm w) as (Hc & Hfr & Ho).
  rewrite bind_eq. unfold then_.
  assert (fs (after (m w)) !! out = Some f) as Hf' by (rewrite Hfr by exact HW; exact Hf).
  destruct (Platform.out (m w)) as [a|e|c].
  - apply keeps_prepend; [exact Hc|]. apply Hk; [exact Ho|exact Hf'].
  - split; [exact Hf'|exact Hc].
  - split; [exact Hf'|exact Hc].
Qed.

Lemma merge_ts_validated_keeps E file1 file2 out w f :
  fs w !! out = Some f →
  keeps out f (writes_to (timestamped E out)) (MergeTs.validated E file1 file2 out w).
Proof.
  intros Hf. unfold MergeTs.validated.
  eapply (keeps_then (λ _, False));
    [unfold MergeTs.logFileSizes; solve [tame_auto]|tauto|exact Hf|].
  intros [name1 name2] w' _ Hf'. rewrite bind_eq.
  rewrite (merge_ts_finalOutputFilename_found E out w' f Hf').
  unfold then_. cbn [Platform.out after calls].
  apply keeps_prepend; [repeat constructor|].
  eapply keeps_tame; [apply merge_ts_mergeInto_writes| |exact Hf'].
  apply timestamped_ne.
Qed.

Lemma writes_to_among_checks final evs :
  Forall (λ e, is_exists_check e = true) evs →
  Forall (λ e, writes_to final e = true) evs.
Proof.
  intros Hall. eapply Forall_impl; [exact Hall|].
  intros e He. destruct e; try discriminate. reflexivity.
Qed.

Lemma merge_ts_keeps_output E file1 file2 rest files :
  let out := MergeTs.createOutputFilename file1 file2 (rest !! 0%nat) in
  let r := MergeTs.run E (file1 :: file2 :: rest) files in
  is_Some (files !! out) →
  final_fs r !! out = files !! out
  ∧ Forall (λ e, writes_to (timestamped E out) e = true) (events r).
Proof.
  cbv zeta. intros [f Hf].
  pose proof (merge_ts_run_cases E file1 file2 rest files) as Hr. cbv zeta in Hr.
  set (out := MergeTs.createOutputFilename file1 file2 (rest !! 0%nat)) in *.
  destruct (merge_ts_validated_keeps E file1 file2 out (World files None) f Hf)
    as [Hkeep Hcalls].
  destruct Hr as [(_ & msg & evs & Hr & Hevs)|(_ & _ & [(a & Ha & Hr)|(e & He & Hs & Hr)])];
    rewrite Hr; cbn [events final_fs].
  - split; [reflexivity|].
    apply Forall_app. split; [repeat constructor|].
    apply Forall_app. split; [apply writes_to_among_checks, Hevs|repeat constructor].
  - split; [rewrite Hkeep, Hf; reflexivity|].
    apply Forall_app. split; [repeat constructor|exact Hcalls].
  - split; [rewrite Hkeep, Hf; reflexivity|].
    apply Forall_app. split; [repeat constructor|].
    apply Forall_app. split; [exact Hcalls|repeat constructor].
Qed.

Lemma calls_then {A B} (s : step A) (k : A → M B) ev :
  ev ∈ calls s → ev ∈ calls (then_ s k).
Proof.
  intros H. unfold then_. destruct (out s); cbn; [|exact H..].
  apply elem_of_app. left. exact H.
Qed.

Lemma calls_catch {A} (s : step A) h ev :
  ev ∈ calls s → ev ∈ calls (catch_ s h).
Proof.
  intros H. unfold catch_. destruct (out s); cbn; [exact H| |exact H].
  apply elem_of_app. left. exact H.
Qed.

Lemma unlinkSync_calls E path w :
  ∃ done, UnlinkSync path done ∈ calls (unlinkSync E path w).
Proof.
  unfold unlinkSync.
  destruct (fs w !! path); [destruct (unlink_error E path)|];
    rewrite ?call_eq; cbn; eexists; apply list_elem_of_here.
Qed.

Lemma part_002_unlinks E files :
  is_Some (files !! Part002.file1) → is_Some (files !! Part002.file2) →
  is_Some (files !! Part002.output) →
  ∃ done, UnlinkSync Part002.output done ∈ events (Part002.run E files).
Proof.
  intros [f1 H1] [f2 H2] [f3 H3].
  unfold Part002.run, run_process, Part002.main, Part002.merge.
  run_steps.
  rewrite !(lookup_stat files _ _ H1), ?(lookup_stat files _ _ H2).
  run_steps. rewrite (lookup_stat files _ _ H2). run_steps.
  destruct (unlinkSync_calls E Part002.output (World files None)) as [done Hdone].
  exists done. rewrite result_of_prepend. cbn [events].
  apply elem_of_app. right. apply calls_catch, calls_then. exact Hdone.
Qed.

(** C4, as stated, fails on the second fixed-path script: with an earlier
    result at its output path, the run deletes that file and writes the new
    merge in its place. *)
Lemma fixed_path_script_overwrites :
  ¬ Design.no_overwrite Part002.output Toy.syria_disk
      (Part002.run Toy.engine Toy.syria_disk).
Proof.
  intros H.
  assert (is_Some (Toy.syria_disk !! Part002.output)) as Hsome by by_compute.
  specialize (H Hsome). absurd_call H.
Qed.

(** C4 (amended). In [src/merge.ts], when the derived or supplied output
    path names an existing file, that file is after the run what it was
    before: the run copies to, and opens as its target, only the
    timestamped name, which differs from the output path, and deletes
    nothing; so a second run with the same output name leaves the first
    run's file as it is. The second fixed-path script, given its two inputs
    and an existing output, calls [unlinkSync] on the output. *)
Theorem no_overwrite_by_script (E : env) (file1 file2 : string)
    (rest : list string) (files : gmap string file) :
  let output := MergeTs.createOutputFilename file1 file2 (rest !! 0%nat) in
  let r := MergeTs.run E (file1 :: file2 :: rest) files in
  Design.no_overwrite output files r
  ∧ (is_Some (files !! output) →
     timestamped E output ≠ output
     ∧ Forall (λ e, writes_to (timestamped E output) e = true) (events r))
  ∧ (is_Some (files !! Part002.file1) → is_Some (files !! Part002.file2) →
     is_Some (files !! Part002.output) →
     ∃ done, UnlinkSync Part002.output done ∈ events (Part002.run E files)).
Proof.
  cbv zeta. split; [|split].
  - intros Hsome. apply (merge_ts_keeps_output E file1 file2 rest files Hsome).
  - intros Hsome. split; [apply timestamped_ne|].
    apply (merge_ts_keeps_output E file1 file2 rest files Hsome).
  - apply part_002_unlinks.
Qed.

Lemma no_overwrite_by_script_witness :
  let args := ["north.gpkg"; "south.gpkg"] in
  let r1 := MergeTs.run Toy.engine args Toy.disk in
  let r2 := MergeTs.run Toy.engine args (final_fs r1) in
  final_fs r2 !! "merged_north_south.gpkg" = final_fs r1 !! "merged_north_south.gpkg".
Proof.
  cbv zeta.
  refine (proj1 (no_overwrite_by_script Toy.engine "north.gpkg" "south.gpkg" []
                   (final_fs (MergeTs.run Toy.engine ["north.gpkg"; "south.gpkg"]
                                Toy.disk))) _).
  by_compute.
Defined.

(** ** The attach statement *)

Lemma executed_prepend {A} h sql evs (s : step A) :
  Exec h sql true ∈ calls s → Exec h sql true ∈ calls (prepend evs s).
Proof. intros H. cbn. apply elem_of_app. right. exact H. Qed.

Lemma ensures_executed {B} E db sql (k : unit → M B) w :
  ensures (λ s, Exec (conn db) sql true ∈ calls s) ((db_exec E db sql ≫= k) w).
Proof.
  rewrite bind_eq, db_exec_eq.
  repeat split_stuck; cbn [then_ out after calls];
    try (intros [? ?]; discriminate).
  intros _. cbn. apply list_elem_of_here.
Qed.

Lemma ensures_rejected {B} E db sql (k : unit → M B) w :
  rejects E sql → ensures (λ _, False) ((db_exec E db sql ≫= k) w).
Proof.
  intros Hrej. rewrite bind_eq, db_exec_eq.
  destruct (fs w !! conn_path db) as [[c|]|]; cbn [then_ out after calls];
    try (intros [? ?]; discriminate).
  destruct (Hrej (fs w) c (source_db w)) as [msg ->].
  cbn [then_ out after calls]. intros [? ?]. discriminate.
Qed.

Ltac ensures_walk_to_attach :=
  repeat lazymatch goal with
    | |- ensures _ (mbind _ (db_exec _ _ (Sql.attach _)) _) => fail
    | |- ensures _ (mbind _ _ _) =>
        eapply (ensures_then any_path any_event);
        [ solve [tame_auto] | | intros ? ?; subst; cbv beta ]
    | |- ensures _ ((let '(_, _) := ?x in _) _) => destruct x
    end.

Lemma merge_ts_attach_ensures E file1 file2 output w (G : step unit → Prop) :
  (∀ evs s, G s → G (prepend evs s)) →
  (∀ db k w', conn db = targetDb →
     ensures G ((db_exec E db (Sql.attach file2) ≫= k) w')) →
  ensures G (MergeTs.validated E file1 file2 output w).
Proof.
  intros Hmono Hattach.
  unfold MergeTs.validated, MergeTs.mergeInto, MergeTs.finalOutputFilename,
    MergeTs.logFileSizes, MergeTs.getDataTables.
  ensures_walk_to_attach.
  all: try (intros ? ? _; apply Hmono).
  apply Hattach. reflexivity.
Qed.

Lemma part_000_attach_ensures E file1 file2 output w (G : step unit → Prop) :
  (∀ evs s, G s → G (prepend evs s)) →
  (∀ db k w', conn db = targetDb →
     ensures G ((db_exec E db (Sql.attach file2) ≫= k) w')) →
  ensures G (Part000.validated E file1 file2 output w).
Proof.
  intros Hmono Hattach.
  unfold Part000.validated, Part000.mergeInto, Part000.copyBase,
    Part000.getDataTables, Part000.logCounts; cbv zeta.
  ensures_walk_to_attach.
  all: try (intros ? ? _; apply Hmono).
  apply Hattach. reflexivity.
Qed.

Lemma attach_executed_ensures E file2 db (k : unit → M unit) w :
  conn db = targetDb →
  ensures (λ s, Exec targetDb (Sql.attach file2) true ∈ calls s)
    ((db_exec E db (Sql.attach file2) ≫= k) w).
Proof. intros <-. apply ensures_executed. Qed.

Lemma merge_ts_success_attached E file1 file2 rest files :
  let r := MergeTs.run E (file1 :: file2 :: rest) files in
  exit_code r = 0%Z → Exec targetDb (Sql.attach file2) true ∈ events r.
Proof.
  cbv zeta. intros Hcode.
  pose proof (merge_ts_run_cases E file1 file2 rest files) as Hr. cbv zeta in Hr.
  set (output := MergeTs.createOutputFilename file1 file2 (rest !! 0%nat)) in *.
  destruct Hr as [(_ & msg & evs & Hr & Hevs)|(_ & _ & [(a & Ha & Hr)|(e & He & Hs & Hr)])];
    rewrite Hr in Hcode |- *; cbn [events exit_code] in Hcode |- *;
    try discriminate Hcode.
  apply elem_of_app. right.
  apply (merge_ts_attach_ensures E file1 file2 output (World files None)
           (λ s, Exec targetDb (Sql.attach file2) true ∈ calls s)).
  - intros evs s. apply executed_prepend.
  - intros db k w'. apply attach_executed_ensures.
  - exists a. exact Ha.
Qed.

Lemma part_000_success_attached E file1 file2 rest files :
  let r := Part000.run E (file1 :: file2 :: rest) files in
  exit_code r = 0%Z → Exec targetDb (Sql.attach file2) true ∈ events r.
Proof.
  cbv zeta. intros Hcode.
  pose proof (part_000_run_cases E file1 file2 rest files) as Hr. cbv zeta in Hr.
  set (output := Part000.createOutputFilename file1 file2 (rest !! 0%nat)) in *.
  destruct Hr as [(_ & msg & evs & Hr & Hevs)|(_ & _ & [(a & Ha & Hr)|(e & He & Hs & Hr)])];
    rewrite Hr in Hcode |- *; cbn [events exit_code] in Hcode |- *;
    try discriminate Hcode.
  apply elem_of_app. right.
  apply (part_000_attach_ensures E file1 file2 output (World files None)
           (λ s, Exec targetDb (Sql.attach file2) true ∈ calls s)).
  - intros evs s. apply executed_prepend.
  - intros db k w'. apply attach_executed_ensures.
  - exists a. exact Ha.
Qed.

Lemma not_missing_both (files : gmap string file) file1 file2 :
  is_Some (files !! file1) → is_Some (files !! file2) →
  ¬ (files !! file1 = None ∨ files !! file2 = None).
Proof. intros [? H1] [? H2] [H|H]; congruence. Qed.

Lemma merge_ts_rejected_exit_2 E file1 file2 rest files :
  rejects E (Sql.attach file2) →
  is_Some (files !! file1) → is_Some (files !! file2) →
  exit_code (MergeTs.run E (file1 :: file2 :: rest) files) = 2%Z.
Proof.
  intros Hrej H1 H2.
  pose proof (merge_ts_run_cases E file1 file2 rest files) as Hr. cbv zeta in Hr.
  set (output := MergeTs.createOutputFilename file1 file2 (rest !! 0%nat)) in *.
  destruct Hr as [(Hm & _)|(_ & _ & [(a & Ha & Hr)|(e & He & Hs & Hr)])].
  - destruct (not_missing_both files file1 file2 H1 H2 Hm).
  - destruct (merge_ts_attach_ensures E file1 file2 output (World files None)
                (λ _, False)).
    + intros _ _ H. exact H.
    + intros db k w' _. apply ensures_rejected, Hrej.
    + exists a. exact Ha.
  - rewrite Hr. reflexivity.
Qed.

Lemma part_000_rejected_exit_2 E file1 file2 rest files :
  rejects E (Sql.attach file2) →
  is_Some (files !! file1) → is_Some (files !! file2) →
  exit_code (Part000.run E (file1 :: file2 :: rest) files) = 2%Z.
Proof.
  intros Hrej H1 H2.
  pose proof (part_000_run_cases E file1 file2 rest files) as Hr. cbv zeta in Hr.
  set (output := Part000.createOutputFilename file1 file2 (rest !! 0%nat)) in *.
  destruct Hr as [(Hm & _)|(_ & _ & [(a & Ha & Hr)|(e & He & Hs & Hr)])].
  - destruct (not_missing_both files file1 file2 H1 H2 Hm).
  - destruct (part_000_attach_ensures E file1 file2 output (World files None)
                (λ _, False)).
    + intros _ _ H. exact H.
    + intros db k w' _. apply ensures_rejected, Hrej.
    + exists a. exact Ha.
  - rewrite Hr. reflexivity.
Qed.

(** C10, as stated, fails on a path whose quote characters pair up: for
    [a''b.gpkg] the statement is well formed and names the file [a'b.gpkg];
    with both files on disk the run of [src/merge.ts] ends with exit code
    0. *)
Lemma doubled_quote_attaches_another_file :
  ¬ Design.quote_breaks_attach (MergeTs.run Toy.engine).
Proof.
  intros H.
  assert (exit_code (MergeTs.run Toy.engine ["north.gpkg"; "a''b.gpkg"]
                       Toy.quoted_disk) = 2%Z)
    as Hcode by (apply H; by_compute).
  vm_compute in Hcode. discriminate Hcode.
Qed.

(** C10 (amended). The attach statement is the [file2] path, as given,
    between single quotes. In [src/merge.ts] and in the earlier script a run
    ends with exit code 0 only if the engine executed that statement; when
    the engine refuses it and both input files exist, the run ends with
    exit code 2. A path with a lone quote ([it's.gpkg]) gives a statement
    the engine refuses; a path with a doubled quote ([a''b.gpkg]) gives a
    well-formed statement that names another file. *)
Theorem attach_statement_by_script (E : env) (file1 file2 : string)
    (rest : list string) (files : gmap string file) :
  let rm := MergeTs.run E (file1 :: file2 :: rest) files in
  let rp := Part000.run E (file1 :: file2 :: rest) files in
  Sql.attach file2 = "ATTACH DATABASE '" +:+ file2 +:+ "' AS source_db"
  ∧ (exit_code rm = 0%Z → Exec targetDb (Sql.attach file2) true ∈ events rm)
  ∧ (exit_code rp = 0%Z → Exec targetDb (Sql.attach file2) true ∈ events rp)
  ∧ (rejects E (Sql.attach file2) →
     is_Some (files !! file1) → is_Some (files !! file2) →
     exit_code rm = 2%Z ∧ exit_code rp = 2%Z)
  ∧ Toy.parse_attach (Sql.attach "it's.gpkg") = None
  ∧ rejects Toy.engine (Sql.attach "it's.gpkg")
  ∧ Toy.parse_attach (Sql.attach "a''b.gpkg") = Some "a'b.gpkg".
Proof.
  cbv zeta. split; [reflexivity|].
  split; [apply merge_ts_success_attached|].
  split; [apply part_000_success_attached|].
  split.
  { intros Hrej H1 H2. split.
    - apply merge_ts_rejected_exit_2; assumption.
    - apply part_000_rejected_exit_2; assumption. }
  split; [reflexivity|].
  split; [|reflexivity].
  intros fs0 c a. eexists. vm_compute. reflexivity.
Qed.

Lemma attach_statement_by_script_witness :
  exit_code (MergeTs.run Toy.engine ["north.gpkg"; "it's.gpkg"] Toy.apostrophe_disk) = 2%Z
  ∧ exit_code (Part000.run Toy.engine ["north.gpkg"; "it's.gpkg"] Toy.apostrophe_disk) = 2%Z.
Proof.
  pose proof (attach_statement_by_script Toy.engine "north.gpkg" "it's.gpkg" []
                Toy.apostrophe_disk) as H.
  cbv zeta in H.
  destruct H as (_ & _ & _ & Hexit & _ & Hrej & _).
  apply Hexit; [exact Hrej|by_compute..].
Defined.

(* ================================================================== *)
(** * Further properties of the scripts *)

Import Runs.

(** ** Missing input files, in detail *)

Lemma truthy_Some s : JS.truthy (Some s) = bool_decide (s ≠ "").
Proof.
  unfold JS.truthy. destruct (decide (s = "")) as [->|Hne]; [reflexivity|].
  rewrite bool_decide_eq_false_2, bool_decide_eq_true_2 by exact Hne. reflexivity.
Qed.

(** X1. When an input is missing, [src/merge.ts] has checked both paths
    and its error message lists the missing ones in argument order,
    separated by a comma; a missing path that is the empty string is left
    out of the list. The run makes no other call, exits with code 1 and
    leaves the files as they were. *)
Theorem merge_ts_reports_missing_files (E : env) (file1 file2 : string)
    (rest : list string) (files : gmap string file) :
  files !! file1 = None ∨ files !! file2 = None →
  MergeTs.run E (file1 :: file2 :: rest) files =
    Result files
      [Log "GeoPackage Merge Tool";
       ExistsSync file1 (bool_decide (is_Some (files !! file1)));
       ExistsSync file2 (bool_decide (is_Some (files !! file2)));
       LogError ("Failed: Missing file(s): "
                 +:+ JS.join ", " (reported_missing files [file1; file2]));
       ProcessExit 1] 1.
Proof.
  intros Hmissing. rewrite merge_ts_run_eq.
  unfold MergeTs.merge, MergeTs.validateFilesExist, reported_missing.
  rewrite !filter_cons, filter_nil.
  destruct (files !! file1) as [f1|] eqn:H1, (files !! file2) as [f2|] eqn:H2;
    [destruct Hmissing; discriminate|..];
    run_steps; cbn [fs]; rewrite ?H1, ?H2; run_steps;
    cbn [omap list_omap]; rewrite ?truthy_Some;
    destruct (decide (file1 = "")) as [Hf1|Hf1], (decide (file2 = "")) as [Hf2|Hf2];
    rewrite ?(bool_decide_eq_false_2 (file1 ≠ "")) by tauto;
    rewrite ?(bool_decide_eq_false_2 (file2 ≠ "")) by tauto;
    rewrite ?(bool_decide_eq_true_2 (file1 ≠ "")) by assumption;
    rewrite ?(bool_decide_eq_true_2 (file2 ≠ "")) by assumption;
    rewrite ?(decide_False (P := file1 ≠ "" ∧ _)) by (intros [? ?]; congruence);
    rewrite ?(decide_False (P := file2 ≠ "" ∧ _)) by (intros [? ?]; congruence);
    rewrite ?(decide_True (P := file1 ≠ "" ∧ _)) by (split; first [assumption|reflexivity]);
    rewrite ?(decide_True (P := file2 ≠ "" ∧ _)) by (split; first [assumption|reflexivity]);
    cbn [JS.truthy]; reflexivity.
Qed.

Lemma merge_ts_reports_missing_files_witness :
  MergeTs.run (Toy.env [] 0) ["west.gpkg"; "east.gpkg"] Toy.disk =
    Result Toy.disk
      [Log "GeoPackage Merge Tool";
       ExistsSync "west.gpkg" false; ExistsSync "east.gpkg" false;
       LogError "Failed: Missing file(s): west.gpkg, east.gpkg";
       ProcessExit 1] 1.
Proof.
  refine (eq_trans (merge_ts_reports_missing_files (Toy.env [] 0) "west.gpkg" "east.gpkg"
                      [] Toy.disk _) _).
  - left. by_compute.
  - vm_compute. reflexivity.
Defined.

(** X2. The earlier script checks its inputs one after the other and stops
    at the first one missing: with [file1] missing it never looks at
    [file2], and the message names that one file. In both cases the run
    exits with code 1 and leaves the files as they were. *)
Theorem part_000_stops_at_first_missing_file (E : env) (file1 file2 : string)
    (rest : list string) (files : gmap string file) :
  let r := Part000.run E (file1 :: file2 :: rest) files in
  (files !! file1 = None →
   r = Result files
         [Log "GeoPackage Merge Tool"; ExistsSync file1 false;
          LogError ("Failed: " +:+ file1 +:+ " file missing"); ProcessExit 1] 1)
  ∧ (is_Some (files !! file1) → files !! file2 = None →
     r = Result files
           [Log "GeoPackage Merge Tool"; ExistsSync file1 true;
            ExistsSync file2 false;
            LogError ("Failed: " +:+ file2 +:+ " file missing"); ProcessExit 1] 1).
Proof.
  cbv zeta. rewrite part_000_run_eq. unfold Part000.merge. split.
  - intros H1. rewrite bind_eq, part_000_missing_missing by exact H1.
    run_simpl. reflexivity.
  - intros H1 H2.
    rewrite bind_eq, part_000_missing_found by exact H1. run_simpl.
    rewrite bind_eq, part_000_missing_missing by exact H2. run_simpl.
    reflexivity.
Qed.

Lemma part_000_stops_at_first_missing_file_witness :
  Part000.run (Toy.env [] 0) ["west.gpkg"; "east.gpkg"] Toy.disk =
  Result Toy.disk
    [Log "GeoPackage Merge Tool"; ExistsSync "west.gpkg" false;
     LogError "Failed: west.gpkg file missing"; ProcessExit 1] 1.
Proof.
  apply (proj1 (part_000_stops_at_first_missing_file (Toy.env [] 0)
                  "west.gpkg" "east.gpkg" [] Toy.disk)).
  by_compute.
Defined.

(** ** The output name of the earlier script *)

Lemma replace_not_included pat rep s :
  includes pat s = false → JS.replace pat rep s = s.
Proof.
  induction s as [|c s IH]; cbn [includes JS.replace];
    destruct (String.prefix pat _); try discriminate; [reflexivity|].
  intros H. rewrite (IH H). reflexivity.
Qed.

Lemma prefix_length pat s :
  String.prefix pat s = true → (String.length pat ≤ String.length s)%nat.
Proof.
  revert s. induction pat as [|a pat IH]; intros s; [simpl; lia|].
  destruct s as [|b s]; simpl; [discriminate|].
  destruct (ascii_dec a b); [|discriminate]. intros H. specialize (IH s H). lia.
Qed.

Lemma string_drop_exact n s :
  (n ≤ String.length s)%nat →
  (String.length (JS.string_drop n s) + n = String.length s)%nat.
Proof.
  revert s. induction n as [|n IH]; intros s; simpl; [lia|].
  destruct s as [|c s]; simpl; [lia|]. intros H. specialize (IH s). lia.
Qed.

Lemma replace_included_length pat rep s :
  includes pat s = true →
  (String.length (JS.replace pat rep s) + String.length pat
   = String.length s + String.length rep)%nat.
Proof.
  induction s as [|c s IH]; cbn [includes JS.replace];
    destruct (String.prefix pat _) eqn:Hp; try discriminate.
  - intros _. rewrite string_length_app.
    pose proof (string_drop_exact _ _ (prefix_length _ _ Hp)). lia.
  - intros _. rewrite string_length_app.
    pose proof (string_drop_exact _ _ (prefix_length _ _ Hp)). lia.
  - intros H. specialize (IH H). simpl. lia.
Qed.

Lemma suffixed_ne E output :
  includes ".gpkg" output = true → suffixed E output ≠ output.
Proof.
  intros Hin Heq. apply (f_equal String.length) in Heq.
  pose proof (replace_included_length ".gpkg" ("_" +:+ pretty (Date_now E) +:+ ".gpkg")
                output Hin) as Hlen.
  fold (suffixed E output) in Hlen. rewrite Heq in Hlen.
  rewrite !string_length_app in Hlen. simpl in Hlen. lia.
Qed.

Lemma part_000_mergeInto_writes E file2 name1 name2 final :
  tame (eq final) (writes_to final) anything
    (Part000.mergeInto E file2 name1 name2 final).
Proof.
  unfold_part_000. tame_auto.
  all: try (intros; cbn; apply bool_decide_eq_true_2; reflexivity).
  all: try (right; reflexivity).
Qed.

Lemma part_000_validated_keeps E file1 file2 output w f :
  fs w !! output = Some f →
  includes ".gpkg" output = true →
  keeps output f (writes_to (suffixed E output))
    (Part000.validated E file1 file2 output w).
Proof.
  intros Hf Hin. unfold Part000.validated; cbv zeta.
  eapply (keeps_then (λ _, False)); [solve [tame_auto]|tauto|exact Hf|].
  intros f1 w1 _ Hf1.
  eapply (keeps_then (λ _, False)); [solve [tame_auto]|tauto|exact Hf1|].
  intros f2 w2 _ Hf2.
  do 3 (eapply (keeps_then (λ _, False)); [solve [tame_auto]|tauto|eassumption|];
        intros ? ? _ ?).
  unfold Part000.copyBase. rewrite !bind_eq, existsSync_eq.
  match goal with H : fs ?w' !! output = Some f |- context [fs ?w' !! output] =>
    rewrite H end.
  run_simpl. rewrite bind_eq, console_log_eq. run_simpl.
  fold (suffixed E output).
  rewrite !then_prepend. apply keeps_prepend; [repeat constructor|].
  apply keeps_prepend; [repeat constructor|].
  rewrite <- bind_eq.
  eapply keeps_tame; [|exact (suffixed_ne E output Hin)|eassumption].
  apply (tame_bind _ _ (eq (suffixed E output))).
  - apply (tame_bind _ _ anything).
    + apply tame_copyFileSync; [reflexivity|].
      intros b. cbn. apply bool_decide_eq_true_2. reflexivity.
    + intros _ _. apply tame_ret. reflexivity.
  - intros ? <-. apply part_000_mergeInto_writes.
Qed.

Lemma copyFileSync_calls E src dst w :
  ∃ done, CopyFileSync src dst done ∈ calls (copyFileSync E src dst w).
Proof.
  unfold copyFileSync.
  destruct (fs w !! src); [destruct (copy_error E src dst)|];
    rewrite ?call_eq; cbn; eexists; apply list_elem_of_here.
Qed.

Lemma part_000_copies_onto_output E file1 file2 rest files :
  let output := Part000.createOutputFilename file1 file2 (rest !! 0%nat) in
  is_Some (files !! file1) → is_Some (files !! file2) →
  is_Some (files !! output) → includes ".gpkg" output = false →
  ∃ done, CopyFileSync file1 output done
          ∈ events (Part000.run E (file1 :: file2 :: rest) files).
Proof.
  cbv zeta. intros H1 H2 [f3 H3] Hin. rewrite part_000_run_eq.
  set (output := Part000.createOutputFilename file1 file2 (rest !! 0%nat)) in *.
  rewrite (part_000_merge_validated E file1 file2 output (World files None) H1 H2).
  destruct H1 as [f1 H1], H2 as [f2 H2].
  unfold Part000.validated, Part000.copyBase; cbv zeta.
  rewrite (replace_not_included _ _ _ Hin).
  rewrite bind_eq, (lookup_stat files _ _ H1). run_simpl.
  rewrite bind_eq, (lookup_stat files _ _ H2). run_simpl.
  run_steps.
  destruct (copyFileSync_calls E file1 output (World files None)) as [done Hdone].
  exists done. rewrite result_of_prepend.
  cbn [events]. apply elem_of_app. right.
  apply calls_catch. repeat apply calls_then. exact Hdone.
Qed.

(** X3. The earlier script derives the name to use when its output exists
    by replacing the first [.gpkg] of the output name. When the name
    contains [.gpkg], the new name differs from it, the existing file is
    left as it was, and the run copies to and opens as its target only the
    new name. When it does not (an output argument such as [merged.db] or
    [OUT.GPKG]), the name is unchanged and the run copies [file1] onto the
    existing output. *)
Theorem part_000_output_name (E : env) (file1 file2 : string)
    (rest : list string) (files : gmap string file) :
  let output := Part000.createOutputFilename file1 file2 (rest !! 0%nat) in
  let r := Part000.run E (file1 :: file2 :: rest) files in
  is_Some (files !! output) →
  (includes ".gpkg" output = true →
   suffixed E output ≠ output
   ∧ final_fs r !! output = files !! output
   ∧ Forall (λ e, writes_to (suffixed E output) e = true) (events r))
  ∧ (includes ".gpkg" output = false →
     is_Some (files !! file1) → is_Some (files !! file2) →
     ∃ done, CopyFileSync file1 output done ∈ events r).
Proof.
  cbv zeta. intros Hsome. split.
  - intros Hin. split; [exact (suffixed_ne E _ Hin)|].
    destruct Hsome as [f Hf].
    pose proof (part_000_run_cases E file1 file2 rest files) as Hr. cbv zeta in Hr.
    set (output := Part000.createOutputFilename file1 file2 (rest !! 0%nat)) in *.
    destruct (part_000_validated_keeps E file1 file2 output (World files None) f Hf Hin)
      as [Hkeep Hcalls].
    destruct Hr as [(_ & msg & evs & Hr & Hevs)|(_ & _ & [(a & Ha & Hr)|(e & He & Hs & Hr)])];
      rewrite Hr; cbn [events final_fs].
    + split; [reflexivity|].
      apply Forall_app. split; [repeat constructor|].
      apply Forall_app. split; [apply writes_to_among_checks, Hevs|repeat constructor].
    + split; [rewrite Hkeep, Hf; reflexivity|].
      apply Forall_app. split; [repeat constructor|exact Hcalls].
    + split; [rewrite Hkeep, Hf; reflexivity|].
      apply Forall_app. split; [repeat constructor|].
      apply Forall_app. split; [exact Hcalls|repeat constructor].
  - intros Hin H1 H2.
    exact (part_000_copies_onto_output E file1 file2 rest files H1 H2 Hsome Hin).
Qed.

Lemma part_000_output_name_witness :
  ∃ done, CopyFileSync "north.gpkg" "merged.db" done
          ∈ events (Part000.run Toy.engine ["north.gpkg"; "south.gpkg"; "merged.db"]
                      Samples.plain_disk).
Proof.
  refine (proj2 (part_000_output_name Toy.engine "north.gpkg" "south.gpkg"
                   ["merged.db"] Samples.plain_disk _) _ _ _); by_compute.
Defined.

(** ** The files a run changes *)














(** ** A run of [src/merge.ts] that ends with exit code 0 *)

Lemma merge_ts_merge_table_inserts E src tgt t n w :
  conn tgt = targetDb →
  ensures (λ s, ∃ k, Run targetDb (Sql.insert_select t) (Some k) ∈ calls s)
    (MergeTs.merge_table E src tgt t n w).
Proof.
  destruct src as [hs ps], tgt as [ht pt]. cbn [conn]. intros ->.
  unfold MergeTs.merge_table, MergeTs.processTable, MergeTs.createTableIfNotExists,
    MergeTs.tableExists, MergeTs.insertTableData.
  repeat (run_steps; try split_stuck); run_steps; cbn [out calls].
  all: intros [a Ha]; try discriminate Ha.
  all: eexists; in_list.
Qed.

Lemma inserted_all_app_r tables evs evs' :
  inserted_all tables evs' → inserted_all tables (evs ++ evs').
Proof.
  intros H t Ht. destruct (H t Ht) as [k Hk]. exists k.
  apply elem_of_app. right. exact Hk.
Qed.

Lemma merge_ts_mergeTables_inserts E src tgt tables n w :
  conn tgt = targetDb →
  ensures (λ s, inserted_all tables (calls s))
    (for_of tables n (MergeTs.merge_table E src tgt) w).
Proof.
  intros Htgt. revert n w. induction tables as [|t tables IH]; intros n w.
  - intros _ t Ht. apply elem_of_nil in Ht. contradiction.
  - cbn [for_of]. rewrite bind_eq.
    pose proof (merge_ts_merge_table_inserts E src tgt t n w Htgt) as Ht.
    unfold then_, ensures, Design.completes in *.
    destruct (out (MergeTs.merge_table E src tgt t n w)) as [n1|e|c] eqn:Hout;
      cbn [out calls prepend]; [|intros [? ?]; discriminate..].
    intros Hcomp. destruct Ht as [k Hk]; [eauto|].
    intros t' Ht'. apply elem_of_cons in Ht' as [->|Ht'].
    + exists k. apply elem_of_app. left. exact Hk.
    + apply (inserted_all_app_r tables); [|exact Ht']. apply IH. exact Hcomp.
Qed.

Lemma inserted_all_prepend {A} tables evs (s : step A) :
  inserted_all tables (calls s) → inserted_all tables (calls (prepend evs s)).
Proof. apply inserted_all_app_r. Qed.

Lemma merge_ts_loop_inserts E name1 name2 output src tgt tables w :
  conn tgt = targetDb →
  ensures (λ s, inserted_all tables (calls s))
    ((totalMerged ← MergeTs.mergeTables E src tgt tables;
      MergeTs.finish E name1 name2 output src tgt totalMerged) w).
Proof.
  intros Htgt. rewrite bind_eq. unfold MergeTs.mergeTables.
  pose proof (merge_ts_mergeTables_inserts E src tgt tables 0%nat w Htgt) as Hloop.
  unfold then_, ensures, Design.completes in *.
  destruct (out (for_of tables 0%nat (MergeTs.merge_table E src tgt) w))
    as [total|e|c]; cbn [out calls prepend]; [|intros [? ?]; discriminate..].
  intros _ t Ht. destruct (Hloop (ex_intro _ total eq_refl) t Ht) as [k Hk].
  exists k. apply elem_of_app. left. exact Hk.
Qed.

Lemma merge_ts_loop_total E name1 name2 output src tgt tables w :
  conn src = sourceDb → conn tgt = targetDb → conn_path tgt = output →
  ensures (λ s, Log ("Total rows added: " +:+ pretty (merged_rows (calls s)))
                  ∈ calls s)
    ((totalMerged ← MergeTs.mergeTables E src tgt tables;
      MergeTs.finish E name1 name2 output src tgt totalMerged) w).
Proof.
  intros Hsrc Htgt Hpath. rewrite bind_eq. unfold MergeTs.mergeTables.
  pose proof (merge_ts_mergeTables_spec E src tgt tables 0%nat w Hsrc Htgt) as Hloop.
  cbv zeta in Hloop. unfold then_, ensures, Design.completes.
  destruct (out (for_of tables 0%nat (MergeTs.merge_table E src tgt) w))
    as [total|e|c]; cbn [out calls prepend]; [|intros [? ?]; discriminate..].
  destruct Hloop as [_ Hsum].
  match goal with |- context [MergeTs.finish _ _ _ _ _ _ _ ?w'] =>
    destruct (merge_ts_finish_spec E name1 name2 output src tgt total w' Hpath)
      as [(f & w'' & ->)|(e & -> & _)]
  end.
  - intros _. cbn [calls]. rewrite merged_rows_app. cbn [merged_rows foldr].
    rewrite Nat.add_0_r. simpl in Hsum. rewrite <- Hsum.
    apply elem_of_app. right. in_list.
  - intros [a Ha]. discriminate Ha.
Qed.

Lemma merge_ts_total E file1 file2 output w :
  ensures (λ s, Log ("Total rows added: " +:+ pretty (merged_rows (calls s)))
                  ∈ calls s)
    (MergeTs.validated E file1 file2 output w).
Proof.
  unfold MergeTs.validated, MergeTs.mergeInto, MergeTs.finalOutputFilename,
    MergeTs.logFileSizes, MergeTs.getDataTables.
  ensures_walk not_run ltac:(intros ? ?; apply total_prepend).
  apply merge_ts_loop_total; reflexivity.
Qed.

Lemma inserts_listed_prepend {A} evs (s : step A) :
  Forall (λ e, not_source_listing e = true) evs →
  inserts_listed s → inserts_listed (prepend evs s).
Proof.
  intros Hevs Hs tables Hlist. rewrite Forall_forall in Hevs.
  cbn [calls prepend] in *. apply inserted_all_app_r. apply Hs.
  apply elem_of_app in Hlist as [Hlist|Hlist]; [|exact Hlist].
  specialize (Hevs _ Hlist). discriminate Hevs.
Qed.

Lemma listing_ensures {B} (k : list string → M B) src w :
  conn src = sourceDb →
  (∀ tables, tame any_path not_source_listing anything (k tables)) →
  (∀ tables w', ensures (λ s, inserted_all tables (calls s)) (k tables w')) →
  ensures inserts_listed
    ((db_all src Sql.list_data_tables select_data_tables ≫= k) w).
Proof.
  intros Hsrc Htame Hk. rewrite bind_eq. unfold db_all. rewrite Hsrc.
  destruct (fs w !! conn_path src) as [[c|]|]; rewrite call_eq;
    cbn [then_ out after calls]; try (intros [? ?]; discriminate).
  intros Hcomp tables Hlist. cbn [calls prepend] in *.
  apply elem_of_cons in Hlist as [Hlist|Hlist].
  - injection Hlist as ->. apply (inserted_all_app_r _ [_]). apply Hk.
    destruct Hcomp as [a Ha]. exists a. exact Ha.
  - destruct (Htame (select_data_tables c) w) as (Hc & _).
    rewrite Forall_forall in Hc. specialize (Hc _ Hlist). discriminate Hc.
Qed.

Lemma merge_ts_inserts_listed E file1 file2 output w :
  ensures inserts_listed (MergeTs.validated E file1 file2 output w).
Proof.
  unfold MergeTs.validated, MergeTs.mergeInto, MergeTs.finalOutputFilename,
    MergeTs.logFileSizes.
  ensures_walk not_source_listing ltac:(intros ? ?; apply inserts_listed_prepend).
  unfold MergeTs.getDataTables. apply listing_ensures; [reflexivity| |].
  - intros tables. unfold MergeTs.mergeTables, MergeTs.merge_table,
      MergeTs.processTable, MergeTs.createTableIfNotExists, MergeTs.insertTableData,
      MergeTs.tableExists, MergeTs.finish.
    tame_auto.
  - intros tables w'.
    ensures_walk any_event ltac:(intros ? ? _; apply inserted_all_prepend).
    apply merge_ts_loop_inserts. reflexivity.
Qed.

Lemma merge_ts_success_quiet E file1 file2 output w :
  ensures (λ s, Forall (λ e, quiet e = true) (calls s))
    (MergeTs.validated E file1 file2 output w).
Proof.
  intros [a Ha]. apply Forall_forall. intros ev Hev.
  destruct (quiet ev) eqn:Hq; [reflexivity|exfalso].
  destruct (merge_ts_stops E file1 file2 output w) as [(e & He & _) _]; [eauto|].
  congruence.
Qed.

(** X6. A run of [src/merge.ts] that ends with exit code 0 made no call
    that failed to insert and reported no error, ran an [INSERT] that went
    through for every table the listing of the source returned, and
    reports as its total the rows these [INSERT]s added. *)
Theorem merge_ts_exit_code_0 (E : env) (file1 file2 : string)
    (rest : list string) (files : gmap string file) :
  let r := MergeTs.run E (file1 :: file2 :: rest) files in
  exit_code r = 0%Z →
  Forall (λ e, quiet e = true) (events r)
  ∧ (∀ tables,
       Select sourceDb Sql.list_data_tables None (All tables) ∈ events r →
       inserted_all tables (events r))
  ∧ Log ("Total rows added: " +:+ pretty (merged_rows (events r))) ∈ events r.
Proof.
  cbv zeta. intros Hcode.
  pose proof (merge_ts_run_cases E file1 file2 rest files) as Hr. cbv zeta in Hr.
  set (output := MergeTs.createOutputFilename file1 file2 (rest !! 0%nat)) in *.
  destruct Hr as [(_ & msg & evs & Hr & Hevs)|(_ & _ & [(a & Ha & Hr)|(e & He & Hs & Hr)])];
    rewrite Hr in Hcode |- *; cbn [events exit_code final_fs] in Hcode |- *;
    try discriminate Hcode.
  assert (Design.completes (MergeTs.validated E file1 file2 output (World files None)))
    as Hcomp by (exists a; exact Ha).
  split; [|split].
  - apply Forall_app. split; [repeat constructor|].
    apply (merge_ts_success_quiet E file1 file2 output _ Hcomp).
  - intros tables Hlist.
    apply inserted_all_app_r.
    apply (merge_ts_inserts_listed E file1 file2 output _ Hcomp).
    do 3 (apply elem_of_cons in Hlist as [Hlist|Hlist]; [discriminate Hlist|]).
    exact Hlist.
  - rewrite merged_rows_app. cbn [merged_rows foldr Nat.add].
    apply elem_of_app. right.
    apply (merge_ts_total E file1 file2 output _ Hcomp).
Qed.

Lemma merge_ts_exit_code_0_witness :
  Log "Total rows added: 1"
  ∈ events (MergeTs.run Toy.engine ["north.gpkg"; "lakes.gpkg"] Samples.lakes_disk).
Proof.
  refine (eq_rect _ (λ l, l ∈ _)
            (proj2 (proj2 (merge_ts_exit_code_0 Toy.engine "north.gpkg" "lakes.gpkg" []
                             Samples.lakes_disk _))) _ _).
  - vm_compute. reflexivity.
  - vm_compute. reflexivity.
Defined.

(** ** What [getDataTables] lists *)

Lemma like_chars_stem (p s : list ascii) :
  Forall (λ c, c ≠ "%"%char ∧ c ≠ "_"%char) p →
  like_chars (p ++ ["_"%char; "%"%char]) s
  = JS.ci_list_eqb p (take (length p) s) && (length p <? length s)%nat.
Proof.
  intros Hp. revert s. induction Hp as [|a p [Ha1 Ha2] _ IH]; intros s.
  - destruct s as [|c s]; [reflexivity|].
    cbn [app length take JS.ci_list_eqb]. rewrite like_chars_underscore.
    apply like_chars_percent.
  - destruct s as [|c s]; cbn [app length take JS.ci_list_eqb].
    + simpl. rewrite (bool_decide_eq_false_2 _ Ha1), (bool_decide_eq_false_2 _ Ha2).
      reflexivity.
    + rewrite like_chars_literal by assumption. rewrite IH.
      change (S (length p) <? S (length s))%nat with (length p <? length s)%nat.
      rewrite andb_assoc. reflexivity.
Qed.

Lemma chars_length s : length (JS.chars s) = String.length s.
Proof. induction s as [|c s IH]; [reflexivity|]. simpl. rewrite IH. reflexivity. Qed.

Lemma like_stem (stem name : string) :
  Forall (λ c, c ≠ "%"%char ∧ c ≠ "_"%char) (JS.chars stem) →
  like name (stem +:+ "_%") = ci_starts stem name.
Proof.
  intros Hstem. unfold like, ci_starts.
  assert (JS.chars (stem +:+ "_%") = JS.chars stem ++ ["_"%char; "%"%char]) as ->.
  { clear Hstem. induction stem as [|c stem IH]; [reflexivity|].
    simpl. f_equal. exact IH. }
  rewrite (like_chars_stem _ _ Hstem), !chars_length. reflexivity.
Qed.

Ltac plain_stem :=
  repeat constructor; discriminate.

(** X7. [getDataTables] lists the names of the catalog entries of type
    [table], except every name that starts, in any letter case, with
    [sqlite], [gpkg] or [rtree] followed by at least one more character:
    the [_] of its three [LIKE] patterns matches any character, so a layer
    named [rtrees] or [gpkgdata] is left out as well. *)
Theorem getDataTables_lists (c : catalog) (name : string) :
  name ∈ select_data_tables c ↔
  ∃ t, t ∈ c ∧ tbl_type t = "table" ∧ tbl_name t = name
       ∧ ci_starts "sqlite" name = false
       ∧ ci_starts "gpkg" name = false
       ∧ ci_starts "rtree" name = false.
Proof.
  unfold select_data_tables. rewrite list_elem_of_fmap.
  pose proof (like_stem "sqlite") as Hs. pose proof (like_stem "gpkg") as Hg.
  pose proof (like_stem "rtree") as Hr.
  cbn [String.append] in Hs, Hg, Hr.
  split.
  - intros (t & -> & Hin). apply list_elem_of_filter in Hin as [Hf Hin].
    exists t. split; [exact Hin|].
    rewrite Hs, Hg, Hr in Hf by plain_stem.
    apply andb_prop in Hf as [Hf H3]. apply andb_prop in Hf as [Hf H2].
    apply andb_prop in Hf as [H0 H1].
    apply negb_true_iff in H1, H2, H3.
    split; [exact (bool_decide_eq_true_1 _ H0)|]. auto.
  - intros (t & Hin & Htype & <- & H1 & H2 & H3). exists t. split; [reflexivity|].
    apply list_elem_of_filter. split; [|exact Hin].
    rewrite Hs, Hg, Hr by plain_stem. rewrite H1, H2, H3.
    unfold is_table. rewrite bool_decide_eq_true_2 by exact Htype. reflexivity.
Qed.

(** ** The statements of the first fixed-path script *)





(** ** Timestamped output names *)

Lemma string_app_inv_head (s t1 t2 : string) : s +:+ t1 = s +:+ t2 → t1 = t2.
Proof.
  induction s as [|c s IH]; simpl; [auto|]. intros H. injection H as H. auto.
Qed.

Lemma string_app_inv_tail (s1 s2 t : string) : s1 +:+ t = s2 +:+ t → s1 = s2.
Proof.
  revert s2. induction s1 as [|c s1 IH]; intros [|d s2] H; simpl in H.
  - reflexivity.
  - apply (f_equal String.length) in H.
    rewrite !string_length_app in H. simpl in H. rewrite ?string_length_app in H. lia.
  - apply (f_equal String.length) in H.
    rewrite !string_length_app in H. simpl in H. rewrite ?string_length_app in H. lia.
  - injection H as -> H. f_equal. apply IH, H.
Qed.

Lemma timestamped_inj E1 E2 output :
  timestamped E1 output = timestamped E2 output → Date_now E1 = Date_now E2.
Proof.
  unfold timestamped. intros H.
  apply string_app_inv_head in H. apply (string_app_inv_head "_") in H.
  apply string_app_inv_tail in H. apply (inj pretty) in H. exact H.
Qed.

(** X9. When the output exists, the names [src/merge.ts] derives at two
    readings of the clock are the same exactly when the readings are: two
    runs at different times write to different files, two in the same
    millisecond to the same one. *)
Theorem merge_ts_timestamped_names (E1 E2 : env) (output : string) (w : world) :
  is_Some (fs w !! output) →
  (out (MergeTs.finalOutputFilename E1 output w)
   = out (MergeTs.finalOutputFilename E2 output w)
   ↔ Date_now E1 = Date_now E2).
Proof.
  intros [f Hf].
  rewrite !(merge_ts_finalOutputFilename_found _ output w f Hf). cbn [out].
  split.
  - intros H. injection H as H. apply (timestamped_inj _ _ _ H).
  - intros H. unfold timestamped. rewrite H. reflexivity.
Qed.

Lemma merge_ts_timestamped_names_witness :
  out (MergeTs.finalOutputFilename (Toy.env [] 1) "north.gpkg" (World Toy.disk None))
  ≠ out (MergeTs.finalOutputFilename (Toy.env [] 2) "north.gpkg" (World Toy.disk None)).
Proof.
  intros H.
  apply (proj1 (merge_ts_timestamped_names (Toy.env [] 1) (Toy.env [] 2) "north.gpkg"
                  (World Toy.disk None) ltac:(by_compute))) in H.
  discriminate H.
Defined.

(** ** Attach comes first *)

Lemma attached_first_app file2 evs evs' :
  Forall (λ e, not_run e = true) evs →
  attached_first file2 evs' → attached_first file2 (evs ++ evs').
Proof.
  intros Hevs (pre & post & -> & Hpre). exists (evs ++ pre), post.
  split; [rewrite app_assoc; reflexivity|]. apply Forall_app. auto.
Qed.

Lemma attached_first_app_r file2 evs evs' :
  attached_first file2 evs → attached_first file2 (evs ++ evs').
Proof.
  intros (pre & post & -> & Hpre). exists pre, (post ++ evs').
  split; [|exact Hpre]. rewrite <- app_assoc. reflexivity.
Qed.

Lemma attached_first_prepend {A} file2 evs (s : step A) :
  Forall (λ e, not_run e = true) evs →
  attached_first file2 (calls s) → attached_first file2 (calls (prepend evs s)).
Proof. apply attached_first_app. Qed.

Lemma attach_guards_runs {B} E file2 db (k : unit → M B) w :
  conn db = targetDb →
  guarded not_run (λ s, attached_first file2 (calls s))
    ((db_exec E db (Sql.attach file2) ≫= k) w).
Proof.
  intros Hdb. rewrite bind_eq, db_exec_eq, Hdb.
  repeat split_stuck; cbn [then_ out after calls];
    try (intros (e & He & HP); apply list_elem_of_singleton in He as ->;
         discriminate HP).
  intros _. cbn [calls prepend]. eexists [], _.
  split; [reflexivity|constructor].
Qed.

Ltac guarded_walk_to_attach mono :=
  repeat lazymatch goal with
    | |- guarded _ _ (mbind _ (db_exec _ _ (Sql.attach _)) _) => fail
    | |- guarded _ _ (mbind _ _ _) =>
        eapply (guarded_then any_path);
        [ solve [tame_auto] | mono | intros ? ?; subst; cbv beta ]
    | |- guarded _ _ ((let '(_, _) := ?x in _) _) => destruct x
    end.

Lemma merge_ts_attached_first E file1 file2 output w :
  guarded not_run (λ s, attached_first file2 (calls s))
    (MergeTs.validated E file1 file2 output w).
Proof.
  unfold MergeTs.validated, MergeTs.mergeInto, MergeTs.finalOutputFilename,
    MergeTs.logFileSizes, MergeTs.getDataTables.
  guarded_walk_to_attach ltac:(intros ? ?; apply attached_first_prepend).
  apply attach_guards_runs. reflexivity.
Qed.

Lemma part_000_attached_first E file1 file2 output w :
  guarded not_run (λ s, attached_first file2 (calls s))
    (Part000.validated E file1 file2 output w).
Proof.
  unfold Part000.validated, Part000.mergeInto, Part000.copyBase,
    Part000.getDataTables, Part000.logCounts; cbv zeta.
  guarded_walk_to_attach ltac:(intros ? ?; apply attached_first_prepend).
  apply attach_guards_runs. reflexivity.
Qed.

Lemma not_run_among_checks evs :
  Forall (λ e, is_exists_check e = true) evs →
  Forall (λ e, not_run e = true) evs.
Proof.
  intros Hall. eapply Forall_impl; [exact Hall|].
  intros e He. destruct e; try discriminate. reflexivity.
Qed.

Lemma attached_first_run {A} file2 (s : step A) pre post ev :
  guarded not_run (λ s, attached_first file2 (calls s)) s →
  Forall (λ e, not_run e = true) pre →
  Forall (λ e, not_run e = true) post →
  ev ∈ pre ++ calls s ++ post → not_run ev = false →
  attached_first file2 (pre ++ calls s ++ post).
Proof.
  intros Hg Hpre Hpost Hin Hev.
  apply attached_first_app; [exact Hpre|]. apply attached_first_app_r.
  apply Hg. exists ev. split; [|exact Hev].
  rewrite Forall_forall in Hpre, Hpost.
  apply elem_of_app in Hin as [Hin|Hin]; [rewrite (Hpre _ Hin) in Hev; discriminate|].
  apply elem_of_app in Hin as [Hin|Hin]; [exact Hin|].
  rewrite (Hpost _ Hin) in Hev. discriminate.
Qed.

(** X10. In a run of [src/merge.ts] or of the earlier script that runs an
    [INSERT], the attach statement of [file2] went through before the
    first [INSERT] was run. *)
Theorem attach_precedes_inserts (E : env) (file1 file2 : string)
    (rest : list string) (files : gmap string file) (h : handle) (sql : string)
    (n : option nat) :
  let rm := MergeTs.run E (file1 :: file2 :: rest) files in
  let rp := Part000.run E (file1 :: file2 :: rest) files in
  (Run h sql n ∈ events rm → attached_first file2 (events rm))
  ∧ (Run h sql n ∈ events rp → attached_first file2 (events rp)).
Proof.
  cbv zeta. split; intros Hin.
  - pose proof (merge_ts_run_cases E file1 file2 rest files) as Hr. cbv zeta in Hr.
    set (output := MergeTs.createOutputFilename file1 file2 (rest !! 0%nat)) in *.
    pose proof (merge_ts_attached_first E file1 file2 output (World files None)) as Hg.
    destruct Hr as [(_ & msg & evs & Hr & Hevs)|(_ & _ & [(a & Ha & Hr)|(e & He & Hs & Hr)])];
      rewrite Hr in Hin |- *; cbn [events] in Hin |- *.
    + exfalso. apply not_run_among_checks in Hevs. rewrite Forall_forall in Hevs.
      apply elem_of_cons in Hin as [Hin|Hin]; [discriminate|].
      apply elem_of_app in Hin as [Hin|Hin];
        [specialize (Hevs _ Hin); discriminate|no_such_call Hin].
    + rewrite <- (app_nil_r (calls _)) in Hin |- *.
      eapply attached_first_run; [exact Hg|repeat constructor..|exact Hin|reflexivity].
    + eapply attached_first_run; [exact Hg|repeat constructor..|exact Hin|reflexivity].
  - pose proof (part_000_run_cases E file1 file2 rest files) as Hr. cbv zeta in Hr.
    set (output := Part000.createOutputFilename file1 file2 (rest !! 0%nat)) in *.
    pose proof (part_000_attached_first E file1 file2 output (World files None)) as Hg.
    destruct Hr as [(_ & msg & evs & Hr & Hevs)|(_ & _ & [(a & Ha & Hr)|(e & He & Hs & Hr)])];
      rewrite Hr in Hin |- *; cbn [events] in Hin |- *.
    + exfalso. apply not_run_among_checks in Hevs. rewrite Forall_forall in Hevs.
      apply elem_of_cons in Hin as [Hin|Hin]; [discriminate|].
      apply elem_of_app in Hin as [Hin|Hin];
        [specialize (Hevs _ Hin); discriminate|no_such_call Hin].
    + rewrite <- (app_nil_r (calls _)) in Hin |- *.
      eapply attached_first_run; [exact Hg|repeat constructor..|exact Hin|reflexivity].
    + eapply attached_first_run; [exact Hg|repeat constructor..|exact Hin|reflexivity].
Qed.

Lemma attach_precedes_inserts_witness :
  attached_first "south.gpkg"
    (events (MergeTs.run Toy.engine ["north.gpkg"; "south.gpkg"] Toy.disk)).
Proof.
  apply (proj1 (attach_precedes_inserts Toy.engine "north.gpkg" "south.gpkg" [] Toy.disk
                  targetDb (Sql.insert_select "roads") None)).
  by_compute.
Defined.

(** ** The output of a run that ends with exit code 0 *)

Lemma leaves_database_prepend {A} path evs (s : step A) :
  leaves_database path s → leaves_database path (prepend evs s).
Proof. intros H. exact H. Qed.

Lemma ensures_then_same {A B} P (R : A → Prop) (G : step B → Prop)
    (m : M A) (k : A → M B) w :
  tame (λ _, False) P R m →
  (∀ evs s, G s → G (prepend evs s)) →
  (∀ a w', R a → (∀ p, fs w' !! p = fs w !! p) → ensures G (k a w')) →
  ensures G ((m ≫= k) w).
Proof.
  intros Hm Hmono Hk. rewrite bind_eq. destruct (Hm w) as (_ & Hf & Ho).
  unfold then_, ensures, Design.completes.
  destruct (out (m w)) as [a|e|c]; cbn [out prepend];
    [|intros [? ?]; discriminate..].
  intros Hcomp. apply Hmono. apply (Hk a _ Ho); [|exact Hcomp].
  intros p. apply Hf. tauto.
Qed.

Lemma finish_leaves_database E name1 name2 output src tgt total w :
  conn_path tgt = output →
  ensures (leaves_database output)
    (MergeTs.finish E name1 name2 output src tgt total w).
Proof.
  intros Hpath. unfold MergeTs.finish.
  rewrite bind_eq. unfold db_exec. rewrite Hpath.
  destruct (fs w !! output) as [[c|]|] eqn:Hout;
    [destruct (sql_exec E Sql.detach (fs w) c (source_db w)) as [msg|[c' a']]|..];
    rewrite ?call_eq; run_simpl; try (intros [? ?]; discriminate).
  run_steps. unfold statSync. cbn [fs]. rewrite lookup_insert_eq.
  run_steps. intros _. exists c'. cbn [after fs]. apply lookup_insert_eq.
Qed.

Lemma merge_ts_loop_leaves_database E name1 name2 output src tgt tables w :
  conn_path tgt = output →
  ensures (leaves_database output)
    ((totalMerged ← MergeTs.mergeTables E src tgt tables;
      MergeTs.finish E name1 name2 output src tgt totalMerged) w).
Proof.
  intros Hpath. rewrite bind_eq. unfold then_, ensures, Design.completes.
  destruct (out (MergeTs.mergeTables E src tgt tables w)) as [total|e|c];
    cbn [out]; [|intros [? ?]; discriminate..].
  intros Hcomp. apply leaves_database_prepend.
  apply finish_leaves_database; [exact Hpath|exact Hcomp].
Qed.

Lemma merge_ts_mergeInto_leaves_database E file1 file2 name1 name2 final w :
  ensures (leaves_database final)
    (MergeTs.mergeInto E file1 file2 name1 name2 final w).
Proof.
  unfold MergeTs.mergeInto, MergeTs.getDataTables.
  ensures_walk any_event ltac:(intros ? ? _; apply leaves_database_prepend).
  apply merge_ts_loop_leaves_database. reflexivity.
Qed.

Lemma merge_ts_validated_leaves_database E file1 file2 output w :
  ensures (leaves_database (merge_ts_final E (fs w) output))
    (MergeTs.validated E file1 file2 output w).
Proof.
  unfold MergeTs.validated.
  eapply (ensures_then_same any_event);
    [unfold MergeTs.logFileSizes; solve [tame_auto]
    |intros ? ?; apply leaves_database_prepend|].
  intros [name1 name2] w' _ Hsame.
  assert (merge_ts_final E (fs w) output = merge_ts_final E (fs w') output) as ->
    by (unfold merge_ts_final; rewrite Hsame; reflexivity).
  rewrite bind_eq. unfold MergeTs.finalOutputFilename, merge_ts_final.
  rewrite bind_eq, existsSync_eq.
  destruct (fs w' !! output) as [f|] eqn:Hout.
  - rewrite bool_decide_eq_true_2 by eauto. fold (timestamped E output).
    run_steps. intros Hcomp. apply leaves_database_prepend.
    apply merge_ts_mergeInto_leaves_database. exact Hcomp.
  - rewrite bool_decide_eq_false_2 by (intros [? ?]; discriminate).
    run_steps. intros Hcomp. apply leaves_database_prepend.
    apply merge_ts_mergeInto_leaves_database. exact Hcomp.
Qed.

Lemma part_000_loop_leaves_database E name1 name2 output src tgt tables w :
  conn_path tgt = output →
  ensures (leaves_database output)
    ((totalMerged ← Part000.mergeTables E src tgt tables name2;
      Part000.finish E name1 name2 output src tgt totalMerged) w).
Proof.
  intros Hpath. rewrite bind_eq. unfold then_, ensures, Design.completes.
  destruct (out (Part000.mergeTables E src tgt tables name2 w)) as [total|e|c];
    cbn [out]; [|intros [? ?]; discriminate..].
  intros Hcomp. apply leaves_database_prepend.
  apply (finish_leaves_database E name1 name2 output src tgt total _ Hpath).
  exact Hcomp.
Qed.

Lemma part_000_mergeInto_leaves_database E file2 name1 name2 final w :
  ensures (leaves_database final)
    (Part000.mergeInto E file2 name1 name2 final w).
Proof.
  unfold Part000.mergeInto, Part000.getDataTables, Part000.logCounts.
  ensures_walk any_event ltac:(intros ? ? _; apply leaves_database_prepend).
  apply part_000_loop_leaves_database. reflexivity.
Qed.

Lemma part_000_copy_merge_leaves_database E file1 file2 name1 name2 final w :
  ensures (leaves_database final)
    (((copyFileSync E file1 final;; mret final)
      ≫= Part000.mergeInto E file2 name1 name2) w).
Proof.
  eapply (ensures_then any_path any_event (eq final));
    [|intros ? ? _; apply leaves_database_prepend|].
  - apply (tame_bind _ _ anything).
    + apply tame_copyFileSync; [exact I|reflexivity].
    + intros _ _. apply tame_ret. reflexivity.
  - intros ? <-. apply part_000_mergeInto_leaves_database.
Qed.

Lemma part_000_validated_leaves_database E file1 file2 output w :
  ensures (leaves_database (part_000_final E (fs w) output))
    (Part000.validated E file1 file2 output w).
Proof.
  unfold Part000.validated; cbv zeta.
  eapply (ensures_then_same any_event);
    [solve [tame_auto]|intros ? ?; apply leaves_database_prepend|].
  intros f1 w1 _ Hs1.
  eapply (ensures_then_same any_event);
    [solve [tame_auto]|intros ? ?; apply leaves_database_prepend|].
  intros f2 w2 _ Hs2.
  eapply (ensures_then_same any_event);
    [solve [tame_auto]|intros ? ?; apply leaves_database_prepend|].
  intros ? w3 _ Hs3.
  eapply (ensures_then_same any_event);
    [solve [tame_auto]|intros ? ?; apply leaves_database_prepend|].
  intros ? w4 _ Hs4.
  eapply (ensures_then_same any_event);
    [solve [tame_auto]|intros ? ?; apply leaves_database_prepend|].
  intros ? w5 _ Hs5.
  assert (∀ p, fs w5 !! p = fs w !! p) as Hsame
    by (intros p; rewrite Hs5, Hs4, Hs3, Hs2, Hs1; reflexivity).
  assert (part_000_final E (fs w) output = part_000_final E (fs w5) output) as ->
    by (unfold part_000_final; rewrite Hsame; reflexivity).
  unfold Part000.copyBase, part_000_final. rewrite !bind_eq, existsSync_eq.
  destruct (fs w5 !! output) as [f|] eqn:Hout.
  - rewrite bool_decide_eq_true_2 by eauto. fold (suffixed E output).
    run_simpl. rewrite bind_eq, console_log_eq. run_simpl.
    rewrite !then_prepend. intros Hcomp. do 2 apply leaves_database_prepend.
    revert Hcomp. rewrite <- !bind_eq.
    change (ensures (leaves_database (suffixed E output))
              (((copyFileSync E file1 (suffixed E output);; mret (suffixed E output))
                ≫= Part000.mergeInto E file2
                     (JS.or_else (JS.strip_gpkg (JS.split_pop file1)) "file1")
                     (JS.or_else (JS.strip_gpkg (JS.split_pop file2)) "file2")) w5)).
    apply part_000_copy_merge_leaves_database.
  - rewrite bool_decide_eq_false_2 by (intros [? ?]; discriminate).
    run_simpl. rewrite !then_prepend. intros Hcomp. apply leaves_database_prepend.
    revert Hcomp. rewrite <- !bind_eq.
    apply part_000_copy_merge_leaves_database.
Qed.

(** X11. A run of [src/merge.ts] or of the earlier script that ends with
    exit code 0 leaves a database at the path it writes its output to. *)
Theorem exit_code_0_leaves_output (E : env) (file1 file2 : string)
    (rest : list string) (files : gmap string file) :
  let rm := MergeTs.run E (file1 :: file2 :: rest) files in
  let rp := Part000.run E (file1 :: file2 :: rest) files in
  (exit_code rm = 0%Z →
   ∃ c, final_fs rm
          !! merge_ts_final E files
               (MergeTs.createOutputFilename file1 file2 (rest !! 0%nat))
        = Some (Database c))
  ∧ (exit_code rp = 0%Z →
     ∃ c, final_fs rp
            !! part_000_final E files
                 (Part000.createOutputFilename file1 file2 (rest !! 0%nat))
          = Some (Database c)).
Proof.
  cbv zeta. split; intros Hcode.
  - pose proof (merge_ts_run_cases E file1 file2 rest files) as Hr. cbv zeta in Hr.
    set (output := MergeTs.createOutputFilename file1 file2 (rest !! 0%nat)) in *.
    destruct Hr as [(_ & msg & evs & Hr & Hevs)|(_ & _ & [(a & Ha & Hr)|(e & He & Hs & Hr)])];
      rewrite Hr in Hcode |- *; cbn [exit_code final_fs] in Hcode |- *;
      try discriminate Hcode.
    apply (merge_ts_validated_leaves_database E file1 file2 output (World files None)).
    exists a. exact Ha.
  - pose proof (part_000_run_cases E file1 file2 rest files) as Hr. cbv zeta in Hr.
    set (output := Part000.createOutputFilename file1 file2 (rest !! 0%nat)) in *.
    destruct Hr as [(_ & msg & evs & Hr & Hevs)|(_ & _ & [(a & Ha & Hr)|(e & He & Hs & Hr)])];
      rewrite Hr in Hcode |- *; cbn [exit_code final_fs] in Hcode |- *;
      try discriminate Hcode.
    apply (part_000_validated_leaves_database E file1 file2 output (World files None)).
    exists a. exact Ha.
Qed.

Lemma exit_code_0_leaves_output_witness :
  ∃ c, final_fs (MergeTs.run Toy.engine ["north.gpkg"; "lakes.gpkg"] Samples.lakes_disk)
         !! merge_ts_final Toy.engine Samples.lakes_disk
              (MergeTs.createOutputFilename "north.gpkg" "lakes.gpkg" None)
       = Some (Database c).
Proof.
  apply (proj1 (exit_code_0_leaves_output Toy.engine "north.gpkg" "lakes.gpkg" []
                  Samples.lakes_disk)).
  vm_compute. reflexivity.
Defined.

(** ** Counting rows, in the earlier script *)

Lemma halted_prepend {A} evs (s : step A) :
  Forall (λ e, counted e = true) evs → halted s → halted (prepend evs s).
Proof.
  intros Hevs [Ho (ev & before & Hc & Hb & Hev)].
  split; [exact Ho|]. exists ev, (evs ++ before). cbn [calls prepend].
  rewrite Hc, app_assoc. split; [reflexivity|]. split; [|exact Hev].
  apply Forall_app. auto.
Qed.

Lemma db_count_cases E db sql w :
  (∃ n, db_count E db sql w = Step (Ret n) w [Count (conn db) sql (Some n)])
  ∨ (∃ e, db_count E db sql w = Step (Throw e) w [Count (conn db) sql None]
          ∧ err_status e = None).
Proof.
  unfold db_count.
  destruct (fs w !! conn_path db) as [[c|]|];
    [destruct (sql_count E sql c) as [msg|n]|..]; rewrite call_eq; eauto.
Qed.

Lemma logCounts_halts {B} E db tables (k : unit → M B) w :
  (∀ w', guarded counted halted (k () w')) →
  guarded counted halted ((Part000.logCounts E db tables ≫= k) w).
Proof.
  intros Hk. unfold Part000.logCounts. revert w.
  induction tables as [|t tables IH]; intros w.
  - cbn [for_of]. rewrite bind_eq, mret_eq. cbn [then_ out after calls prepend].
    intros H. apply (halted_prepend []); [constructor|]. apply Hk. exact H.
  - cbn [for_of]. rewrite !bind_eq.
    destruct (db_count_cases E db (Sql.count_rows t) w) as [(n & ->)|(e & -> & He)];
      cbn [then_ out after calls prepend].
    + rewrite console_log_eq. cbn [then_ out after calls prepend app].
      rewrite then_prepend. intros (ev & Hev & HP).
      apply (halted_prepend [_; _]); [repeat constructor|].
      rewrite <- bind_eq. apply IH. exists ev. split; [|exact HP].
      cbn [calls prepend app] in Hev.
      do 2 (apply elem_of_cons in Hev as [->|Hev]; [discriminate HP|]). exact Hev.
    + intros _. split; [exists e; split; [reflexivity|exact He]|].
      exists (Count (conn db) (Sql.count_rows t) None), [].
      split; [reflexivity|]. split; [constructor|reflexivity].
Qed.

Lemma part_000_halts E file1 file2 output w :
  guarded counted halted (Part000.validated E file1 file2 output w).
Proof.
  unfold Part000.validated, Part000.mergeInto, Part000.copyBase,
    Part000.getDataTables; cbv zeta.
  guarded_walk ltac:(intros ? ?; apply halted_prepend).
  apply logCounts_halts. intros w1.
  guarded_walk ltac:(intros ? ?; apply halted_prepend).
  apply logCounts_halts. intros w2.
  eapply (guarded_tame any_path counted anything).
  unfold_part_000. unfold Part000.finish. tame_auto.
Qed.

Lemma counted_among_checks evs ev :
  Forall (λ e, is_exists_check e = true) evs → ev ∈ evs → counted ev = true.
Proof.
  intros Hall Hin. rewrite Forall_forall in Hall.
  specialize (Hall _ Hin). destruct ev; try discriminate. reflexivity.
Qed.

(** X12. In the earlier script the row counts are taken outside the
    per-table [try]: a [COUNT] query that throws is the run's last call to
    a database, the run reports the failure and exits with code 2. *)
Theorem part_000_count_failure_is_fatal (E : env) (file1 file2 : string)
    (rest : list string) (files : gmap string file) (h : handle) (sql : string) :
  let r := Part000.run E (file1 :: file2 :: rest) files in
  Count h sql None ∈ events r →
  exit_code r = 2%Z
  ∧ ∃ before msg,
      events r = before ++ [Count h sql None; LogError msg; ProcessExit 2].
Proof.
  cbv zeta. intros Hin.
  pose proof (part_000_run_cases E file1 file2 rest files) as Hp. cbv zeta in Hp.
  set (output := Part000.createOutputFilename file1 file2 (rest !! 0%nat)) in *.
  pose proof (part_000_halts E file1 file2 output (World files None)) as Hhalts.
  set (ev := Count h sql None) in *.
  assert (∀ l, ev ∈ [Log "GeoPackage Merge Tool"; ExistsSync file1 true;
                       ExistsSync file2 true] ++ l → ev ∈ l) as Hhead.
  { intros l H. apply elem_of_app in H as [H|H]; [|exact H].
    exfalso. no_such_call H. }
  destruct Hp as [(_ & msg & evs & Hr & Hevs)|(_ & _ & [(a & Ha & Hr)|(e & He & Hs & Hr)])];
    rewrite Hr in Hin |- *; cbn [events exit_code] in Hin |- *.
  - exfalso. apply elem_of_cons in Hin as [Hin|Hin]; [discriminate Hin|].
    apply elem_of_app in Hin as [Hin|Hin].
    + pose proof (counted_among_checks _ _ Hevs Hin). discriminate.
    + no_such_call Hin.
  - exfalso. apply Hhead in Hin.
    destruct Hhalts as [(e & He & _) _]; [exists ev; eauto|]. congruence.
  - split; [reflexivity|]. apply Hhead in Hin.
    assert (ev ∈ calls (Part000.validated E file1 file2 output (World files None)))
      as Hin'.
    { apply elem_of_app in Hin as [Hin|Hin]; [exact Hin|]. exfalso. no_such_call Hin. }
    destruct Hhalts as [_ (ev' & before & Hc & Hb & Hev')]; [exists ev; eauto|].
    rewrite Hc in Hin' |- *.
    assert (ev = ev') as <-.
    { apply elem_of_app in Hin' as [Hin'|Hin'].
      - exfalso. rewrite Forall_forall in Hb. specialize (Hb _ Hin'). discriminate.
      - apply list_elem_of_singleton in Hin'. exact Hin'. }
    exists ([Log "GeoPackage Merge Tool"; ExistsSync file1 true;
             ExistsSync file2 true] ++ before), ("Failed: " +:+ err_message e).
    cbn [app]. do 3 f_equal. rewrite <- app_assoc. reflexivity.
Qed.

Lemma part_000_count_failure_is_fatal_witness :
  exit_code (Part000.run Samples.uncountable ["north.gpkg"; "south.gpkg"] Toy.disk) = 2%Z.
Proof.
  apply (part_000_count_failure_is_fatal Samples.uncountable "north.gpkg" "south.gpkg" []
           Toy.disk targetDb (Sql.count_rows "roads")).
  by_compute.
Defined.

(** ** Going through the whole list, in the second fixed-path script *)

Lemma db_exec_calls E db sql w :
  ∃ done, Exec (conn db) sql done ∈ calls (db_exec E db sql w).
Proof.
  rewrite db_exec_eq. repeat split_stuck; cbn [calls]; eexists; apply list_elem_of_here.
Qed.

Lemma part_002_merge_table_spec E src tgt t n w :
  let s := Part002.merge_table E src tgt t n w in
  ∃ total,
    out s = Ret total
    ∧ ∃ a, Select (conn tgt) Sql.table_exists (Some t) a ∈ calls s.
Proof.
  cbv zeta. unfold Part002.merge_table.
  repeat (run_steps; try split_stuck); run_steps; cbn [out calls].
  all: eexists; split; [reflexivity|eexists; in_list].
Qed.

Lemma part_002_loop_spec E src tgt tables n w :
  let s := for_of tables n (Part002.merge_table E src tgt) w in
  ∃ total,
    out s = Ret total
    ∧ ∀ t, t ∈ tables →
        ∃ a, Select (conn tgt) Sql.table_exists (Some t) a ∈ calls s.
Proof.
  revert n w. induction tables as [|t tables IH]; intros n w; cbv zeta.
  - exists n. split; [reflexivity|].
    intros t Ht. apply elem_of_nil in Ht. contradiction.
  - cbn [for_of]. rewrite bind_eq.
    destruct (part_002_merge_table_spec E src tgt t n w) as (k & Hk & Hsel).
    destruct (Part002.merge_table E src tgt t n w) as [o1 w1 c1].
    cbn [out calls after] in Hk, Hsel. subst o1.
    cbn [then_ out after calls].
    destruct (IH k w1) as (total & Htotal & Hall).
    exists total. cbn [out prepend calls]. split; [exact Htotal|].
    intros t' Ht'. apply elem_of_cons in Ht' as [->|Ht'].
    + destruct Hsel as [a Ha]. exists a. apply elem_of_app. left. exact Ha.
    + destruct (Hall t' Ht') as [a Ha]. exists a. apply elem_of_app. right. exact Ha.
Qed.

Lemma part_002_loop_merges_every_table E src tgt tables w (rest : nat → M unit) :
  conn tgt = targetDb →
  Design.merges_every_table tables
    (calls ((totalMerged ← for_of tables 0%nat (Part002.merge_table E src tgt);
             db_exec E tgt Sql.detach;; rest totalMerged) w)).
Proof.
  intros Htgt. rewrite bind_eq.
  destruct (part_002_loop_spec E src tgt tables 0%nat w) as (total & Hout & Hall).
  unfold then_. rewrite Hout. cbn [calls prepend]. split.
  - intros t Ht. destruct (Hall t Ht) as [a Ha]. exists a.
    apply elem_of_app. left. rewrite <- Htgt. exact Ha.
  - rewrite bind_eq.
    match goal with |- context [db_exec E tgt Sql.detach ?w'] =>
      destruct (db_exec_calls E tgt Sql.detach w') as [done Hdone]
    end.
    exists done. apply elem_of_app. right. apply calls_then.
    rewrite <- Htgt. exact Hdone.
Qed.

Lemma part_002_isolates E w :
  guarded before_listing isolates (Part002.merge E w).
Proof.
  unfold Part002.merge, Part002.listTables, Part002.logCounts.
  guarded_walk ltac:(intros ? ?; apply isolates_prepend).
  apply listing_then; [reflexivity| |].
  - intros tables. unfold Part002.merge_table. tame_auto.
  - intros tables w'.
    guarded_walk ltac:(intros ? ? _; apply merges_every_table_app).
    intros _.
    apply (part_002_loop_merges_every_table E _ _ tables _
             (λ totalMerged,
                db_close {| conn := sourceDb; conn_path := Part002.file2 |};;
                db_close {| conn := targetDb; conn_path := Part002.output |};;
                stat ← statSync Part002.output;
                console_log (JS.nl +:+ "SYRIA + BLUE MARBLE MERGE COMPLETE!");;
                console_log ("Total rows added: " +:+ pretty totalMerged);;
                console_log ("Output: " +:+ Part002.output +:+ " (" +:+ size_mb E stat +:+ " MB)");;
                console_log "Combined: Syria geographic data + Blue Marble imagery!")).
    reflexivity.
Qed.

Lemma reporting_catch_events (title : string) (merge : M unit)
    (failed : error → M unit) files :
  (∀ e w, failed e w = Step (Ret ()) w [LogError ("Failed: " +:+ err_message e)]) →
  let s := merge (World files None) in
  events (run_process (console_log title;; try_catch merge failed) files)
  = [Log title] ++ calls s
    ++ match out s with
       | Throw e => [LogError ("Failed: " +:+ err_message e)]
       | _ => []
       end.
Proof.
  intros Hfailed. cbv zeta. unfold run_process.
  rewrite bind_eq, console_log_eq. run_simpl. rewrite try_catch_eq, result_of_prepend.
  cbn [events]. f_equal.
  unfold catch_. destruct (out (merge (World files None))) as [a|e|c];
    cbn [result_of events calls]; rewrite ?app_nil_r; try reflexivity.
  rewrite Hfailed. reflexivity.
Qed.

Lemma isolates_run {A} (s : step A) title tail tables ev :
  guarded before_listing isolates s →
  Forall (λ e, before_listing e = true) tail →
  Select sourceDb Sql.list_data_tables None (All tables)
    ∈ [Log title] ++ calls s ++ tail →
  ev ∈ [Log title] ++ calls s ++ tail → before_loop ev = false →
  Design.merges_every_table tables ([Log title] ++ calls s ++ tail).
Proof.
  intros Hiso Htail Hlist Hin Hev.
  assert (before_listing ev = false) as Hev'.
  { unfold before_listing. rewrite Hev. reflexivity. }
  assert (∀ e, before_listing e = false → e ∈ [Log title] ++ calls s ++ tail →
               e ∈ calls s) as Hmid.
  { intros e He H. apply elem_of_app in H as [H|H].
    - apply list_elem_of_singleton in H as ->. discriminate He.
    - apply elem_of_app in H as [H|H]; [exact H|].
      rewrite Forall_forall in Htail. rewrite (Htail _ H) in He. discriminate. }
  apply merges_every_table_app, merges_every_table_app_l.
  apply Hiso; [eauto|apply Hmid; [reflexivity|exact Hlist]|].
  exists ev. split; [apply Hmid; assumption|exact Hev].
Qed.

(** X13. The second fixed-path script isolates a table's failure: a run
    in which an [INSERT] throws, or in which the source has no usable
    create statement for a table, still looks up every table the listing
    returned and goes on to detach. *)
Theorem part_002_goes_through_every_table (E : env) (files : gmap string file) :
  Design.partial_failure_isolation (Part002.run E files)
  ∧ Design.skips_missing_schema (Part002.run E files).
Proof.
  pose proof (reporting_catch_events "GeoPackage Merge - SYRIA + BLUE MARBLE"
                (Part002.merge E) Part002.failed files (λ _ _, eq_refl)) as Hev.
  cbv zeta in Hev.
  pose proof (part_002_isolates E (World files None)) as Hiso.
  assert (Forall (λ e, before_listing e = true)
            match out (Part002.merge E (World files None)) with
            | Throw e => [LogError ("Failed: " +:+ err_message e)]
            | _ => []
            end) as Htail
    by (destruct (out _); repeat constructor).
  unfold Part002.run, Part002.main.
  split.
  - intros tables t Hlist Hrun. rewrite Hev in Hlist, Hrun |- *.
    exact (isolates_run _ _ _ tables _ Hiso Htail Hlist Hrun eq_refl).
  - intros tables t row Hlist Hsel _. rewrite Hev in Hlist, Hsel |- *.
    exact (isolates_run _ _ _ tables _ Hiso Htail Hlist Hsel eq_refl).
Qed.

Lemma part_002_goes_through_every_table_witness :
  Design.merges_every_table ["lakes"; "roads"; "rivers"]
    (events (Part002.run Toy.engine Toy.syria_disk)).
Proof.
  apply (proj1 (part_002_goes_through_every_table Toy.engine Toy.syria_disk))
    with (t := "roads"); by_compute.
Defined.

(** ** The loop of the first fixed-path script *)

Lemma part_001_merge_table_spec E tgt t n w :
  let s := Part001.merge_table E tgt t n w in
  ∃ total,
    out s = Ret total
    ∧ total = (n + merged_rows (calls s))%nat
    ∧ ∃ k, Run (conn tgt) (Sql.insert_or_ignore_select t) k ∈ calls s.
Proof.
  cbv zeta. unfold Part001.merge_table.
  repeat (run_steps; try split_stuck); run_steps; cbn [out calls].
  all: eexists; split; [reflexivity|]; split; [simpl; lia|eexists; in_list].
Qed.

(** X14. The loop of the first fixed-path script never throws: whatever
    the tables and the state, it runs to its end, has tried an
    [INSERT OR IGNORE] for every table, and its total is the rows the
    statements that went through added (a table whose statement threw adds
    nothing). *)
Theorem part_001_loop_never_throws (E : env) (tgt : connection)
    (tables : list string) (n : nat) (w : world) :
  let s := for_of tables n (Part001.merge_table E tgt) w in
  ∃ total,
    out s = Ret total
    ∧ total = (n + merged_rows (calls s))%nat
    ∧ ∀ t, t ∈ tables →
        ∃ k, Run (conn tgt) (Sql.insert_or_ignore_select t) k ∈ calls s.
Proof.
  revert n w. induction tables as [|t tables IH]; intros n w; cbv zeta.
  - exists n. split; [reflexivity|]. split; [simpl; lia|].
    intros t Ht. apply elem_of_nil in Ht. contradiction.
  - cbn [for_of]. rewrite bind_eq.
    destruct (part_001_merge_table_spec E tgt t n w) as (k & Hk & Hsum & Hrun).
    destruct (Part001.merge_table E tgt t n w) as [o1 w1 c1].
    cbn [out calls after] in Hk, Hsum, Hrun. subst o1.
    cbn [then_ out after calls].
    destruct (IH k w1) as (total & Htotal & Hsum' & Hall).
    exists total. cbn [out prepend calls]. split; [exact Htotal|]. split.
    + rewrite merged_rows_app. lia.
    + intros t' Ht'. apply elem_of_cons in Ht' as [->|Ht'].
      * destruct Hrun as [a Ha]. exists a. apply elem_of_app. left. exact Ha.
      * destruct (Hall t' Ht') as [a Ha]. exists a. apply elem_of_app. right. exact Ha.
Qed.
